(** * qbittorrent-operator: the configuration store of [src/charm.py]

    A shallow embedding of [QBittorrentConfig] and of the parts of the
    Python standard library it drives ([configparser], [base64],
    [hashlib.pbkdf2_hmac]), with the properties of the configuration
    file writer stated and proved over it. *)

From Stdlib Require Import String Ascii Init.Byte Strings.Byte.
From Stdlib Require Import List NArith ZArith Lia Bool DecimalPos DecimalZ.
Import ListNotations.

Set Implicit Arguments.

(** ** Python strings *)

(** A Python [str] is a sequence of Unicode code points. *)
Notation char := N (only parsing).
Notation str := (list N) (only parsing).

(** A literal of the source, code point by code point. *)
Definition lit (s : string) : str :=
  map N_of_ascii (list_ascii_of_string s).

Definition NL : char := 10%N.       (* '\n' *)
Definition TAB : char := 9%N.       (* '\t' *)
Definition CR : char := 13%N.       (* '\r' *)
Definition PERCENT : char := 37%N.  (* '%' *)
Definition LPAREN : char := 40%N.   (* '(' *)
Definition RPAREN : char := 41%N.   (* ')' *)
Definition LOWER_S : char := 115%N. (* 's' *)
Definition EQUALS : char := 61%N.   (* '=' *)
Definition COLON : char := 58%N.    (* ':' *)
Definition HASH : char := 35%N.     (* '#' *)
Definition SEMI : char := 59%N.     (* ';' *)
Definition LBRACKET : char := 91%N. (* '[' *)
Definition RBRACKET : char := 93%N. (* ']' *)
Definition SPACE : char := 32%N.    (* ' ' *)

Fixpoint str_eqb (a b : str) : bool :=
  match a, b with
  | [], [] => true
  | x :: a', y :: b' => N.eqb x y && str_eqb a' b'
  | _, _ => false
  end.

(** [c in s] for a single character [c]. *)
Definition char_in (c : char) (s : str) : bool := existsb (N.eqb c) s.

(** ** Python dictionaries

    [dict] keeps insertion order; [d[k] = v] overwrites the value of an
    existing key where it stands and appends a new key at the end. *)
Definition dict (V : Type) := list (str * V).

Fixpoint dict_get {V} (k : str) (d : dict V) : option V :=
  match d with
  | [] => None
  | (k', v) :: d' => if str_eqb k k' then Some v else dict_get k d'
  end.

Definition dict_mem {V} (k : str) (d : dict V) : bool :=
  match dict_get k d with Some _ => true | None => false end.

Fixpoint dict_set {V} (k : str) (v : V) (d : dict V) : dict V :=
  match d with
  | [] => [(k, v)]
  | (k', v') :: d' =>
      if str_eqb k k' then (k', v) :: d' else (k', v') :: dict_set k v d'
  end.

Definition dict_keys {V} (d : dict V) : list str := map fst d.

(** ** Exceptions and the state monad of a mutable object *)

(** The exceptions the code can raise; [OSError] stands for its
    subclasses too (FileNotFoundError, PermissionError). *)
Inductive exn : Type :=
| ValueError
| NoSectionError
| DuplicateSectionError
| DuplicateOptionError
| MissingSectionHeaderError
| ParsingError
| UnicodeEncodeError
| KeyError
| OSError.

Inductive outcome (A : Type) : Type :=
| Return (a : A)
| Raise (e : exn).
Arguments Return {A} a.
Arguments Raise {A} e.

(** A method of an object with state [S]: it returns or raises, and the
    mutations done before a raise stay. *)
Definition M (S A : Type) : Type := S -> outcome A * S.

Definition ret {S A} (a : A) : M S A := fun s => (Return a, s).
Definition raise {S A} (e : exn) : M S A := fun s => (Raise e, s).
Definition bind {S A B} (m : M S A) (f : A -> M S B) : M S B :=
  fun s => match m s with
           | (Return a, s') => f a s'
           | (Raise e, s') => (Raise e, s')
           end.
Definition get_state {S} : M S S := fun s => (Return s, s).
Definition put_state {S} (s : S) : M S unit := fun _ => (Return tt, s).

Declare Scope monad_scope.
Delimit Scope monad_scope with monad.
Notation "x <- m ;; f" := (bind m (fun x => f))
  (at level 61, m at next level, right associativity) : monad_scope.
Notation "m ;; f" := (bind m (fun _ => f))
  (at level 61, right associativity) : monad_scope.
Open Scope monad_scope.

(** ** [str.encode]: UTF-8 *)

Notation bytes := (list byte) (only parsing).

Definition byte_of_N (n : N) : byte :=
  match Byte.of_N (n mod 256) with
  | Some b => b
  | None => x00
  end.

(** [str.encode()]: UTF-8, strict; a surrogate code point cannot be
    encoded. *)
Definition encode_char (c : char) : option bytes :=
  (if c <? 128 then Some [byte_of_N c]
   else if c <? 2048 then
     Some [byte_of_N (192 + c / 64); byte_of_N (128 + c mod 64)]
   else if c <? 65536 then
     if (55296 <=? c) && (c <=? 57343) then None
     else Some [byte_of_N (224 + c / 4096);
                byte_of_N (128 + (c / 64) mod 64);
                byte_of_N (128 + c mod 64)]
   else if c <? 1114112 then
     Some [byte_of_N (240 + c / 262144);
           byte_of_N (128 + (c / 4096) mod 64);
           byte_of_N (128 + (c / 64) mod 64);
           byte_of_N (128 + c mod 64)]
   else None)%N.

Fixpoint encode (s : str) : outcome bytes :=
  match s with
  | [] => Return []
  | c :: rest =>
      match encode_char c, encode rest with
      | Some b, Return bs => Return (b ++ bs)
      | _, _ => Raise UnicodeEncodeError
      end
  end.

(** A code point UTF-8 can encode: below U+110000 and no surrogate. *)
Definition encodable (c : char) : bool :=
  ((c <? 1114112) && negb ((55296 <=? c) && (c <=? 57343)))%N.

(** ** configparser: the parser object *)

Definition DEFAULTSECT : str := lit "DEFAULT".

(** [self._sections] and [self._defaults] of a [ConfigParser]. *)
Record ConfigParser : Type := mkParser {
  _sections : dict (dict str);
  _defaults : dict str
}.

Definition new_parser : ConfigParser := mkParser [] [].

(** [self.config.optionxform = str]: the option name is kept as it is,
    where the library's default lowers it. *)
Definition optionxform (optionstr : str) : str := optionstr.

(** [value.replace('%%', '')] *)
Fixpoint replace_percent_percent (value : str) : str :=
  match value with
  | [] => []
  | c :: rest =>
      match rest with
      | c' :: rest' =>
          if N.eqb c PERCENT && N.eqb c' PERCENT
          then replace_percent_percent rest'
          else c :: replace_percent_percent rest
      | [] => [c]
      end
  end.

(** Length of a match of [_KEYCRE = %\(([^)]+)\)s] at the start of [s]. *)
Fixpoint keycre_name (s : str) (n : nat) : option nat :=
  match s with
  | [] => None
  | c :: rest =>
      if N.eqb c RPAREN then
        match n, rest with
        | S _, c' :: _ => if N.eqb c' LOWER_S then Some (n + 2)%nat else None
        | _, _ => None
        end
      else keycre_name rest (S n)
  end.

Definition keycre_match (s : str) : option nat :=
  match s with
  | c :: c' :: rest =>
      if N.eqb c PERCENT && N.eqb c' LPAREN
      then option_map (fun n => (n + 2)%nat) (keycre_name rest 0)
      else None
  | _ => None
  end.

(** [_KEYCRE.sub('', s)]: the matches are removed, leftmost first;
    [skip] counts the characters of the match being removed. *)
Fixpoint keycre_sub (skip : nat) (s : str) : str :=
  match s with
  | [] => []
  | c :: rest =>
      match skip with
      | S n => keycre_sub n rest
      | O =>
          match keycre_match s with
          | Some len => keycre_sub (len - 1) rest
          | None => c :: keycre_sub 0 rest
          end
      end
  end.

(** [BasicInterpolation.before_set] *)
Definition before_set (value : str) : outcome str :=
  let tmp_value := replace_percent_percent value in
  let tmp_value := keycre_sub 0 tmp_value in
  if char_in PERCENT tmp_value then Raise ValueError else Return value.

Definition has_section (section : str) : M ConfigParser bool :=
  fun p => (Return (dict_mem section (_sections p)), p).

(** [ConfigParser.add_section] *)
Definition add_section (section : str) : M ConfigParser unit :=
  fun p =>
    if str_eqb section DEFAULTSECT then (Raise ValueError, p)
    else if dict_mem section (_sections p) then (Raise DuplicateSectionError, p)
    else (Return tt, mkParser (dict_set section [] (_sections p)) (_defaults p)).

(** [ConfigParser.set]; the type checks of [_validate_value_types] hold
    by typing. *)
Definition parser_set (section option value : str) : M ConfigParser unit :=
  fun p =>
    match (match value with
           | [] => Return value
           | _ :: _ => before_set value
           end) with
    | Raise e => (Raise e, p)
    | Return value =>
        match section with
        | [] =>
            (Return tt,
             mkParser (_sections p)
                      (dict_set (optionxform option) value (_defaults p)))
        | _ :: _ =>
            if str_eqb section DEFAULTSECT then
              (Return tt,
               mkParser (_sections p)
                        (dict_set (optionxform option) value (_defaults p)))
            else
              match dict_get section (_sections p) with
              | None => (Raise NoSectionError, p)
              | Some sectdict =>
                  (Return tt,
                   mkParser
                     (dict_set section
                        (dict_set (optionxform option) value sectdict)
                        (_sections p))
                     (_defaults p))
              end
        end
    end.

(** [str(value).replace('\n', '\n\t')] *)
Definition replace_newline (value : str) : str :=
  flat_map (fun c => if N.eqb c NL then [NL; TAB] else [c]) value.

(** A file object open for writing in text mode is the text written so
    far. [fp.write(s)] encodes [s] with the codec of the file (UTF-8,
    the encoding of the locale, strict) before it appends anything: a
    string with a code point that cannot be encoded raises
    UnicodeEncodeError and nothing of it is written. *)
Definition fp_write (s : str) : M str unit :=
  fun fp =>
    match encode s with
    | Return _ => (Return tt, fp ++ s)
    | Raise ex => (Raise ex, fp)
    end.

(** [for x in l: body(x)] *)
Fixpoint for_each {S A} (l : list A) (body : A -> M S unit) : M S unit :=
  match l with
  | [] => ret tt
  | x :: rest => body x ;; for_each rest body
  end.

(** [RawConfigParser._write_section] *)
Definition _write_section (section_name : str) (section_items : dict str)
    (delimiter : str) : M str unit :=
  fp_write (lit "[" ++ section_name ++ lit "]" ++ [NL]) ;;
  for_each section_items
    (fun kv =>
       let '(key, value) := kv in
       let value := delimiter ++ replace_newline value in
       fp_write (key ++ value ++ [NL])) ;;
  fp_write [NL].

(** [RawConfigParser.write], on the file object [fp] *)
Definition write (p : ConfigParser) (space_around_delimiters : bool)
  : M str unit :=
  let d := if space_around_delimiters
           then lit " " ++ [EQUALS] ++ lit " " else [EQUALS] in
  match _defaults p with
  | [] => ret tt
  | _ :: _ => _write_section DEFAULTSECT (_defaults p) d
  end ;;
  for_each (_sections p) (fun sec => _write_section (fst sec) (snd sec) d).

(** ** configparser: reading *)

(** [str.isspace] of one character, which is also the class [\s] of
    [re] on [str] patterns. *)
Definition isspace (c : char) : bool :=
  ((9 <=? c) && (c <=? 13) || (28 <=? c) && (c <=? 32)
   || (c =? 133) || (c =? 160) || (c =? 5760)
   || (8192 <=? c) && (c <=? 8202)
   || (c =? 8232) || (c =? 8233) || (c =? 8239) || (c =? 8287)
   || (c =? 12288))%N.

Fixpoint lstrip (s : str) : str :=
  match s with
  | [] => []
  | c :: rest => if isspace c then lstrip rest else s
  end.

Fixpoint rstrip (s : str) : str :=
  match s with
  | [] => []
  | c :: rest =>
      match rstrip rest with
      | [] => if isspace c then [] else [c]
      | r => c :: r
      end
  end.

Definition strip (s : str) : str := rstrip (lstrip s).

(** Text mode with [newline=None]: on reading, "\r\n" and "\r" become
    "\n". *)
Fixpoint universal_newlines (text : str) : str :=
  match text with
  | [] => []
  | c :: rest =>
      if N.eqb c CR then
        NL :: match rest with
              | c' :: rest' =>
                  if N.eqb c' NL then universal_newlines rest'
                  else universal_newlines rest
              | [] => []
              end
      else c :: universal_newlines rest
  end.

(** [for line in fp]: the lines of a text, each with its "\n". *)
Fixpoint readlines (text : str) : list str :=
  match text with
  | [] => []
  | c :: rest =>
      if N.eqb c NL then [c] :: readlines rest
      else match readlines rest with
           | [] => [[c]]
           | l :: ls => (c :: l) :: ls
           end
  end.

(** ['\n'.join(val)] *)
Fixpoint join_lines (val : list str) : str :=
  match val with
  | [] => []
  | [l] => l
  | l :: ls => l ++ NL :: join_lines ls
  end.

(** [comment_prefixes=('#', ';')]: does the stripped line start with
    one of them? *)
Definition is_comment (stripped : str) : bool :=
  match stripped with
  | c :: _ => N.eqb c HASH || N.eqb c SEMI
  | [] => false
  end.

(** [NONSPACECRE.search(line).start()] *)
Fixpoint first_nonspace (line : str) : option nat :=
  match line with
  | [] => None
  | c :: rest =>
      if isspace c then option_map S (first_nonspace rest) else Some O
  end.

(** [s[:s.rindex(c)]], when [c] occurs in [s]. *)
Fixpoint before_last (c : char) (s : str) : option str :=
  match s with
  | [] => None
  | x :: rest =>
      match before_last c rest with
      | Some p => Some (x :: p)
      | None => if N.eqb x c then Some [] else None
      end
  end.

(** The characters [.] runs over: up to the first "\n". *)
Fixpoint dot_run (s : str) : str :=
  match s with
  | [] => []
  | c :: rest => if N.eqb c NL then [] else c :: dot_run rest
  end.

(** [SECTCRE.match(value).group('header')] for [\[(?P<header>.+)\]]:
    the greedy [.+] runs to the last "]" of the line. *)
Definition sectcre_match (value : str) : option str :=
  match value with
  | c :: rest =>
      if N.eqb c LBRACKET then
        match before_last RBRACKET (dot_run rest) with
        | Some (h :: header) => Some (h :: header)
        | _ => None
        end
      else None
  | [] => None
  end.

Definition is_delimiter (c : char) : bool := N.eqb c EQUALS || N.eqb c COLON.

(** The text before the first delimiter and the text after it. *)
Fixpoint split_delimiter (s : str) : option (str * str) :=
  match s with
  | [] => None
  | c :: rest =>
      if is_delimiter c then Some ([], rest)
      else match split_delimiter rest with
           | Some (a, b) => Some (c :: a, b)
           | None => None
           end
  end.

(** [self._optcre.match(value).group('option', 'value')] for the
    pattern [_OPT_TMPL] with the delimiters [=|:], on one line (a
    [value] without newline, as the lines of a file are once stripped):
    the lazy option group stops where only white space separates it from
    the first delimiter, and the white space after the delimiter is
    eaten before the value group, which runs to the end of the line. *)
Definition optcre_match (value : str) : option (str * str) :=
  match split_delimiter value with
  | Some (a, b) => Some (rstrip a, lstrip b)
  | None => None
  end.

(** What [cursect] refers to: [self._defaults] or the dictionary of a
    section of [self._sections]. *)
Inductive cursor : Type :=
| InDefaults
| InSection (name : str).

(** The members of the set [elements_added]. *)
Inductive element : Type :=
| ESect (sectname : str)
| EOpt (sectname : option str) (optname : str).

Definition element_eqb (a b : element) : bool :=
  match a, b with
  | ESect s, ESect s' => str_eqb s s'
  | EOpt (Some s) o, EOpt (Some s') o' => str_eqb s s' && str_eqb o o'
  | EOpt None o, EOpt None o' => str_eqb o o'
  | _, _ => false
  end.

(** The local variables of [_read], with the two dictionaries of the
    parser, whose values are lists of lines until they are joined. *)
Record read_state : Type := mkRead {
  rs_sections : dict (dict (list str));
  rs_defaults : dict (list str);
  elements_added : list element;
  cursect : option cursor;
  sectname : option str;
  optname : option str;
  indent_level : nat;
  e : bool
}.

Definition read_start : read_state :=
  mkRead [] [] [] None None None 0 false.

(** The dictionary [cursect] refers to. *)
Definition cursect_items (st : read_state) (cur : cursor)
  : option (dict (list str)) :=
  match cur with
  | InDefaults => Some (rs_defaults st)
  | InSection name => dict_get name (rs_sections st)
  end.

Definition set_cursect_items (st : read_state) (cur : cursor)
    (items : dict (list str)) : read_state :=
  match cur with
  | InDefaults =>
      mkRead (rs_sections st) items (elements_added st) (cursect st)
             (sectname st) (optname st) (indent_level st) (e st)
  | InSection name =>
      mkRead (dict_set name items (rs_sections st)) (rs_defaults st)
             (elements_added st) (cursect st) (sectname st) (optname st)
             (indent_level st) (e st)
  end.

(** [cursect[optname].append(value)] *)
Definition append_value (st : read_state) (cur : cursor) (name value : str)
  : outcome read_state :=
  match cursect_items st cur with
  | Some items =>
      match dict_get name items with
      | Some lines =>
          Return (set_cursect_items st cur
                    (dict_set name (lines ++ [value]) items))
      | None => Raise KeyError
      end
  | None => Raise KeyError
  end.

(** A truthy [optname]: neither [None] nor the empty string. *)
Definition truthy (o : option str) : option str :=
  match o with
  | Some (c :: s) => Some (c :: s)
  | _ => None
  end.

(** The section-header branch of the loop of [_read]. *)
Definition read_header (st : read_state) (cur_indent_level : nat)
    (name : str) : outcome read_state :=
  if dict_mem name (rs_sections st) then
    if existsb (element_eqb (ESect name)) (elements_added st)
    then Raise DuplicateSectionError
    else Return (mkRead (rs_sections st) (rs_defaults st)
                        (ESect name :: elements_added st)
                        (Some (InSection name)) (Some name) None
                        cur_indent_level (e st))
  else if str_eqb name DEFAULTSECT then
    Return (mkRead (rs_sections st) (rs_defaults st) (elements_added st)
                   (Some InDefaults) (Some name) None
                   cur_indent_level (e st))
  else
    Return (mkRead (dict_set name [] (rs_sections st)) (rs_defaults st)
                   (ESect name :: elements_added st)
                   (Some (InSection name)) (Some name) None
                   cur_indent_level (e st)).

(** The option branch of the loop of [_read], [cursect] being [cur]. *)
Definition read_option (st : read_state) (cur_indent_level : nat)
    (cur : cursor) (value : str) : outcome read_state :=
  match optcre_match value with
  | Some (name, optval) =>
      let e' := match name with [] => true | _ :: _ => e st end in
      let name := optionxform (rstrip name) in
      if existsb (element_eqb (EOpt (sectname st) name)) (elements_added st)
      then Raise DuplicateOptionError
      else
        match cursect_items st cur with
        | Some items =>
            let st' := set_cursect_items st cur
                         (dict_set name [strip optval] items) in
            Return (mkRead (rs_sections st') (rs_defaults st')
                           (EOpt (sectname st) name :: elements_added st)
                           (cursect st) (sectname st) (Some name)
                           cur_indent_level e')
        | None => Raise KeyError
        end
  | None =>
      Return (mkRead (rs_sections st) (rs_defaults st) (elements_added st)
                     (cursect st) (sectname st) (optname st)
                     cur_indent_level true)
  end.

(** One turn of the loop of [_read], with the parser's settings:
    no inline comment prefixes, [strict], [empty_lines_in_values], no
    valueless options. *)
Definition read_line (st : read_state) (line : str) : outcome read_state :=
  let comment_start := is_comment (strip line) in
  let value := strip (if comment_start then [] else line) in
  match value with
  | [] =>
      match comment_start, cursect st, truthy (optname st) with
      | false, Some cur, Some name => append_value st cur name []
      | _, _, _ => Return st
      end
  | _ :: _ =>
      let cur_indent_level :=
        match first_nonspace line with Some i => i | None => O end in
      let fresh :=
        match sectcre_match value with
        | Some name => read_header st cur_indent_level name
        | None =>
            match cursect st with
            | None => Raise MissingSectionHeaderError
            | Some cur => read_option st cur_indent_level cur value
            end
        end in
      match cursect st, truthy (optname st) with
      | Some cur, Some name =>
          if Nat.ltb (indent_level st) cur_indent_level
          then append_value st cur name value
          else fresh
      | _, _ => fresh
      end
  end.

Fixpoint read_lines (st : read_state) (lines : list str)
  : outcome read_state :=
  match lines with
  | [] => Return st
  | line :: rest =>
      match read_line st line with
      | Return st' => read_lines st' rest
      | Raise ex => Raise ex
      end
  end.

(** [_join_multiline_values] for one dictionary; [before_read] returns
    the value as it is. *)
Definition join_values (options : dict (list str)) : dict str :=
  map (fun kv => (fst kv, rstrip (join_lines (snd kv)))) options.

(** [RawConfigParser._read] on a parser just created. *)
Definition _read (fp : list str) : outcome ConfigParser :=
  match read_lines read_start fp with
  | Raise ex => Raise ex
  | Return st =>
      let p := mkParser
                 (map (fun sec => (fst sec, join_values (snd sec)))
                      (rs_sections st))
                 (join_values (rs_defaults st)) in
      if e st then Raise ParsingError else Return p
  end.

(** The path [self.file] as the file system has it: the text of the
    file there, as text mode decodes it, or [None] when no file there
    can be opened for reading; and whether the path can be opened for
    writing (the file, or its directory when there is no file, allows
    it). *)
Record file_content : Type := mkFile {
  content : option str;
  writable : bool
}.

(** [RawConfigParser.read] of one file name, given what reading the file
    finds: a file that cannot be opened is skipped. *)
Definition read (file : option str) : outcome ConfigParser :=
  match file with
  | None => Return new_parser
  | Some text => _read (readlines (universal_newlines text))
  end.

(** ** [str(port)]: the decimal representation of an [int] *)

Fixpoint uint_digits (d : Decimal.uint) : str :=
  match d with
  | Decimal.Nil => []
  | Decimal.D0 d' => 48%N :: uint_digits d'
  | Decimal.D1 d' => 49%N :: uint_digits d'
  | Decimal.D2 d' => 50%N :: uint_digits d'
  | Decimal.D3 d' => 51%N :: uint_digits d'
  | Decimal.D4 d' => 52%N :: uint_digits d'
  | Decimal.D5 d' => 53%N :: uint_digits d'
  | Decimal.D6 d' => 54%N :: uint_digits d'
  | Decimal.D7 d' => 55%N :: uint_digits d'
  | Decimal.D8 d' => 56%N :: uint_digits d'
  | Decimal.D9 d' => 57%N :: uint_digits d'
  end.

(** The decimal digits of an integer, and its sign. *)
Definition int_digits (z : Z) : str :=
  match Z.to_int z with
  | Decimal.Pos d | Decimal.Neg d => uint_digits d
  end.

Definition int_sign (z : Z) : str :=
  match Z.to_int z with
  | Decimal.Pos _ => []
  | Decimal.Neg _ => [45%N]
  end.

(** [sys.get_int_max_str_digits()], as the interpreter starts. *)
Definition int_max_str_digits : nat := 4300.

(** [str(z)]: ValueError when [z] has more digits than the limit of the
    interpreter. *)
Definition str_of_int (z : Z) : outcome str :=
  if Nat.ltb int_max_str_digits (List.length (int_digits z))
  then Raise ValueError
  else Return (int_sign z ++ int_digits z).

(** ** The class [QBittorrentConfig] *)

Record QBittorrentConfig : Type := mkConfig {
  file : file_content;    (* the file at the path [self.file] *)
  config : ConfigParser   (* [self.config] *)
}.

(** A method of [self.config] run on the object. *)
Definition on_config {A} (m : M ConfigParser A) : M QBittorrentConfig A :=
  fun self =>
    let (r, p) := m (config self) in (r, mkConfig (file self) p).

Definition __init__ (file : file_content) : outcome QBittorrentConfig :=
  match read (content file) with
  | Return p => Return (mkConfig file p)
  | Raise ex => Raise ex
  end.

Definition set (section option value : str) : M QBittorrentConfig unit :=
  present <- on_config (has_section section) ;;
  (if negb present then on_config (add_section section) else ret tt) ;;
  on_config (parser_set section option value).

Definition setup : M QBittorrentConfig unit :=
  set (lit "LegalNotice") (lit "Accepted") (lit "true") ;;
  set (lit "Meta") (lit "MigrationVersion") (lit "3") ;;
  set (lit "Preferences") (lit "WebUI\Address") (lit "*") ;;
  set (lit "BitTorrent") (lit "Session\AddExtensionToIncompleteFiles")
      (lit "true") ;;
  set (lit "BitTorrent") (lit "Session\DefaultSavePath") (lit "/srv").

(** [self.file.open("w+")]: OSError when the path cannot be opened for
    writing; otherwise the file is truncated and the writer starts from
    the empty text. (A file once open takes what is written: a device
    that fails later, a full disk, is not in the model.) *)
Definition open_w_plus (path : file_content) : outcome str :=
  if writable path then Return [] else Raise OSError.

(** [with self.file.open("w+") as fp: self.config.write(fp, ...)]: the
    file is closed when the block is left, by an exception too, and what
    was written by then is the file. *)
Definition save : M QBittorrentConfig unit :=
  fun self =>
    match open_w_plus (file self) with
    | Raise ex => (Raise ex, self)
    | Return fp =>
        let (r, fp) := write (config self) false fp in
        (r, mkConfig (mkFile (Some fp) true) (config self))
    end.

Definition set_web_port (port : Z) (save_ : bool) : M QBittorrentConfig unit :=
  fun self =>
    match str_of_int port with
    | Raise ex => (Raise ex, self)
    | Return value =>
        (set (lit "Preferences") (lit "WebUI\Port") value ;;
         if save_ then save else ret tt) self
    end.

Definition set_web_username (username : str) (save_ : bool)
  : M QBittorrentConfig unit :=
  set (lit "Preferences") (lit "WebUI\Username") username ;;
  if save_ then save else ret tt.

Definition set_bittorrent_interface (interface : str) (save_ : bool)
  : M QBittorrentConfig unit :=
  set (lit "BitTorrent") (lit "Session\Interface") interface ;;
  set (lit "BitTorrent") (lit "Session\InterfaceName") interface ;;
  if save_ then save else ret tt.

(** ** Bytes, UTF-8 and Base64 *)

(** [bytes.decode()] of ASCII bytes, which is all it is applied to. *)
Definition decode (b : bytes) : str := map Byte.to_N b.

Definition b64_table : bytes :=
  list_byte_of_string
    "ABCDEFGHIJKLMNOPQRSTUVWXYZabcdefghijklmnopqrstuvwxyz0123456789+/".

Definition b64_pad : byte := "="%byte.

Definition b64_digit (i : N) : byte := nth (N.to_nat i) b64_table x00.

(** [base64.b64encode]: standard alphabet, padded. *)
Fixpoint b64encode (s : bytes) : bytes :=
  match s with
  | [] => []
  | [a] =>
      let n := (Byte.to_N a * 65536)%N in
      [b64_digit (n / 262144); b64_digit ((n / 4096) mod 64);
       b64_pad; b64_pad]
  | [a; b] =>
      let n := (Byte.to_N a * 65536 + Byte.to_N b * 256)%N in
      [b64_digit (n / 262144); b64_digit ((n / 4096) mod 64);
       b64_digit ((n / 64) mod 64); b64_pad]
  | a :: b :: c :: rest =>
      let n := (Byte.to_N a * 65536 + Byte.to_N b * 256 + Byte.to_N c)%N in
      b64_digit (n / 262144) :: b64_digit ((n / 4096) mod 64)
      :: b64_digit ((n / 64) mod 64) :: b64_digit (n mod 64)
      :: b64encode rest
  end.

Fixpoint index_of (b : byte) (l : bytes) (i : N) : option N :=
  match l with
  | [] => None
  | x :: l' => if Byte.eqb b x then Some i else index_of b l' (i + 1)%N
  end.

Definition b64_value (b : byte) : option N := index_of b b64_table 0%N.

(** The decoder the digest field is read with: groups of four digits of
    the standard alphabet, the last one padded with "=". *)
Fixpoint b64decode (s : bytes) : option bytes :=
  match s with
  | [] => Some []
  | c1 :: c2 :: c3 :: c4 :: rest =>
      match b64_value c1, b64_value c2 with
      | Some i1, Some i2 =>
          let b1 := byte_of_N (i1 * 4 + i2 / 16) in
          if Byte.eqb c3 b64_pad then
            match Byte.eqb c4 b64_pad, rest with
            | true, [] => Some [b1]
            | _, _ => None
            end
          else
            match b64_value c3 with
            | Some i3 =>
                let b2 := byte_of_N ((i2 mod 16) * 16 + i3 / 4) in
                if Byte.eqb c4 b64_pad then
                  match rest with
                  | [] => Some [b1; b2]
                  | _ :: _ => None
                  end
                else
                  match b64_value c4, b64decode rest with
                  | Some i4, Some r =>
                      Some (b1 :: b2 :: byte_of_N ((i3 mod 4) * 64 + i4) :: r)
                  | _, _ => None
                  end
            | None => None
            end
      | _, _ => None
      end
  | _ => None
  end.

(** ** SHA-512, HMAC and PBKDF2 ([hashlib.pbkdf2_hmac("sha512", ...)]) *)

Module SHA512.

Local Open Scope N_scope.

Definition mask64 : N := 0xffffffffffffffff.
Definition add64 (x y : N) : N := N.land (x + y) mask64.
Definition rotr (n x : N) : N :=
  N.lor (N.shiftr x n) (N.land (N.shiftl x (64 - n)) mask64).
Definition shr (n x : N) : N := N.shiftr x n.
Definition Ch (x y z : N) : N :=
  N.lxor (N.land x y) (N.land (N.lxor x mask64) z).
Definition Maj (x y z : N) : N :=
  N.lxor (N.lxor (N.land x y) (N.land x z)) (N.land y z).
Definition Sigma0 (x : N) : N :=
  N.lxor (N.lxor (rotr 28 x) (rotr 34 x)) (rotr 39 x).
Definition Sigma1 (x : N) : N :=
  N.lxor (N.lxor (rotr 14 x) (rotr 18 x)) (rotr 41 x).
Definition sigma0 (x : N) : N :=
  N.lxor (N.lxor (rotr 1 x) (rotr 8 x)) (shr 7 x).
Definition sigma1 (x : N) : N :=
  N.lxor (N.lxor (rotr 19 x) (rotr 61 x)) (shr 6 x).

Definition K : list N :=
  [
     0x428a2f98d728ae22; 0x7137449123ef65cd; 0xb5c0fbcfec4d3b2f;
     0xe9b5dba58189dbbc; 0x3956c25bf348b538; 0x59f111f1b605d019;
     0x923f82a4af194f9b; 0xab1c5ed5da6d8118; 0xd807aa98a3030242;
     0x12835b0145706fbe; 0x243185be4ee4b28c; 0x550c7dc3d5ffb4e2;
     0x72be5d74f27b896f; 0x80deb1fe3b1696b1; 0x9bdc06a725c71235;
     0xc19bf174cf692694; 0xe49b69c19ef14ad2; 0xefbe4786384f25e3;
     0x0fc19dc68b8cd5b5; 0x240ca1cc77ac9c65; 0x2de92c6f592b0275;
     0x4a7484aa6ea6e483; 0x5cb0a9dcbd41fbd4; 0x76f988da831153b5;
     0x983e5152ee66dfab; 0xa831c66d2db43210; 0xb00327c898fb213f;
     0xbf597fc7beef0ee4; 0xc6e00bf33da88fc2; 0xd5a79147930aa725;
     0x06ca6351e003826f; 0x142929670a0e6e70; 0x27b70a8546d22ffc;
     0x2e1b21385c26c926; 0x4d2c6dfc5ac42aed; 0x53380d139d95b3df;
     0x650a73548baf63de; 0x766a0abb3c77b2a8; 0x81c2c92e47edaee6;
     0x92722c851482353b; 0xa2bfe8a14cf10364; 0xa81a664bbc423001;
     0xc24b8b70d0f89791; 0xc76c51a30654be30; 0xd192e819d6ef5218;
     0xd69906245565a910; 0xf40e35855771202a; 0x106aa07032bbd1b8;
     0x19a4c116b8d2d0c8; 0x1e376c085141ab53; 0x2748774cdf8eeb99;
     0x34b0bcb5e19b48a8; 0x391c0cb3c5c95a63; 0x4ed8aa4ae3418acb;
     0x5b9cca4f7763e373; 0x682e6ff3d6b2b8a3; 0x748f82ee5defb2fc;
     0x78a5636f43172f60; 0x84c87814a1f0ab72; 0x8cc702081a6439ec;
     0x90befffa23631e28; 0xa4506cebde82bde9; 0xbef9a3f7b2c67915;
     0xc67178f2e372532b; 0xca273eceea26619c; 0xd186b8c721c0c207;
     0xeada7dd6cde0eb1e; 0xf57d4f7fee6ed178; 0x06f067aa72176fba;
     0x0a637dc5a2c898a6; 0x113f9804bef90dae; 0x1b710b35131c471b;
     0x28db77f523047d84; 0x32caab7b40c72493; 0x3c9ebe0a15c9bebc;
     0x431d67c49c100d4c; 0x4cc5d4becb3e42b6; 0x597f299cfc657e2a;
     0x5fcb6fab3ad6faec; 0x6c44198c4a475817
  ].

(** The eight working words. *)
Definition words8 : Type := (N * N * N * N * N * N * N * N)%type.

Definition H0 : words8 :=
  (0x6a09e667f3bcc908, 0xbb67ae8584caa73b,
   0x3c6ef372fe94f82b, 0xa54ff53a5f1d36f1,
   0x510e527fade682d1, 0x9b05688c2b3e6c1f,
   0x1f83d9abfb41bd6b, 0x5be0cd19137e2179).

(** The [k] low bytes of [x], the most significant first. *)
Definition be_bytes (k : nat) (x : N) : bytes :=
  map (fun i => byte_of_N (N.shiftr x (8 * N.of_nat i))) (rev (seq 0 k)).

Fixpoint be_words (block : bytes) : list N :=
  match block with
  | b0 :: b1 :: b2 :: b3 :: b4 :: b5 :: b6 :: b7 :: rest =>
      fold_left (fun acc b => acc * 256 + Byte.to_N b)
                [b0; b1; b2; b3; b4; b5; b6; b7] 0
      :: be_words rest
  | _ => []
  end.

(** The message schedule: [n] more words after those of [w]. *)
Fixpoint schedule (n : nat) (w : list N) : list N :=
  match n with
  | O => w
  | S n' =>
      let t := List.length w in
      let at_ i := nth (t - i) w 0 in
      schedule n'
        (w ++ [add64 (add64 (sigma1 (at_ 2%nat)) (at_ 7%nat))
                     (add64 (sigma0 (at_ 15%nat)) (at_ 16%nat))])
  end.

Definition round (v : words8) (kw : N * N) : words8 :=
  let '(a, b, c, d, e, f, g, h) := v in
  let t1 := add64 (add64 (add64 h (Sigma1 e)) (Ch e f g))
                  (add64 (fst kw) (snd kw)) in
  let t2 := add64 (Sigma0 a) (Maj a b c) in
  (add64 t1 t2, a, b, c, add64 d t1, e, f, g).

Definition compress (v : words8) (block : bytes) : words8 :=
  let w := schedule 64 (be_words block) in
  let '(a, b, c, d, e, f, g, h) := fold_left round (combine K w) v in
  let '(a0, b0, c0, d0, e0, f0, g0, h0) := v in
  (add64 a0 a, add64 b0 b, add64 c0 c, add64 d0 d,
   add64 e0 e, add64 f0 f, add64 g0 g, add64 h0 h).

(** The padded message is taken in byte by byte; each full block of 128
    bytes is compressed into the state. *)
Definition absorb_byte (st : words8 * bytes) (b : byte) : words8 * bytes :=
  let buf' := snd st ++ [b] in
  if Nat.eqb (List.length buf') 128
  then (compress (fst st) buf', [])
  else (fst st, buf').

Definition absorb (v : words8) (msg : bytes) : words8 :=
  fst (fold_left absorb_byte msg (v, [])).

Definition pad (msg : bytes) : bytes :=
  let l := List.length msg in
  let zeros := ((128 - (l + 17) mod 128) mod 128)%nat in
  msg ++ [x80] ++ repeat x00 zeros ++ be_bytes 16 (8 * N.of_nat l).

Definition digest_of (v : words8) : bytes :=
  let '(a, b, c, d, e, f, g, h) := v in
  be_bytes 8 a ++ be_bytes 8 b ++ be_bytes 8 c ++ be_bytes 8 d ++
  be_bytes 8 e ++ be_bytes 8 f ++ be_bytes 8 g ++ be_bytes 8 h.

Definition sha512 (msg : bytes) : bytes :=
  digest_of (absorb H0 (pad msg)).

Definition block_size : nat := 128.
Definition digest_size : nat := 64.

End SHA512.

Definition xor_byte (a b : byte) : byte :=
  byte_of_N (N.lxor (Byte.to_N a) (Byte.to_N b)).

Fixpoint xor_bytes (a b : bytes) : bytes :=
  match a, b with
  | x :: a', y :: b' => xor_byte x y :: xor_bytes a' b'
  | _, _ => []
  end.

(** HMAC over SHA-512 (RFC 2104). *)
Definition hmac_sha512 (key msg : bytes) : bytes :=
  let key := if Nat.ltb SHA512.block_size (List.length key)
             then SHA512.sha512 key else key in
  let key := key ++ repeat x00 (SHA512.block_size - List.length key) in
  let ipad := map (xor_byte x36) key in
  let opad := map (xor_byte x5c) key in
  SHA512.sha512 (opad ++ SHA512.sha512 (ipad ++ msg)).

(** One block of PBKDF2 (RFC 8018, 5.2): the exclusive or of the
    [iterations] first values of the chain started at
    [salt || INT (i)]. *)
Definition pbkdf2_block (password salt : bytes) (iterations : positive)
    (i : N) : bytes :=
  let u1 := hmac_sha512 password (salt ++ SHA512.be_bytes 4 i) in
  snd (N.iter (Pos.pred_N iterations)
              (fun ut => let u := hmac_sha512 password (fst ut) in
                         (u, xor_bytes (snd ut) u))
              (u1, u1)).

(** [hashlib.pbkdf2_hmac("sha512", password, salt, iterations)]: without
    [dklen], the key has the size of the digest. *)
Definition pbkdf2_hmac_sha512 (password salt : bytes)
    (iterations : positive) : bytes :=
  let dklen := SHA512.digest_size in
  let blocks := ((dklen + SHA512.digest_size - 1) / SHA512.digest_size)%nat in
  firstn dklen
    (flat_map (fun i => pbkdf2_block password salt iterations (N.of_nat i))
              (seq 1 blocks)).

(** [secrets.token_bytes(nbytes)]: the next [nbytes] bytes of the
    system's entropy source. *)
Definition token_bytes (nbytes : nat) (entropy : nat -> byte) : bytes :=
  map entropy (seq 0 nbytes).

Definition set_web_password (password : str) (save_ : bool)
    (entropy : nat -> byte) : M QBittorrentConfig unit :=
  let salt_length := 16%nat in
  let iterations := 100000%positive in
  let salt := token_bytes salt_length entropy in
  fun self =>
    match encode password with
    | Raise ex => (Raise ex, self)
    | Return pw =>
        let hash := pbkdf2_hmac_sha512 pw salt iterations in
        (set (lit "Preferences") (lit "WebUI\Password_PBKDF2")
             (lit "@ByteArray(" ++ decode (b64encode salt) ++ lit ":"
              ++ decode (b64encode hash) ++ lit ")") ;;
         if save_ then save else ret tt) self
    end.

(** ** What the properties are stated with *)

(** PBKDF2 in the words of RFC 8018, 5.2, with HMAC-SHA-512 as the
    pseudorandom function: U_1 = PRF (P, S || INT (i)) and
    U_j = PRF (P, U_{j-1}); [pbkdf2_U P S i j] is U_{j+1}. *)
Fixpoint pbkdf2_U (P S : bytes) (i : N) (j : nat) : bytes :=
  match j with
  | O => hmac_sha512 P (S ++ SHA512.be_bytes 4 i)
  | Datatypes.S j' => hmac_sha512 P (pbkdf2_U P S i j')
  end.

(** F (P, S, c, i) = U_1 xor U_2 xor ... xor U_c *)
Definition pbkdf2_F (P S : bytes) (c : positive) (i : N) : bytes :=
  fold_left xor_bytes (map (pbkdf2_U P S i) (seq 1 (Pos.to_nat c - 1)))
    (pbkdf2_U P S i 0).

(** DK = T_1 || T_2 || ... || T_l <0..dkLen-1>, with T_i = F (P, S, c, i)
    and l = ceil (dkLen / hLen), hLen being 64. *)
Definition PBKDF2 (P S : bytes) (c : positive) (dkLen : nat) : bytes :=
  firstn dkLen
    (flat_map (fun i => pbkdf2_F P S c (N.of_nat i))
       (seq 1 ((dkLen + 63) / 64))).

(** Bytes in hexadecimal, as test vectors are printed. *)
Definition hex_digit (a : Ascii.ascii) : N :=
  let n := Ascii.N_of_ascii a in
  (if n <? 58 then n - 48 else n - 87)%N.

Fixpoint hex (s : string) : bytes :=
  match s with
  | String a (String b rest) =>
      byte_of_N (16 * hex_digit a + hex_digit b) :: hex rest
  | _ => []
  end.

(** Known answers of the functions the digest is made of: SHA-512 on
    the messages of FIPS 180-4's examples (one block, two blocks) and on
    the empty message; HMAC-SHA-512 on the test cases 1, 2 and 6 of
    RFC 4231 (the last with a key longer than a block); PBKDF2 with one,
    two and three iterations, as [hashlib.pbkdf2_hmac] gives them;
    UTF-8 on code points of one to four bytes; Base64 on the examples
    of RFC 4648, 10. *)
Definition digest_test_vectors : Prop :=
  SHA512.sha512 (list_byte_of_string "abc")
  = hex "ddaf35a193617abacc417349ae20413112e6fa4e89a97ea20a9eeee64b55d39a2192992a274fc1a836ba3c23a3feebbd454d4423643ce80e2a9ac94fa54ca49f"
  /\ SHA512.sha512 []
     = hex "cf83e1357eefb8bdf1542850d66d8007d620e4050b5715dc83f4a921d36ce9ce47d0d13c5d85f2b0ff8318d2877eec2f63b931bd47417a81a538327af927da3e"
  /\ SHA512.sha512
       (list_byte_of_string
          "abcdefghbcdefghicdefghijdefghijkefghijklfghijklmghijklmnhijklmnoijklmnopjklmnopqklmnopqrlmnopqrsmnopqrstnopqrstu")
     = hex "8e959b75dae313da8cf4f72814fc143f8f7779c6eb9f7fa17299aeadb6889018501d289e4900f7e4331b99dec4b5433ac7d329eeb6dd26545e96e55b874be909"
  /\ hmac_sha512 (repeat x0b 20) (list_byte_of_string "Hi There")
     = hex "87aa7cdea5ef619d4ff0b4241a1d6cb02379f4e2ce4ec2787ad0b30545e17cdedaa833b7d6b8a702038b274eaea3f4e4be9d914eeb61f1702e696c203a126854"
  /\ hmac_sha512 (list_byte_of_string "Jefe")
       (list_byte_of_string "what do ya want for nothing?")
     = hex "164b7a7bfcf819e2e395fbe73b56e0a387bd64222e831fd610270cd7ea2505549758bf75c05a994a6d034f65f8f0e6fdcaeab1a34d4a6b4b636e070a38bce737"
  /\ hmac_sha512 (repeat xaa 131)
       (list_byte_of_string
          "Test Using Larger Than Block-Size Key - Hash Key First")
     = hex "80b24263c7c1a3ebb71493c1dd7be8b49b46d1f41b4aeec1121b013783f8f3526b56d037e05f2598bd0fd2215d6a1e5295e64f73f63f0aec8b915a985d786598"
  /\ pbkdf2_hmac_sha512 (list_byte_of_string "password")
       (list_byte_of_string "salt") 1
     = hex "867f70cf1ade02cff3752599a3a53dc4af34c7a669815ae5d513554e1c8cf252c02d470a285a0501bad999bfe943c08f050235d7d68b1da55e63f73b60a57fce"
  /\ pbkdf2_hmac_sha512 (list_byte_of_string "password")
       (list_byte_of_string "salt") 2
     = hex "e1d9c16aa681708a45f5c7c4e215ceb66e011a2e9f0040713f18aefdb866d53cf76cab2868a39b9f7840edce4fef5a82be67335c77a6068e04112754f27ccf4e"
  /\ pbkdf2_hmac_sha512 (list_byte_of_string "password")
       (list_byte_of_string "salt") 3
     = hex "b6b07cb2cebf4ad84468391a543824fccffe0e0769dbe6bddf10a65673c4b648e612d44918f9ce9a19a1294cf5140628084ba994c3b21a4ef4741220b811c633"
  /\ encode [97; 233; 8364; 128512]%N = Return (hex "61c3a9e282acf09f9880")
  /\ b64encode (list_byte_of_string "f") = list_byte_of_string "Zg=="
  /\ b64encode (list_byte_of_string "fo") = list_byte_of_string "Zm8="
  /\ b64encode (list_byte_of_string "foobar") = list_byte_of_string "Zm9vYmFy"
  /\ b64encode (hex "fbffbe") = list_byte_of_string "+/++".

(** A call that returns normally. *)
Definition succeeds {S A} (m : M S A) (s : S) : Prop :=
  exists a s', m s = (Return a, s').

(** The values [ConfigParser.set] accepts: the empty string, which
    [RawConfigParser.set] does not hand to [before_set], and the values
    [before_set] returns. *)
Definition accepts_value (value : str) : bool :=
  match value with
  | [] => true
  | _ :: _ => match before_set value with
              | Return _ => true
              | Raise _ => false
              end
  end.

(** [self.config._sections[section][option]], when both are there. *)
Definition lookup (self : QBittorrentConfig) (section option : str)
  : Datatypes.option str :=
  match dict_get section (_sections (config self)) with
  | Some items => dict_get option items
  | None => None
  end.

(** What the generic setter is said to do to the sections: overwrite
    where the pair stands, append a new key to its section, append a
    new section with the key to the document. *)
Definition set_effect (self : QBittorrentConfig) (section option value : str)
  : Prop :=
  exists self',
    set section option value self = (Return tt, self') /\
    (forall pre items post,
        _sections (config self) = pre ++ (section, items) :: post ->
        ~ In section (dict_keys pre) ->
        (forall i1 old i2,
            items = i1 ++ (option, old) :: i2 ->
            ~ In option (dict_keys i1) ->
            _sections (config self')
            = pre ++ (section, i1 ++ (option, value) :: i2) :: post) /\
        (~ In option (dict_keys items) ->
         _sections (config self')
         = pre ++ (section, items ++ [(option, value)]) :: post)) /\
    (~ In section (dict_keys (_sections (config self))) ->
     _sections (config self')
     = _sections (config self) ++ [(section, [(option, value)])]).

(** The text of one entry and of one section in a saved file. *)
Definition entry_text (kv : str * str) : str :=
  fst kv ++ [EQUALS] ++ replace_newline (snd kv) ++ [NL].

Definition section_text (name : str) (items : dict str) : str :=
  [LBRACKET] ++ name ++ [RBRACKET; NL]
  ++ concat (map entry_text items) ++ [NL].

Definition document_text (p : ConfigParser) : str :=
  match _defaults p with
  | [] => []
  | _ :: _ => section_text DEFAULTSECT (_defaults p)
  end
  ++ concat (map (fun sec => section_text (fst sec) (snd sec)) (_sections p)).

(** The strings [write] hands to [fp.write] one after the other: for a
    section its header, its entries, and a newline. *)
Definition section_writes (name : str) (items : dict str) : list str :=
  ([LBRACKET] ++ name ++ [RBRACKET; NL]) :: map entry_text items ++ [[NL]].

Definition document_writes (p : ConfigParser) : list str :=
  match _defaults p with
  | [] => []
  | _ :: _ => section_writes DEFAULTSECT (_defaults p)
  end
  ++ flat_map (fun sec => section_writes (fst sec) (snd sec)) (_sections p).

(** What reaches the file of strings written one after the other: all
    of them up to the first one that UTF-8 cannot encode. *)
Fixpoint written (l : list str) : str :=
  match l with
  | [] => []
  | s :: rest => if forallb encodable s then s ++ written rest else []
  end.

(** A document whose text UTF-8 can encode: no name, key or value of it
    holds a surrogate. *)
Definition document_encodable (p : ConfigParser) : bool :=
  forallb encodable (document_text p).

(** The lines of a text, each followed by a newline. *)
Definition unlines (l : list string) : str :=
  concat (map (fun s => lit s ++ [NL]) l).

(** The integer a decimal string denotes: an optional minus sign and at
    least one digit. *)
Fixpoint digits_uint (s : str) : option Decimal.uint :=
  match s with
  | [] => Some Decimal.Nil
  | c :: rest =>
      match digits_uint rest with
      | None => None
      | Some d =>
          (if c =? 48 then Some (Decimal.D0 d)
           else if c =? 49 then Some (Decimal.D1 d)
           else if c =? 50 then Some (Decimal.D2 d)
           else if c =? 51 then Some (Decimal.D3 d)
           else if c =? 52 then Some (Decimal.D4 d)
           else if c =? 53 then Some (Decimal.D5 d)
           else if c =? 54 then Some (Decimal.D6 d)
           else if c =? 55 then Some (Decimal.D7 d)
           else if c =? 56 then Some (Decimal.D8 d)
           else if c =? 57 then Some (Decimal.D9 d)
           else None)%N
      end
  end.

Definition decimal_value (s : str) : option Z :=
  match s with
  | [] => None
  | c :: rest =>
      if N.eqb c 45 then
        match rest, digits_uint rest with
        | _ :: _, Some d => Some (Z.of_int (Decimal.Neg d))
        | _, _ => None
        end
      else
        match digits_uint s with
        | Some d => Some (Z.of_int (Decimal.Pos d))
        | None => None
        end
  end.

(** The five entries [setup] writes. *)
Definition setup_document : ConfigParser :=
  mkParser
    [(lit "LegalNotice", [(lit "Accepted", lit "true")]);
     (lit "Meta", [(lit "MigrationVersion", lit "3")]);
     (lit "Preferences", [(lit "WebUI\Address", lit "*")]);
     (lit "BitTorrent",
      [(lit "Session\AddExtensionToIncompleteFiles", lit "true");
       (lit "Session\DefaultSavePath", lit "/srv")])]
    [].

Definition setup_text : str :=
  unlines
    ["[LegalNotice]"; "Accepted=true"; "";
     "[Meta]"; "MigrationVersion=3"; "";
     "[Preferences]"; "WebUI\Address=*"; "";
     "[BitTorrent]"; "Session\AddExtensionToIncompleteFiles=true";
     "Session\DefaultSavePath=/srv"; ""]%string.

(** A character of the standard alphabet, or the padding. *)
Definition b64_char (b : byte) : Prop := In b b64_table \/ b = b64_pad.

(** ** Documents that a saved file gives back

    What [read] gives back from a file written by [write]: names of one
    line, keys that [_read] takes as keys, values whose lines are
    stripped. *)

Definition is_linebreak (c : char) : bool := N.eqb c NL || N.eqb c CR.

(** No newline and no carriage return. *)
Definition single_line (s : str) : bool :=
  forallb (fun c => negb (is_linebreak c)) s.

(** [s.strip() == s] *)
Definition stripped (s : str) : bool := str_eqb (strip s) s.

(** [s.split('\n')] *)
Fixpoint split_nl (s : str) : list str :=
  match s with
  | [] => [[]]
  | c :: rest =>
      if N.eqb c NL then [] :: split_nl rest
      else match split_nl rest with
           | l :: ls => (c :: l) :: ls
           | [] => [[c]]
           end
  end.

Definition first_line (value : str) : str := hd [] (split_nl value).

Definition line_ok (l : str) : bool := single_line l && stripped l.

(** A value [_read] can produce: stripped lines, none after the first
    starting like a comment, and no white space at the end. *)
Definition value_ok (value : str) : bool :=
  forallb line_ok (split_nl value)
  && forallb (fun l => negb (is_comment l)) (tl (split_nl value))
  && str_eqb (rstrip value) value.

(** A key [_read] can produce in front of [value]: one stripped line
    without delimiter, not starting like a comment, and such that the
    line of the entry is not taken for a section header. *)
Definition key_ok (key value : str) : bool :=
  match key with
  | [] => false
  | _ :: _ =>
      single_line key && stripped key
      && forallb (fun c => negb (is_delimiter c)) key
      && negb (is_comment key)
      && match sectcre_match (key ++ [EQUALS] ++ first_line value) with
         | None => true
         | Some _ => false
         end
  end.

Definition name_ok (name : str) : bool :=
  match name with
  | [] => false
  | _ :: _ => single_line name
  end.

Fixpoint distinct (l : list str) : bool :=
  match l with
  | [] => true
  | k :: rest => negb (existsb (str_eqb k) rest) && distinct rest
  end.

Definition items_ok (items : dict str) : bool :=
  distinct (dict_keys items)
  && forallb (fun kv => key_ok (fst kv) (snd kv) && value_ok (snd kv)) items.

Definition document_ok (p : ConfigParser) : bool :=
  distinct (dict_keys (_sections p))
  && forallb (fun sec => name_ok (fst sec)
                         && negb (str_eqb (fst sec) DEFAULTSECT)
                         && items_ok (snd sec)) (_sections p)
  && items_ok (_defaults p).

(** ** What reading a saved file is stated with *)

(** A string that starts and ends with a character that is not white
    space. *)
Definition tight (s : str) : Prop :=
  (exists c r, s = c :: r /\ isspace c = false)
  /\ (exists a d, s = a ++ [d] /\ isspace d = false).

Definition no_nl (s : str) : Prop := Forall (fun c => c <> NL) s.
Definition no_cr (s : str) : Prop := Forall (fun c => c <> CR) s.

(** The text made of the lines [ls], each followed by a newline. *)
Definition text_of_lines (ls : list str) : str :=
  concat (map (fun l => l ++ [NL]) ls).

(** The state of [_read] inside the section [cur]: [items] is what the
    section holds, with the lines of each value. *)
Definition inside (st0 : read_state) (cur : cursor)
    (items : dict (list str)) (added : list element)
    (name : option str) : read_state :=
  mkRead (rs_sections (set_cursect_items st0 cur items))
         (rs_defaults (set_cursect_items st0 cur items))
         added (Some cur) (sectname st0) name 0 false.

(** The lines of an entry in a saved file, without their newline. *)
Definition entry_lines (kv : str * str) : list str :=
  match split_nl (snd kv) with
  | l0 :: rest => (fst kv ++ [EQUALS] ++ l0) :: map (cons TAB) rest
  | [] => [fst kv ++ [EQUALS]]
  end.

(** The lines of a section in a saved file: its header, its entries
    and a blank line. *)
Definition section_lines (name : str) (items : dict str) : list str :=
  (LBRACKET :: name ++ [RBRACKET]) :: flat_map entry_lines items ++ [[]].

(** Lines as [for line in fp] gives them, each with its newline. *)
Definition with_nl (ls : list str) : list str := map (fun l => l ++ [NL]) ls.

(** The entries of a section as [_read] holds them, each value as the
    list of its lines. *)
Definition parsed (items : dict str) : dict (list str) :=
  map (fun kv => (fst kv, split_nl (snd kv))) items.

(** The same once the blank line after the section is read: it adds an
    empty line to the value of the last key. *)
Fixpoint closed (items : dict str) : dict (list str) :=
  match items with
  | [] => []
  | kv :: rest =>
      match rest with
      | [] => [(fst kv, split_nl (snd kv) ++ [[]])]
      | _ :: _ => (fst kv, split_nl (snd kv)) :: closed rest
      end
  end.

(** [elements_added] and [optname] once the entries [items] of the
    section [sectname] are read. *)
Definition added_options (sectname : option str) (items : dict str)
    (added : list element) : list element :=
  fold_left (fun a kv => EOpt sectname (fst kv) :: a) items added.

Definition last_key (items : dict str) (name : option str) : option str :=
  fold_left (fun _ kv => Some (fst kv)) items name.

(** A state between two sections of a saved file. *)
Definition ready (st : read_state) (sections : dict (dict (list str)))
    (defaults : dict (list str)) : Prop :=
  rs_sections st = sections
  /\ rs_defaults st = defaults
  /\ indent_level st = 0%nat
  /\ e st = false
  /\ forall s k, In (EOpt (Some s) k) (elements_added st) ->
                 In s (dict_keys sections) \/ s = DEFAULTSECT.

(** The lines of the sections of a saved file. *)
Definition sections_lines (sections : dict (dict str)) : list str :=
  flat_map (fun sec => section_lines (fst sec) (snd sec)) sections.

(** A section of a document that a saved file gives back. *)
Definition section_ok (sec : str * dict str) : bool :=
  name_ok (fst sec) && negb (str_eqb (fst sec) DEFAULTSECT) && items_ok (snd sec).

(** The lines of a saved file: the default section, when it holds
    something, then the sections. *)
Definition document_lines (p : ConfigParser) : list str :=
  match _defaults p with
  | [] => []
  | _ :: _ => section_lines DEFAULTSECT (_defaults p)
  end ++ sections_lines (_sections p).

(** A line as [for line in fp] gives it: no carriage return, and no
    newline but at its end. *)
Definition file_line (l : str) : Prop :=
  exists b, single_line b = true /\ (l = b \/ l = b ++ [NL]).

(** Does a line look like a section header: an opening bracket, a
    character, and a closing bracket somewhere after them? *)
Definition header_like (s : str) : bool :=
  match s with
  | c :: _ :: r => N.eqb c LBRACKET && existsb (N.eqb RBRACKET) r
  | _ => false
  end.

(** The lines of a value while the file is read: a first line, which
    the key stands in front of, and more lines. *)
Definition lines_ok (kv : str * list str) : Prop :=
  exists l0 rest,
    snd kv = l0 :: rest
    /\ key_ok (fst kv) l0 = true
    /\ Forall (fun l => line_ok l = true) (l0 :: rest)
    /\ Forall (fun l => is_comment l = false) rest.

(** Dictionaries of such values under distinct keys, sections of such
    dictionaries under distinct names. *)
Definition items_good (items : dict (list str)) : Prop :=
  NoDup (dict_keys items) /\ Forall lines_ok items.

Definition section_good (sec : str * dict (list str)) : Prop :=
  name_ok (fst sec) = true /\ fst sec <> DEFAULTSECT /\ items_good (snd sec).

Definition good (sections : dict (dict (list str)))
    (defaults : dict (list str)) : Prop :=
  NoDup (dict_keys sections) /\ Forall section_good sections
  /\ items_good defaults.

(** What the loop of [_read] keeps true as long as no line was found
    faulty. *)
Definition read_invariant (st : read_state) : Prop :=
  e st = false -> good (rs_sections st) (rs_defaults st).

(** A string without any white space. *)
Definition solid (s : str) : bool := forallb (fun c => negb (isspace c)) s.

(** The shape of the entries of a section once loaded. *)
Definition entries_well_formed (items : dict str) : Prop :=
  NoDup (dict_keys items)
  /\ forall key value,
       In (key, value) items ->
       key <> [] /\ strip key = key
       /\ (forall c, In c key -> is_delimiter c = false)
       /\ rstrip value = value.

(** The entries [setup] writes: section, key, value. *)
Definition setup_entries : list (str * str * str) :=
  [(lit "LegalNotice", lit "Accepted", lit "true");
   (lit "Meta", lit "MigrationVersion", lit "3");
   (lit "Preferences", lit "WebUI\Address", lit "*");
   (lit "BitTorrent", lit "Session\AddExtensionToIncompleteFiles", lit "true");
   (lit "BitTorrent", lit "Session\DefaultSavePath", lit "/srv")].

(** A text with the line ends of Windows: "\r\n" for every "\n". *)
Definition crlf (text : str) : str :=
  flat_map (fun c => if N.eqb c NL then [CR; NL] else [c]) text.

(** What the loop of [_read] keeps true of its cursor and of the
    sections it has added, whatever the lines. *)
Definition tracked (st : read_state) : Prop :=
  (cursect st = None -> rs_sections st = [] /\ rs_defaults st = [])
  /\ forall name, In name (dict_keys (rs_sections st)) ->
                  In (ESect name) (elements_added st).

(** The document once [set] has returned. *)
Definition assigned (p : ConfigParser) (section option value : str)
  : ConfigParser :=
  mkParser
    (dict_set section
       (dict_set option value
          match dict_get section (_sections p) with
          | Some items => items
          | None => []
          end)
       (_sections p))
    (_defaults p).

(** Strings, dictionaries and files whose code points UTF-8 can all
    encode, as the text decoded from a file has them. *)
Definition text_ok (s : str) : Prop := Forall (fun c => encodable c = true) s.

Definition items_encodable (items : dict str) : Prop :=
  Forall (fun kv => text_ok (fst kv) /\ text_ok (snd kv)) items.

Definition sections_encodable (sections : dict (dict str)) : Prop :=
  Forall (fun sec => text_ok (fst sec) /\ items_encodable (snd sec)) sections.

Definition lines_encodable (items : dict (list str)) : Prop :=
  Forall (fun kv => text_ok (fst kv) /\ Forall text_ok (snd kv)) items.

Definition state_encodable (st : read_state) : Prop :=
  Forall (fun sec => text_ok (fst sec) /\ lines_encodable (snd sec))
    (rs_sections st)
  /\ lines_encodable (rs_defaults st).

Definition file_encodable (X : file_content) : bool :=
  match content X with
  | Some text => forallb encodable text
  | None => true
  end.

(** * Properties *)

(** ** Strings and dictionaries *)

Lemma str_eqb_eq (a b : str) : str_eqb a b = true <-> a = b.
Proof.
  revert b; induction a as [|x a IH]; intros [|y b]; simpl;
    try (split; [discriminate | discriminate]); try intuition (auto; congruence).
  rewrite andb_true_iff, N.eqb_eq, IH. split.
  - intros [-> ->]; reflexivity.
  - intros H; injection H; auto.
Qed.

Lemma str_eqb_refl (a : str) : str_eqb a a = true.
Proof. apply str_eqb_eq; reflexivity. Qed.

Lemma str_eqb_neq (a b : str) : str_eqb a b = false <-> a <> b.
Proof.
  rewrite <- str_eqb_eq. destruct (str_eqb a b); split; congruence.
Qed.

Lemma dict_get_none {V} (k : str) (d : dict V) :
  dict_get k d = None <-> ~ In k (dict_keys d).
Proof.
  induction d as [|[k' v] d IH]; simpl; [intuition (auto; congruence)|].
  destruct (str_eqb k k') eqn:E.
  - apply str_eqb_eq in E. subst. split; [discriminate | intuition (auto; congruence)].
  - apply str_eqb_neq in E. rewrite IH. split; [intros H [H'|H']; congruence | intuition (auto; congruence)].
Qed.

Lemma dict_mem_false {V} (k : str) (d : dict V) :
  dict_mem k d = false <-> ~ In k (dict_keys d).
Proof.
  unfold dict_mem. rewrite <- dict_get_none.
  destruct (dict_get k d); split; congruence.
Qed.

Lemma dict_mem_true {V} (k : str) (d : dict V) :
  dict_mem k d = true <-> In k (dict_keys d).
Proof.
  destruct (dict_mem k d) eqn:E.
  - split; [intros _|reflexivity].
    destruct (in_dec (list_eq_dec N.eq_dec) k (dict_keys d)) as [H|H]; [exact H|].
    apply dict_mem_false in H. congruence.
  - apply dict_mem_false in E. split; [discriminate | intuition (auto; congruence)].
Qed.

Lemma dict_get_app {V} (k : str) (v : V) (pre post : dict V) :
  ~ In k (dict_keys pre) -> dict_get k (pre ++ (k, v) :: post) = Some v.
Proof.
  induction pre as [|[k' v'] pre IH]; simpl; intros H.
  - rewrite str_eqb_refl. reflexivity.
  - destruct (str_eqb k k') eqn:E.
    + apply str_eqb_eq in E. intuition (auto; congruence).
    + apply IH. intuition (auto; congruence).
Qed.

Lemma dict_set_app {V} (k : str) (v old : V) (pre post : dict V) :
  ~ In k (dict_keys pre) ->
  dict_set k v (pre ++ (k, old) :: post) = pre ++ (k, v) :: post.
Proof.
  induction pre as [|[k' v'] pre IH]; simpl; intros H.
  - rewrite str_eqb_refl. reflexivity.
  - destruct (str_eqb k k') eqn:E.
    + apply str_eqb_eq in E. intuition (auto; congruence).
    + rewrite IH by intuition (auto; congruence). reflexivity.
Qed.

Lemma dict_set_new {V} (k : str) (v : V) (d : dict V) :
  ~ In k (dict_keys d) -> dict_set k v d = d ++ [(k, v)].
Proof.
  induction d as [|[k' v'] d IH]; simpl; intros H; [reflexivity|].
  destruct (str_eqb k k') eqn:E.
  - apply str_eqb_eq in E. subst. intuition (auto; congruence).
  - rewrite IH by intuition (auto; congruence). reflexivity.
Qed.

Lemma dict_get_set {V} (k : str) (v : V) (d : dict V) :
  dict_get k (dict_set k v d) = Some v.
Proof.
  induction d as [|[k' v'] d IH]; simpl.
  - rewrite str_eqb_refl. reflexivity.
  - destruct (str_eqb k k') eqn:E; simpl; rewrite E; auto.
Qed.

Lemma dict_keys_set {V} (k : str) (v : V) (d : dict V) :
  In k (dict_keys d) -> dict_keys (dict_set k v d) = dict_keys d.
Proof.
  induction d as [|[k' v'] d IH]; simpl; [intuition (auto; congruence)|].
  destruct (str_eqb k k') eqn:E; simpl; [reflexivity|].
  apply str_eqb_neq in E. intros [H|H]; [congruence|].
  rewrite IH by exact H. reflexivity.
Qed.

(** ** The generic setter *)

Lemma before_set_accepts (value : str) :
  accepts_value value = true ->
  match value with
  | [] => Return value
  | _ :: _ => before_set value
  end = Return value.
Proof.
  destruct value as [|c value]; [reflexivity|].
  unfold accepts_value, before_set.
  destruct (char_in PERCENT _); [discriminate | reflexivity].
Qed.

(** The state [set] leaves when the value is accepted and the section is
    not named DEFAULT. *)
Lemma set_run (self : QBittorrentConfig) (section option value : str) :
  accepts_value value = true ->
  section <> DEFAULTSECT ->
  set section option value self =
  (Return tt,
   mkConfig (file self)
     (let S := _sections (config self) in
      let S1 := if dict_mem section S then S else dict_set section [] S in
      match section with
      | [] => mkParser S1 (dict_set option value (_defaults (config self)))
      | _ :: _ =>
          mkParser
            (dict_set section
               (dict_set option value
                  (match dict_get section S with
                   | Some items => items
                   | None => []
                   end)) S1)
            (_defaults (config self))
      end)).
Proof.
  intros Hv Hs.
  destruct self as [f [S D]].
  unfold set, bind, on_config, has_section, add_section, parser_set, ret,
    optionxform; cbn [config file _sections _defaults].
  destruct (dict_mem section S) eqn:Hm; cbn [negb config file _sections _defaults].
  - rewrite (before_set_accepts _ Hv).
    destruct section as [|c section]; [reflexivity|].
    destruct (str_eqb _ DEFAULTSECT) eqn:E;
      [exfalso; apply str_eqb_eq in E; exact (Hs E)|].
    unfold dict_mem in Hm.
    destruct (dict_get _ S); [reflexivity | discriminate].
  - destruct (str_eqb _ DEFAULTSECT) eqn:E;
      [exfalso; apply str_eqb_eq in E; exact (Hs E)|].
    rewrite Hm. cbn [config file _sections _defaults].
    rewrite (before_set_accepts _ Hv).
    destruct section as [|c section]; [reflexivity|].
    destruct (str_eqb _ DEFAULTSECT) eqn:E';
      [exfalso; apply str_eqb_eq in E'; exact (Hs E')|].
    rewrite dict_get_set.
    unfold dict_mem in Hm.
    destruct (dict_get _ S); [discriminate | reflexivity].
Qed.

Lemma dict_set_twice {V} (k : str) (v w : V) (d : dict V) :
  dict_set k w (dict_set k v d) = dict_set k w d.
Proof.
  induction d as [|[k' v'] d IH]; simpl.
  - rewrite str_eqb_refl. reflexivity.
  - destruct (str_eqb k k') eqn:E; simpl; rewrite E; [reflexivity|].
    rewrite IH. reflexivity.
Qed.

(** [set] on a named section. *)
Lemma set_returns (self : QBittorrentConfig) (section option value : str) :
  section <> [] -> section <> DEFAULTSECT ->
  accepts_value value = true ->
  set section option value self
  = (Return tt,
     mkConfig (file self)
       (mkParser
          (dict_set section
             (dict_set option value
                match dict_get section (_sections (config self)) with
                | Some items => items
                | None => []
                end)
             (_sections (config self)))
          (_defaults (config self)))).
Proof.
  intros Hne Hd Hv. rewrite (@set_run self section option value Hv Hd).
  cbv zeta. destruct section as [|c section]; [congruence|].
  destruct (dict_mem (c :: section) (_sections (config self)));
    [reflexivity|].
  rewrite dict_set_twice. reflexivity.
Qed.

(** C2 (as amended): for every call [set(section, key, value)] whose
    section name is neither empty nor DEFAULT and whose value passes the
    interpolation check of the parser, the call returns and: an existing
    (section, key) pair has its value overwritten where it stands, a new
    key of an existing section is appended to that section, and a new
    section is appended to the document with the key in it; nothing else
    of the sections, and nothing of the defaults or of the file,
    changes. *)
Theorem set_overwrites_or_appends
    (self : QBittorrentConfig) (section option value : str) :
  section <> [] ->
  section <> DEFAULTSECT ->
  accepts_value value = true ->
  set_effect self section option value /\
  (forall self', set section option value self = (Return tt, self') ->
     _defaults (config self') = _defaults (config self) /\
     file self' = file self).
Proof.
  intros Hne Hd Hv. pose proof (@set_run self section option value Hv Hd) as Hrun.
  destruct section as [|c section]; [congruence|]. cbv zeta in Hrun.
  split.
  - eexists. split; [exact Hrun|]. simpl. split.
    + intros pre items post HS Hpre. rewrite HS.
      assert (Hin : dict_mem (c :: section) (pre ++ (c :: section, items) :: post) = true).
      { apply dict_mem_true. unfold dict_keys. rewrite map_app. simpl.
        apply in_or_app. right. left. reflexivity. }
      rewrite Hin, dict_get_app by exact Hpre.
      rewrite dict_set_app by exact Hpre. split.
      * intros i1 old i2 -> Hi1. rewrite dict_set_app by exact Hi1. reflexivity.
      * intros Hnew. rewrite dict_set_new by exact Hnew. reflexivity.
    + intros Hnew.
      rewrite (proj2 (dict_mem_false _ _) Hnew), (proj2 (dict_get_none _ _) Hnew).
      rewrite dict_set_twice. rewrite dict_set_new by exact Hnew. reflexivity.
  - intros self' H. rewrite Hrun in H. injection H as <-. simpl. auto.
Qed.

(** The theorem above at a document with sections A and B and the new
    key "k" of the new section "C". *)
Lemma set_overwrites_or_appends_witness :
  set_effect
    (mkConfig (mkFile None true)
       (mkParser [(lit "A", [(lit "x", lit "1")]); (lit "B", [])] []))
    (lit "C") (lit "k") (lit "v").
Proof.
  apply (@set_overwrites_or_appends
           (mkConfig (mkFile None true)
              (mkParser [(lit "A", [(lit "x", lit "1")]); (lit "B", [])] []))
           (lit "C") (lit "k") (lit "v"));
    [discriminate | discriminate | reflexivity].
Defined.

(** C2, as stated, fails for the empty section name: the call returns,
    the section is created at the end of the document, but the key is
    stored in the defaults, not in the section. *)
Lemma set_empty_section_counterexample :
  ~ set_effect (mkConfig (mkFile None true) new_parser) [] (lit "k") (lit "v").
Proof.
  intros [self' [Hrun [_ Hnew]]].
  vm_compute in Hrun. injection Hrun as <-.
  specialize (Hnew (fun H => H)). vm_compute in Hnew. discriminate.
Qed.

(** ** Which values and which setters never raise *)

Lemma keycre_sub_Forall (P : N -> Prop) (s : str) :
  Forall P s -> forall skip, Forall P (keycre_sub skip s).
Proof.
  induction 1 as [|c rest Hc Hrest IH]; intros skip; [constructor|].
  destruct skip as [|n].
  - change (keycre_sub 0 (c :: rest))
      with (match keycre_match (c :: rest) with
            | Some len => keycre_sub (len - 1) rest
            | None => c :: keycre_sub 0 rest
            end).
    destruct (keycre_match (c :: rest)); [apply IH | constructor; auto].
  - apply IH.
Qed.

Lemma replace_percent_percent_cons (c c' : N) (rest : str) :
  replace_percent_percent (c :: c' :: rest)
  = if N.eqb c PERCENT && N.eqb c' PERCENT
    then replace_percent_percent rest
    else c :: replace_percent_percent (c' :: rest).
Proof. reflexivity. Qed.

Lemma replace_percent_percent_Forall (P : N -> Prop) (n : nat) :
  forall s, (List.length s <= n)%nat -> Forall P s ->
            Forall P (replace_percent_percent s).
Proof.
  induction n as [|n IH]; intros [|c [|c' rest]] Hlen H;
    try (constructor; fail); try (simpl in Hlen; lia); try exact H.
  rewrite replace_percent_percent_cons.
  inversion H as [|? ? Hc H']; subst. inversion H' as [|? ? Hc' H'']; subst.
  simpl in Hlen.
  destruct (N.eqb c PERCENT && N.eqb c' PERCENT).
  - apply IH; [lia | assumption].
  - constructor; [assumption|]. apply IH; [simpl; lia | assumption].
Qed.

(** A value without "%" is accepted. *)
Lemma accepts_no_percent (value : str) :
  Forall (fun c => c <> PERCENT) value -> accepts_value value = true.
Proof.
  intros H. destruct value as [|c value]; [reflexivity|].
  unfold accepts_value, before_set.
  assert (Hf : Forall (fun c => c <> PERCENT)
                 (keycre_sub 0 (replace_percent_percent (c :: value)))).
  { apply keycre_sub_Forall.
    apply (@replace_percent_percent_Forall _ (List.length (c :: value)));
      [lia | exact H]. }
  destruct (char_in PERCENT _) eqn:E; [|reflexivity].
  unfold char_in in E. apply existsb_exists in E.
  destruct E as [x [Hx Hx']]. apply N.eqb_eq in Hx'. subst x.
  rewrite Forall_forall in Hf. exfalso. exact (Hf _ Hx eq_refl).
Qed.

Lemma uint_digits_no_percent (d : Decimal.uint) :
  Forall (fun c => c <> PERCENT) (uint_digits d).
Proof.
  induction d; simpl; constructor; auto; discriminate.
Qed.

Lemma int_text_accepted (z : Z) :
  accepts_value (int_sign z ++ int_digits z) = true.
Proof.
  apply accepts_no_percent. unfold int_sign, int_digits.
  destruct (Z.to_int z); cbn [app]; [|constructor; [discriminate|]];
    apply uint_digits_no_percent.
Qed.

Lemma str_of_int_returns (z : Z) :
  (List.length (int_digits z) <= int_max_str_digits)%nat ->
  str_of_int z = Return (int_sign z ++ int_digits z).
Proof.
  intros H. unfold str_of_int.
  destruct (Nat.ltb_spec int_max_str_digits (List.length (int_digits z)));
    [lia | reflexivity].
Qed.

Lemma str_of_int_raises (z : Z) :
  (int_max_str_digits < List.length (int_digits z))%nat ->
  str_of_int z = Raise ValueError.
Proof.
  intros H. unfold str_of_int.
  destruct (Nat.ltb_spec int_max_str_digits (List.length (int_digits z)));
    [reflexivity | lia].
Qed.

(** The limit at work: 10 ^ 4300, written by its 4301 digits, is an
    integer [str] refuses, and [set_web_port] with it. *)
Lemma str_of_int_limit :
  let ten_4300 :=
    Z.of_int
      (Decimal.Pos (Decimal.D1 (Nat.iter 4300 Decimal.D0 Decimal.Nil))) in
  List.length (int_digits ten_4300) = 4301%nat
  /\ str_of_int ten_4300 = Raise ValueError
  /\ set_web_port ten_4300 true (mkConfig (mkFile None true) new_parser)
     = (Raise ValueError, mkConfig (mkFile None true) new_parser).
Proof.
  cbv zeta.
  assert (H : List.length
                (int_digits
                   (Z.of_int
                      (Decimal.Pos
                         (Decimal.D1
                            (Nat.iter 4300 Decimal.D0 Decimal.Nil)))))
              = 4301%nat).
  { unfold int_digits. rewrite DecimalZ.to_of. vm_compute. reflexivity. }
  split; [exact H|].
  assert (Hr : str_of_int
                 (Z.of_int
                    (Decimal.Pos
                       (Decimal.D1 (Nat.iter 4300 Decimal.D0 Decimal.Nil))))
               = Raise ValueError).
  { apply str_of_int_raises. rewrite H. apply Nat.ltb_lt. vm_compute.
    reflexivity. }
  split; [exact Hr|]. unfold set_web_port. rewrite Hr. reflexivity.
Qed.

Lemma b64_digit_no_percent (i : N) : Byte.to_N (b64_digit i) <> PERCENT.
Proof.
  unfold b64_digit.
  destruct (nth_in_or_default (N.to_nat i) b64_table x00) as [H|H].
  - revert H. generalize (nth (N.to_nat i) b64_table x00). intros b H.
    assert (Hall : forallb (fun b => negb (N.eqb (Byte.to_N b) PERCENT))
                     b64_table = true) by (vm_compute; reflexivity).
    rewrite forallb_forall in Hall. specialize (Hall b H).
    apply negb_true_iff, N.eqb_neq in Hall. exact Hall.
  - rewrite H. discriminate.
Qed.

Lemma b64encode_no_percent (n : nat) :
  forall s, (List.length s <= n)%nat ->
            Forall (fun c => c <> PERCENT) (decode (b64encode s)).
Proof.
  unfold decode.
  induction n as [|n IH]; intros [|a [|b [|c rest]]] Hlen; simpl in *;
    try lia; repeat constructor;
    try apply b64_digit_no_percent; try discriminate.
  apply IH. lia.
Qed.

Lemma digest_value_accepted (salt hash : bytes) :
  accepts_value
    (lit "@ByteArray(" ++ decode (b64encode salt) ++ lit ":"
     ++ decode (b64encode hash) ++ lit ")") = true.
Proof.
  apply accepts_no_percent.
  repeat (apply Forall_app; split);
    try (apply (@b64encode_no_percent _ _ (le_n _)));
    repeat constructor; discriminate.
Qed.

Lemma set_succeeds (self : QBittorrentConfig) (section option value : str) :
  section <> DEFAULTSECT ->
  accepts_value value = true ->
  succeeds (set section option value) self.
Proof.
  intros Hs Hv. unfold succeeds. rewrite (@set_run self section option value Hv Hs).
  eauto.
Qed.

Lemma set_then_succeeds (self : QBittorrentConfig)
    (section option value : str) (k : M QBittorrentConfig unit) :
  section <> DEFAULTSECT ->
  accepts_value value = true ->
  (forall self', succeeds k self') ->
  succeeds (set section option value ;; k) self.
Proof.
  intros Hs Hv Hk. unfold succeeds, bind.
  rewrite (@set_run self section option value Hv Hs). apply Hk.
Qed.

Lemma ret_succeeds {S A} (a : A) (s : S) : succeeds (ret a) s.
Proof. unfold succeeds, ret. eauto. Qed.

(** Runs a chain of calls of [set]. *)
Ltac run_sets :=
  repeat (apply set_then_succeeds;
          [discriminate
          | first [reflexivity | assumption | apply int_text_accepted
                  | apply digest_value_accepted]
          | intros ?]);
  first [apply ret_succeeds
        | apply set_succeeds;
          [discriminate | first [reflexivity | assumption]]].

(** C6 (as amended): on every in-memory document, [set] returns whenever
    the section name is not DEFAULT and the value passes the
    interpolation check of the parser (no "%" other than "%%" and
    "%(name)s"); [setup] always returns; [set_web_port] returns for a
    port of at most 4300 decimal digits and raises ValueError, from
    [str(port)], for a longer one; [set_web_password] returns for a
    password that UTF-8 can encode; [set_web_username] and
    [set_bittorrent_interface] return when their argument passes the
    check of the parser ([save=False] throughout). *)
Theorem setters_return (self : QBittorrentConfig) :
  (forall section option value,
      section <> DEFAULTSECT -> accepts_value value = true ->
      succeeds (set section option value) self) /\
  succeeds setup self /\
  (forall port,
      (List.length (int_digits port) <= int_max_str_digits)%nat ->
      succeeds (set_web_port port false) self) /\
  (forall port,
      (int_max_str_digits < List.length (int_digits port))%nat ->
      set_web_port port false self = (Raise ValueError, self)) /\
  (forall username,
      accepts_value username = true ->
      succeeds (set_web_username username false) self) /\
  (forall interface,
      accepts_value interface = true ->
      succeeds (set_bittorrent_interface interface false) self) /\
  (forall password pw entropy,
      encode password = Return pw ->
      succeeds (set_web_password password false entropy) self).
Proof.
  repeat split.
  - intros. apply set_succeeds; assumption.
  - unfold setup. run_sets.
  - intros port Hp. unfold set_web_port, succeeds.
    rewrite (@str_of_int_returns port Hp).
    fold (succeeds
      (set (lit "Preferences") (lit "WebUI\Port")
         (int_sign port ++ int_digits port) ;; ret tt) self).
    run_sets.
  - intros port Hp. unfold set_web_port.
    rewrite (@str_of_int_raises port Hp). reflexivity.
  - intros username Hu. unfold set_web_username. run_sets.
  - intros interface Hi. unfold set_bittorrent_interface. run_sets.
  - intros password pw entropy Henc. unfold set_web_password, succeeds.
    rewrite Henc. fold (succeeds
      (set (lit "Preferences") (lit "WebUI\Password_PBKDF2")
         (lit "@ByteArray("
          ++ decode (b64encode (token_bytes 16 entropy)) ++ lit ":"
          ++ decode (b64encode
               (pbkdf2_hmac_sha512 pw (token_bytes 16 entropy) 100000))
          ++ lit ")") ;; ret tt) self).
    run_sets.
Qed.

(** The theorem above at the empty document, for a user name without
    "%" and the port 8080. *)
Lemma setters_return_witness :
  succeeds (set_web_username (lit "admin") false)
    (mkConfig (mkFile None true) new_parser)
  /\ succeeds (set (lit "S") (lit "k") (lit "v"))
       (mkConfig (mkFile None true) new_parser)
  /\ succeeds (set_bittorrent_interface (lit "eth0") false)
       (mkConfig (mkFile None true) new_parser)
  /\ succeeds (set_web_password (lit "secret") false (fun _ => x00))
       (mkConfig (mkFile None true) new_parser)
  /\ succeeds (set_web_port 8080 false)
       (mkConfig (mkFile None true) new_parser).
Proof.
  pose proof (setters_return (mkConfig (mkFile None true) new_parser))
    as [Hset [_ [Hport [_ [Huser [Hif Hpw]]]]]].
  split; [|split; [|split; [|split]]].
  - apply Huser. reflexivity.
  - apply Hset; [discriminate | reflexivity].
  - apply Hif. reflexivity.
  - apply (Hpw (lit "secret") (list_byte_of_string "secret")). reflexivity.
  - apply Hport. apply Nat.leb_le. vm_compute. reflexivity.
Defined.

(** C6, as stated, fails: a value with a lone "%" makes [set] raise
    [ValueError] (and so a user name such as "100%"), and so does the
    section name DEFAULT. *)
Lemma set_raises_counterexample :
  ~ succeeds (set (lit "Preferences") (lit "WebUI\Username") (lit "100%"))
      (mkConfig (mkFile None true) new_parser)
  /\ ~ succeeds (set (lit "DEFAULT") (lit "k") (lit "v"))
         (mkConfig (mkFile None true) new_parser).
Proof.
  split; intros [a [s' H]]; vm_compute in H; discriminate.
Qed.

(** ** Saving *)

Lemma encode_char_encodable (c : N) :
  if encodable c then exists b, encode_char c = Some b
  else encode_char c = None.
Proof.
  unfold encodable, encode_char.
  destruct (N.ltb_spec c 128); [replace (c <? 1114112)%N with true
                                  by (symmetry; apply N.ltb_lt; lia);
                                replace ((55296 <=? c) && (c <=? 57343))%N
                                  with false
                                  by (symmetry; apply andb_false_iff; left;
                                      apply N.leb_gt; lia);
                                cbn; eauto|].
  destruct (N.ltb_spec c 2048); [replace (c <? 1114112)%N with true
                                   by (symmetry; apply N.ltb_lt; lia);
                                 replace ((55296 <=? c) && (c <=? 57343))%N
                                   with false
                                   by (symmetry; apply andb_false_iff; left;
                                       apply N.leb_gt; lia);
                                 cbn; eauto|].
  destruct (N.ltb_spec c 65536).
  - replace (c <? 1114112)%N with true by (symmetry; apply N.ltb_lt; lia).
    destruct ((55296 <=? c) && (c <=? 57343))%N; cbn; eauto.
  - replace ((55296 <=? c) && (c <=? 57343))%N with false
      by (symmetry; apply andb_false_iff; right; apply N.leb_gt; lia).
    destruct (c <? 1114112)%N; cbn; eauto.
Qed.

Lemma encode_encodable (s : str) :
  if forallb encodable s then exists pw, encode s = Return pw
  else encode s = Raise UnicodeEncodeError.
Proof.
  induction s as [|c s IH]; [exists []; reflexivity|].
  cbn [forallb encode]. pose proof (encode_char_encodable c) as Hc.
  destruct (encodable c).
  - destruct Hc as [b ->]. cbn [andb]. destruct (forallb encodable s).
    + destruct IH as [pw ->]. eauto.
    + rewrite IH. reflexivity.
  - rewrite Hc. reflexivity.
Qed.

Lemma fp_write_run (s fp : str) :
  fp_write s fp
  = if forallb encodable s then (Return tt, fp ++ s)
    else (Raise UnicodeEncodeError, fp).
Proof.
  unfold fp_write. pose proof (encode_encodable s) as H.
  destruct (forallb encodable s); [destruct H as [b ->] | rewrite H];
    reflexivity.
Qed.

(** Strings written one after the other. *)
Lemma write_each (l : list str) (fp : str) :
  for_each l fp_write fp
  = (if forallb (forallb encodable) l then Return tt
     else Raise UnicodeEncodeError,
     fp ++ written l).
Proof.
  revert fp; induction l as [|s l IH]; intros fp; cbn [for_each forallb written].
  - unfold ret. rewrite app_nil_r. reflexivity.
  - unfold bind. rewrite fp_write_run. destruct (forallb encodable s); cbn [andb].
    + rewrite IH, app_assoc. reflexivity.
    + rewrite app_nil_r. reflexivity.
Qed.

Lemma for_each_app {S A} (a b : list A) (body : A -> M S unit) (s : S) :
  for_each (a ++ b) body s = (for_each a body ;; for_each b body) s.
Proof.
  revert s; induction a as [|x a IH]; intros s; cbn [app for_each].
  - reflexivity.
  - unfold bind in *. destruct (body x s) as [[[]|ex] s'];
      [apply IH | reflexivity].
Qed.

Lemma writes_then (m1 m2 : M str unit) (l1 l2 : list str) :
  (forall fp, m1 fp = for_each l1 fp_write fp) ->
  (forall fp, m2 fp = for_each l2 fp_write fp) ->
  forall fp, (m1 ;; m2) fp = for_each (l1 ++ l2) fp_write fp.
Proof.
  intros H1 H2 fp. rewrite for_each_app. unfold bind. rewrite H1.
  destruct (for_each l1 fp_write fp) as [[[]|ex] fp']; [apply H2 | reflexivity].
Qed.

Lemma for_each_writes {A} (f : A -> list str) (body : A -> M str unit)
    (l : list A) :
  (forall x fp, body x fp = for_each (f x) fp_write fp) ->
  forall fp, for_each l body fp = for_each (flat_map f l) fp_write fp.
Proof.
  intros H. induction l as [|x l IH]; intros fp; cbn [for_each flat_map].
  - reflexivity.
  - apply writes_then; [apply H | exact IH].
Qed.

Lemma fp_write_each (s fp : str) : fp_write s fp = for_each [s] fp_write fp.
Proof.
  cbn [for_each]. unfold bind, ret. destruct (fp_write s fp) as [[[]|ex] fp'];
    reflexivity.
Qed.

Lemma for_each_map {S A B} (f : A -> B) (body : A -> M S unit)
    (body' : B -> M S unit) (l : list A) :
  (forall x s, body x s = body' (f x) s) ->
  forall s, for_each l body s = for_each (map f l) body' s.
Proof.
  intros H. induction l as [|x l IH]; intros s; cbn [for_each map];
    [reflexivity|].
  unfold bind. rewrite H. destruct (body' (f x) s) as [[[]|ex] s'];
    [apply IH | reflexivity].
Qed.

Lemma write_section_writes (name : str) (items : dict str) (fp : str) :
  _write_section name items [EQUALS] fp
  = for_each (section_writes name items) fp_write fp.
Proof.
  unfold _write_section, section_writes.
  apply (@writes_then _ _ [[LBRACKET] ++ name ++ [RBRACKET; NL]]
           (map entry_text items ++ [[NL]])).
  - intros fp'. apply fp_write_each.
  - apply writes_then.
    + apply for_each_map. intros [k v] fp'. reflexivity.
    + intros fp'. apply fp_write_each.
Qed.

Lemma write_writes (p : ConfigParser) (fp : str) :
  write p false fp = for_each (document_writes p) fp_write fp.
Proof.
  unfold write, document_writes. apply writes_then.
  - intros fp'. destruct (_defaults p) as [|kv d].
    + reflexivity.
    + apply write_section_writes.
  - apply for_each_writes. intros sec fp'. apply write_section_writes.
Qed.

(** The strings written make the text of the document. *)
Lemma concat_section_writes (name : str) (items : dict str) :
  concat (section_writes name items) = section_text name items.
Proof.
  unfold section_writes, section_text. cbn [concat].
  rewrite concat_app. cbn [concat]. rewrite app_nil_r, <- !app_assoc.
  reflexivity.
Qed.

Lemma concat_document_writes (p : ConfigParser) :
  concat (document_writes p) = document_text p.
Proof.
  unfold document_writes, document_text. rewrite concat_app. f_equal.
  - destruct (_defaults p); [reflexivity | apply concat_section_writes].
  - induction (_sections p) as [|sec secs IH]; [reflexivity|].
    cbn [flat_map map concat]. rewrite concat_app, IH, concat_section_writes.
    reflexivity.
Qed.

Lemma forallb_concat {A} (f : A -> bool) (l : list (list A)) :
  forallb (forallb f) l = forallb f (concat l).
Proof.
  induction l as [|x l IH]; [reflexivity|].
  cbn [forallb concat]. rewrite forallb_app, IH. reflexivity.
Qed.

Lemma written_all (l : list str) :
  forallb (forallb encodable) l = true -> written l = concat l.
Proof.
  induction l as [|s l IH]; [reflexivity|]. cbn [forallb written concat].
  intros H. apply andb_true_iff in H. destruct H as [Hs Hl].
  rewrite Hs, (IH Hl). reflexivity.
Qed.

(** When a string cannot be encoded, what is written stops short of
    the text. *)
Lemma written_prefix (l : list str) :
  forallb (forallb encodable) l = false ->
  exists rest, concat l = written l ++ rest /\ rest <> [].
Proof.
  induction l as [|s l IH]; [discriminate|]. cbn [forallb written concat].
  destruct (forallb encodable s) eqn:Hs; cbn [andb].
  - intros H. destruct (IH H) as [rest [E Hne]]. exists rest.
    rewrite E, app_assoc. auto.
  - intros _. exists (s ++ concat l). split; [reflexivity|].
    destruct s; [discriminate Hs | discriminate].
Qed.

Lemma document_writes_encodable (p : ConfigParser) :
  forallb (forallb encodable) (document_writes p) = document_encodable p.
Proof.
  unfold document_encodable. rewrite forallb_concat, concat_document_writes.
  reflexivity.
Qed.

(** What [save] does, in full. *)
Lemma save_run (self : QBittorrentConfig) :
  save self
  = if writable (file self)
    then (if document_encodable (config self) then Return tt
          else Raise UnicodeEncodeError,
          mkConfig
            (mkFile (Some (written (document_writes (config self)))) true)
            (config self))
    else (Raise OSError, self).
Proof.
  unfold save, open_w_plus. destruct (writable (file self)); [|reflexivity].
  rewrite write_writes, write_each, document_writes_encodable. reflexivity.
Qed.

Lemma save_returns (self : QBittorrentConfig) :
  writable (file self) = true ->
  document_encodable (config self) = true ->
  save self
  = (Return tt,
     mkConfig (mkFile (Some (document_text (config self))) true)
       (config self)).
Proof.
  intros Hw He. rewrite save_run, Hw, He, written_all, concat_document_writes;
    [reflexivity|]. rewrite document_writes_encodable. exact He.
Qed.

(** C9 (as amended): [save] rewrites the file from its start, with
    nothing of the old content left, whenever the path can be opened
    for writing. When UTF-8 can encode the text of the document, the
    file is then exactly this text: for each section its name between
    brackets on a line, then one line [key=value] per entry, the
    delimiter being "=" alone (never " = "), then an empty line;
    [save] returns. When the document holds a string that cannot be
    encoded, [save] raises UnicodeEncodeError and the file is left with
    the strings written before it, a strict prefix of the text. When
    the path cannot be opened for writing, [save] raises OSError and
    nothing changes. *)
Theorem save_rewrites_file (self : QBittorrentConfig) :
  let text := document_text (config self) in
  let cut := written (document_writes (config self)) in
  save self
  = (if writable (file self)
     then if document_encodable (config self)
          then (Return tt, mkConfig (mkFile (Some text) true) (config self))
          else (Raise UnicodeEncodeError,
                mkConfig (mkFile (Some cut) true) (config self))
     else (Raise OSError, self))
  /\ (exists rest,
        text = cut ++ rest
        /\ (rest = [] <-> document_encodable (config self) = true))
  /\ text
     = match _defaults (config self) with
       | [] => []
       | _ :: _ =>
           [LBRACKET] ++ DEFAULTSECT ++ [RBRACKET; NL]
           ++ concat (map (fun kv => fst kv ++ [EQUALS]
                                     ++ replace_newline (snd kv) ++ [NL])
                        (_defaults (config self)))
           ++ [NL]
       end
       ++ concat
            (map (fun sec =>
                    [LBRACKET] ++ fst sec ++ [RBRACKET; NL]
                    ++ concat (map (fun kv => fst kv ++ [EQUALS]
                                              ++ replace_newline (snd kv)
                                              ++ [NL])
                                 (snd sec))
                    ++ [NL])
               (_sections (config self))).
Proof.
  cbv zeta. split; [|split].
  - rewrite save_run. destruct (writable (file self)); [|reflexivity].
    destruct (document_encodable (config self)) eqn:He; [|reflexivity].
    rewrite written_all, concat_document_writes; [reflexivity|].
    rewrite document_writes_encodable. exact He.
  - rewrite <- document_writes_encodable.
    destruct (forallb (forallb encodable) (document_writes (config self)))
      eqn:He.
    + exists []. rewrite app_nil_r, (written_all _ He), concat_document_writes.
      split; [reflexivity | tauto].
    + destruct (written_prefix _ He) as [rest [E Hne]]. exists rest.
      rewrite <- concat_document_writes. split; [exact E|].
      split; [contradiction | discriminate].
  - reflexivity.
Qed.

(** C9, as stated for every document, fails: with a value that holds a
    lone surrogate, which [set] accepts, [save] raises
    UnicodeEncodeError and leaves the file with the header of the
    section only: the entry is not written. *)
Lemma save_raises_counterexample :
  set (lit "A") (lit "k") [55296%N] (mkConfig (mkFile (Some (lit "old")) true)
                                       new_parser)
  = (Return tt,
     mkConfig (mkFile (Some (lit "old")) true)
       (mkParser [(lit "A", [(lit "k", [55296%N])])] []))
  /\ save (mkConfig (mkFile (Some (lit "old")) true)
             (mkParser [(lit "A", [(lit "k", [55296%N])])] []))
     = (Raise UnicodeEncodeError,
        mkConfig (mkFile (Some (lit "[A]" ++ [NL])) true)
          (mkParser [(lit "A", [(lit "k", [55296%N])])] [])).
Proof. split; vm_compute; reflexivity. Qed.

(** ** Loading a missing file, and the bootstrap *)

(** C8: loading from a path where no file can be opened returns the
    empty document and raises nothing; saving it at once leaves an
    empty file when the path can be opened for writing. When it cannot
    (the directory is missing, say), [save] raises OSError and creates
    nothing: the write failure. *)
Theorem missing_file_is_empty_document (w : bool) :
  __init__ (mkFile None w) = Return (mkConfig (mkFile None w) new_parser)
  /\ save (mkConfig (mkFile None w) new_parser)
     = if w then (Return tt, mkConfig (mkFile (Some []) true) new_parser)
       else (Raise OSError, mkConfig (mkFile None w) new_parser).
Proof. destruct w; split; reflexivity. Qed.

(** C7: from the empty document, [setup()] leaves a document with
    exactly the five bootstrap entries, in four sections, and nothing
    else; [save()] then returns and leaves a file with exactly these
    entries, whatever the path held, when the path can be opened for
    writing. When it cannot, [save()] raises OSError and leaves the
    path as it was: the write failure. The file reads back as that
    document. *)
Theorem setup_then_save (old : file_content) :
  (setup ;; save) (mkConfig old new_parser)
  = (if writable old
     then (Return tt, mkConfig (mkFile (Some setup_text) true) setup_document)
     else (Raise OSError, mkConfig old setup_document))
  /\ read (Some setup_text) = Return setup_document.
Proof.
  split; [|vm_compute; reflexivity].
  destruct old as [c [|]]; vm_compute; reflexivity.
Qed.

(** ** The port *)


Lemma digits_uint_digits (d : Decimal.uint) :
  digits_uint (uint_digits d) = Some d.
Proof. induction d; simpl; try rewrite IHd; reflexivity. Qed.

Lemma uint_digits_head (d : Decimal.uint) :
  d <> Decimal.Nil ->
  exists c rest, uint_digits d = c :: rest /\ N.eqb c 45 = false.
Proof. destruct d; intros H; [congruence|..]; simpl; eauto. Qed.

Lemma to_int_nonnil (z : Z) :
  match Z.to_int z with
  | Decimal.Pos d | Decimal.Neg d => d <> Decimal.Nil
  end.
Proof.
  destruct z; simpl; try discriminate;
    apply DecimalPos.Unsigned.to_uint_nonnil.
Qed.

Lemma decimal_value_int_text (z : Z) :
  decimal_value (int_sign z ++ int_digits z) = Some z.
Proof.
  pose proof (to_int_nonnil z) as Hn. pose proof (DecimalZ.of_to z) as Hz.
  unfold int_sign, int_digits. destruct (Z.to_int z) as [d|d]; cbn [app].
  - destruct (uint_digits_head Hn) as [c [rest [E Hc]]].
    unfold decimal_value. rewrite E, Hc, <- E, digits_uint_digits, Hz.
    reflexivity.
  - destruct (uint_digits_head Hn) as [c [rest [E Hc]]].
    unfold decimal_value. rewrite N.eqb_refl, E. cbv iota.
    rewrite <- E, digits_uint_digits, Hz. reflexivity.
Qed.



(** ** Base64 *)

Lemma byte_of_to_N (b : byte) : byte_of_N (Byte.to_N b) = b.
Proof.
  unfold byte_of_N. pose proof (Byte.to_N_bounded b) as H.
  rewrite N.mod_small by lia. rewrite Byte.of_to_N. reflexivity.
Qed.



(** The four digits of three bytes, and the bytes back from them. *)
Lemma sextets (a b c : N) :
  (a <= 255 -> b <= 255 -> c <= 255 ->
   let n := a * 65536 + b * 256 + c in
   let i1 := n / 262144 in
   let i2 := (n / 4096) mod 64 in
   let i3 := (n / 64) mod 64 in
   let i4 := n mod 64 in
   i1 < 64 /\ i2 < 64 /\ i3 < 64 /\ i4 < 64
   /\ i1 * 4 + i2 / 16 = a
   /\ (i2 mod 16) * 16 + i3 / 4 = b
   /\ (i3 mod 4) * 64 + i4 = c)%N.
Proof.
  intros Ha Hb Hc n i1 i2 i3 i4. subst n i1 i2 i3 i4.
  zify. Z.to_euclidean_division_equations. lia.
Qed.

Lemma b64_digit_value (i : N) :
  (i < 64)%N ->
  b64_value (b64_digit i) = Some i
  /\ Byte.eqb (b64_digit i) b64_pad = false
  /\ In (b64_digit i) b64_table.
Proof.
  intros Hi.
  assert (Hall :
    forallb (fun k =>
      let i := N.of_nat k in
      match b64_value (b64_digit i) with
      | Some j => N.eqb j i
      | None => false
      end && negb (Byte.eqb (b64_digit i) b64_pad)) (seq 0 64) = true)
    by (vm_compute; reflexivity).
  rewrite forallb_forall in Hall.
  specialize (Hall (N.to_nat i)). rewrite N2Nat.id in Hall.
  assert (Hin : In (N.to_nat i) (seq 0 64)) by (apply in_seq; lia).
  specialize (Hall Hin). cbv zeta in Hall.
  apply andb_true_iff in Hall. destruct Hall as [H1 H2].
  split; [|split].
  - destruct (b64_value (b64_digit i)); [|discriminate].
    apply N.eqb_eq in H1. congruence.
  - apply negb_true_iff. exact H2.
  - unfold b64_digit. apply nth_In.
    change (List.length b64_table) with 64%nat. lia.
Qed.

Lemma b64decode_group (i1 i2 i3 i4 : N) (rest : bytes) :
  (i1 < 64 -> i2 < 64 -> i3 < 64 -> i4 < 64 ->
   b64decode (b64_digit i1 :: b64_digit i2 :: b64_digit i3 :: b64_digit i4
              :: rest)
   = match b64decode rest with
     | Some r =>
         Some (byte_of_N (i1 * 4 + i2 / 16)
               :: byte_of_N ((i2 mod 16) * 16 + i3 / 4)
               :: byte_of_N ((i3 mod 4) * 64 + i4) :: r)
     | None => None
     end)%N.
Proof.
  intros H1 H2 H3 H4.
  destruct (b64_digit_value H1) as [V1 _], (b64_digit_value H2) as [V2 _],
    (b64_digit_value H3) as [V3 [P3 _]], (b64_digit_value H4) as [V4 [P4 _]].
  cbn [b64decode]. rewrite V1, V2, P3, V3, P4, V4. reflexivity.
Qed.

Lemma b64decode_pad1 (i1 i2 i3 : N) :
  (i1 < 64 -> i2 < 64 -> i3 < 64 ->
   b64decode [b64_digit i1; b64_digit i2; b64_digit i3; b64_pad]
   = Some [byte_of_N (i1 * 4 + i2 / 16);
           byte_of_N ((i2 mod 16) * 16 + i3 / 4)])%N.
Proof.
  intros H1 H2 H3.
  destruct (b64_digit_value H1) as [V1 _], (b64_digit_value H2) as [V2 _],
    (b64_digit_value H3) as [V3 [P3 _]].
  cbn [b64decode]. rewrite V1, V2, P3, V3. reflexivity.
Qed.

Lemma b64decode_pad2 (i1 i2 : N) :
  (i1 < 64 -> i2 < 64 ->
   b64decode [b64_digit i1; b64_digit i2; b64_pad; b64_pad]
   = Some [byte_of_N (i1 * 4 + i2 / 16)])%N.
Proof.
  intros H1 H2.
  destruct (b64_digit_value H1) as [V1 _], (b64_digit_value H2) as [V2 _].
  cbn [b64decode]. rewrite V1, V2. reflexivity.
Qed.

(** What [b64encode] gives is decoded to the bytes it was given. *)
Lemma b64_roundtrip_le (n : nat) :
  forall s, (List.length s <= n)%nat -> b64decode (b64encode s) = Some s.
Proof.
  induction n as [|n IH]; intros [|a [|b [|c rest]]] Hlen;
    cbn [List.length] in Hlen; try lia; try reflexivity.
  - pose proof (@sextets (Byte.to_N a) 0 0 (Byte.to_N_bounded a)) as S.
    cbv zeta in S. rewrite N.mul_0_l, !N.add_0_r in S.
    destruct S as (H1 & H2 & _ & _ & E1 & _); try lia.
    cbn [b64encode]. rewrite b64decode_pad2 by assumption.
    rewrite E1, byte_of_to_N. reflexivity.
  - pose proof (@sextets (Byte.to_N a) (Byte.to_N b) 0
                  (Byte.to_N_bounded a) (Byte.to_N_bounded b)) as S.
    cbv zeta in S. rewrite !N.add_0_r in S.
    destruct S as (H1 & H2 & H3 & _ & E1 & E2 & _); try lia.
    cbn [b64encode]. rewrite b64decode_pad1 by assumption.
    rewrite E1, E2, !byte_of_to_N. reflexivity.
  - pose proof (@sextets (Byte.to_N a) (Byte.to_N b) (Byte.to_N c)
                  (Byte.to_N_bounded a) (Byte.to_N_bounded b)
                  (Byte.to_N_bounded c)) as S.
    cbv zeta in S. destruct S as (H1 & H2 & H3 & H4 & E1 & E2 & E3).
    cbn [b64encode]. rewrite b64decode_group by assumption.
    rewrite IH by lia. rewrite E1, E2, E3, !byte_of_to_N. reflexivity.
Qed.

Lemma b64_roundtrip (s : bytes) : b64decode (b64encode s) = Some s.
Proof. apply (@b64_roundtrip_le (List.length s)). apply le_n. Qed.


Ltac b64_chars :=
  repeat (apply Forall_cons;
          [first [left; apply b64_digit_value; assumption
                 | right; reflexivity]|]).

Lemma b64encode_alphabet_le (n : nat) :
  forall s, (List.length s <= n)%nat -> Forall b64_char (b64encode s).
Proof.
  induction n as [|n IH]; intros [|a [|b [|c rest]]] Hlen;
    cbn [List.length] in Hlen; try lia; try apply Forall_nil.
  - pose proof (@sextets (Byte.to_N a) 0 0 (Byte.to_N_bounded a)) as S.
    cbv zeta in S. rewrite N.mul_0_l, !N.add_0_r in S.
    destruct S as (H1 & H2 & _); try lia.
    cbn [b64encode]. b64_chars. apply Forall_nil.
  - pose proof (@sextets (Byte.to_N a) (Byte.to_N b) 0
                  (Byte.to_N_bounded a) (Byte.to_N_bounded b)) as S.
    cbv zeta in S. rewrite !N.add_0_r in S.
    destruct S as (H1 & H2 & H3 & _); try lia.
    cbn [b64encode]. b64_chars. apply Forall_nil.
  - pose proof (@sextets (Byte.to_N a) (Byte.to_N b) (Byte.to_N c)
                  (Byte.to_N_bounded a) (Byte.to_N_bounded b)
                  (Byte.to_N_bounded c)) as S.
    cbv zeta in S. destruct S as (H1 & H2 & H3 & H4 & _).
    cbn [b64encode]. b64_chars. apply IH. lia.
Qed.


(** ** The derived key *)

Lemma be_bytes_length (k : nat) (x : N) : List.length (SHA512.be_bytes k x) = k.
Proof.
  unfold SHA512.be_bytes. rewrite length_map, length_rev, length_seq.
  reflexivity.
Qed.

Lemma sha512_length (msg : bytes) :
  List.length (SHA512.sha512 msg) = SHA512.digest_size.
Proof.
  unfold SHA512.sha512, SHA512.digest_of.
  destruct (SHA512.absorb SHA512.H0 (SHA512.pad msg))
    as [[[[[[[a b] c] d] e0] f] g] h].
  rewrite !length_app, !be_bytes_length. reflexivity.
Qed.

Lemma hmac_sha512_length (key msg : bytes) :
  List.length (hmac_sha512 key msg) = SHA512.digest_size.
Proof. unfold hmac_sha512. apply sha512_length. Qed.

Lemma xor_bytes_length (a b : bytes) :
  List.length a = List.length b ->
  List.length (xor_bytes a b) = List.length a.
Proof.
  revert b; induction a as [|x a IH]; intros [|y b] H; simpl in *;
    try discriminate; [reflexivity|].
  rewrite IH by lia. reflexivity.
Qed.

Lemma pbkdf2_block_length (password salt : bytes) (iterations : positive)
    (i : N) :
  List.length (pbkdf2_block password salt iterations i) = SHA512.digest_size.
Proof.
  unfold pbkdf2_block.
  apply (@N.iter_invariant (Pos.pred_N iterations) (list byte * list byte)
           (fun ut => let u := hmac_sha512 password (fst ut) in
                      (u, xor_bytes (snd ut) u))
           (fun ut => List.length (snd ut) = SHA512.digest_size)).
  - intros [u t] H. cbn [fst snd] in *.
    rewrite xor_bytes_length; [exact H|].
    rewrite H, hmac_sha512_length. reflexivity.
  - cbn [snd]. apply hmac_sha512_length.
Qed.

(** The key has the 64 bytes of a SHA-512 digest, whatever the number of
    iterations. *)
Lemma pbkdf2_hmac_sha512_length (password salt : bytes)
    (iterations : positive) :
  List.length (pbkdf2_hmac_sha512 password salt iterations) = 64%nat.
Proof.
  unfold pbkdf2_hmac_sha512.
  change ((SHA512.digest_size + SHA512.digest_size - 1)
          / SHA512.digest_size)%nat with 1%nat.
  cbn [seq flat_map]. rewrite app_nil_r.
  rewrite <- (pbkdf2_block_length password salt iterations (N.of_nat 1))
    at 1.
  rewrite firstn_all. apply pbkdf2_block_length.
Qed.

(** The chain of [pbkdf2_block] is the chain U_1, U_2, ... of the RFC,
    and what it folds is their exclusive or. *)
Lemma pbkdf2_chain (P S : bytes) (i : N) (k : nat) :
  Nat.iter k
    (fun ut => let u := hmac_sha512 P (fst ut) in (u, xor_bytes (snd ut) u))
    (pbkdf2_U P S i 0, pbkdf2_U P S i 0)
  = (pbkdf2_U P S i k,
     fold_left xor_bytes (map (pbkdf2_U P S i) (seq 1 k)) (pbkdf2_U P S i 0)).
Proof.
  induction k as [|k IH]; [reflexivity|].
  rewrite Nat.iter_succ, IH. cbv zeta. cbn [fst snd pbkdf2_U].
  rewrite seq_S, map_app, fold_left_app. reflexivity.
Qed.

Lemma pbkdf2_block_F (P S : bytes) (c : positive) (i : N) :
  pbkdf2_block P S c i = pbkdf2_F P S c i.
Proof.
  unfold pbkdf2_block, pbkdf2_F. cbv zeta.
  rewrite N2Nat.inj_iter.
  replace (N.to_nat (Pos.pred_N c)) with (Pos.to_nat c - 1)%nat
    by (rewrite N.pos_pred_spec, N2Nat.inj_pred, positive_N_nat; lia).
  change (hmac_sha512 P (S ++ SHA512.be_bytes 4 i)) with (pbkdf2_U P S i 0).
  rewrite pbkdf2_chain. reflexivity.
Qed.

(** [hashlib.pbkdf2_hmac] computes the key of RFC 8018 of 64 bytes. *)
Lemma pbkdf2_reference (P S : bytes) (c : positive) :
  pbkdf2_hmac_sha512 P S c = PBKDF2 P S c 64.
Proof.
  unfold pbkdf2_hmac_sha512, PBKDF2.
  change ((SHA512.digest_size + SHA512.digest_size - 1)
          / SHA512.digest_size)%nat with 1%nat.
  change ((64 + 63) / 64)%nat with 1%nat.
  cbn [seq flat_map]. rewrite pbkdf2_block_F. reflexivity.
Qed.

Lemma digest_test_vectors_hold : digest_test_vectors.
Proof.
  unfold digest_test_vectors.
  repeat lazymatch goal with
         | |- _ /\ _ => split; [vm_compute; reflexivity|]
         end.
  vm_compute; reflexivity.
Qed.

Lemma token_bytes_length (nbytes : nat) (entropy : nat -> byte) :
  List.length (token_bytes nbytes entropy) = nbytes.
Proof. unfold token_bytes. rewrite length_map, length_seq. reflexivity. Qed.

(** Every sequence of 16 bytes is what some state of the entropy source
    hands out. *)
Lemma token_bytes_any (salt : bytes) :
  token_bytes (List.length salt) (fun i => nth i salt x00) = salt.
Proof.
  unfold token_bytes. apply nth_ext with (d := x00) (d' := x00).
  - rewrite length_map, length_seq. reflexivity.
  - intros n Hn. rewrite length_map, length_seq in Hn.
    rewrite (nth_indep _ _ (nth 0 salt x00))
      by (rewrite length_map, length_seq; exact Hn).
    rewrite (map_nth (fun i => nth i salt x00)), seq_nth by exact Hn.
    reflexivity.
Qed.

(** ** The password digest *)


Lemma save_config (self : QBittorrentConfig) :
  config (snd (save self)) = config self.
Proof.
  rewrite save_run. destruct (writable (file self)); reflexivity.
Qed.

(** C1 (as amended): for every password that UTF-8 encodes, to [pw],
    and every 16-byte salt the entropy source hands out,
    [set_web_password] stores at ("Preferences", "WebUI\Password_PBKDF2")
    exactly "@ByteArray(" ++ base64(salt) ++ ":" ++ base64(digest) ++ ")",
    where digest is the key of 64 bytes that PBKDF2 of RFC 8018 derives
    from [pw] and the salt with HMAC-SHA-512 and 100000 iterations, and
    leaves the rest of the document as it was; then it saves when
    [save] is true and returns when it is false. Both blocks are made
    of the standard alphabet and "=", the first decodes to the 16 bytes
    of the salt and the second to the 64 bytes of the digest. The
    functions the digest is made of give the known answers of their
    standards. *)
Theorem set_web_password_stores
    (self : QBittorrentConfig) (password : str) (pw salt : bytes)
    (save_ : bool) (entropy : nat -> byte) :
  encode password = Return pw ->
  token_bytes 16 entropy = salt ->
  let digest := PBKDF2 pw salt 100000 64 in
  let value := lit "@ByteArray(" ++ decode (b64encode salt) ++ lit ":"
               ++ decode (b64encode digest) ++ lit ")" in
  let stored :=
    mkConfig (file self)
      (assigned (config self) (lit "Preferences")
         (lit "WebUI\Password_PBKDF2") value) in
  set_web_password password save_ entropy self
  = (if save_ then save stored else (Return tt, stored))
  /\ lookup (snd (set_web_password password save_ entropy self))
       (lit "Preferences") (lit "WebUI\Password_PBKDF2")
     = Some value
  /\ List.length salt = 16%nat
  /\ List.length digest = 64%nat
  /\ b64decode (b64encode salt) = Some salt
  /\ b64decode (b64encode digest) = Some digest
  /\ Forall b64_char (b64encode salt)
  /\ Forall b64_char (b64encode digest)
  /\ digest_test_vectors.
Proof.
  intros Henc Hsalt. subst salt. cbv zeta.
  rewrite <- (pbkdf2_reference pw (token_bytes 16 entropy) 100000).
  pose proof (pbkdf2_hmac_sha512_length pw (token_bytes 16 entropy) 100000)
    as Hlen.
  unfold set_web_password. cbv zeta. rewrite Henc.
  revert Hlen.
  generalize (pbkdf2_hmac_sha512 pw (token_bytes 16 entropy) 100000).
  intros digest Hlen.
  assert (Hrun :
    (set (lit "Preferences") (lit "WebUI\Password_PBKDF2")
       (lit "@ByteArray(" ++ decode (b64encode (token_bytes 16 entropy))
        ++ lit ":" ++ decode (b64encode digest) ++ lit ")") ;;
     (if save_ then save else ret tt)) self
    = (if save_
       then save
              (mkConfig (file self)
                 (assigned (config self) (lit "Preferences")
                    (lit "WebUI\Password_PBKDF2")
                    (lit "@ByteArray("
                     ++ decode (b64encode (token_bytes 16 entropy))
                     ++ lit ":" ++ decode (b64encode digest) ++ lit ")")))
       else (Return tt,
             mkConfig (file self)
               (assigned (config self) (lit "Preferences")
                  (lit "WebUI\Password_PBKDF2")
                  (lit "@ByteArray("
                   ++ decode (b64encode (token_bytes 16 entropy))
                   ++ lit ":" ++ decode (b64encode digest) ++ lit ")"))))).
  { unfold bind.
    rewrite (@set_returns self (lit "Preferences")
               (lit "WebUI\Password_PBKDF2") _);
      [|discriminate|discriminate|apply digest_value_accepted].
    destruct save_; reflexivity. }
  rewrite Hrun. split; [reflexivity|]. split.
  { unfold lookup. destruct save_.
    - rewrite save_config. unfold assigned. cbn [config _sections].
      rewrite dict_get_set. apply dict_get_set.
    - unfold assigned. cbn [snd config _sections].
      rewrite dict_get_set. apply dict_get_set. }
  split; [apply token_bytes_length|].
  split; [exact Hlen|].
  split; [apply b64_roundtrip|].
  split; [apply b64_roundtrip|].
  split; [apply (@b64encode_alphabet_le _ _ (le_n _))|].
  split; [apply (@b64encode_alphabet_le _ _ (le_n _))|].
  apply digest_test_vectors_hold.
Qed.

(** The theorem above for the password "secret" and the all-zero salt,
    without saving. *)
Lemma set_web_password_stores_witness :
  lookup
    (snd (set_web_password (lit "secret") false (fun _ => x00)
            (mkConfig (mkFile None true) new_parser)))
    (lit "Preferences") (lit "WebUI\Password_PBKDF2")
  = Some (lit "@ByteArray(" ++ decode (b64encode (repeat x00 16))
          ++ lit ":"
          ++ decode (b64encode
               (PBKDF2 (list_byte_of_string "secret") (repeat x00 16)
                  100000 64))
          ++ lit ")").
Proof.
  destruct (@set_web_password_stores (mkConfig (mkFile None true) new_parser)
              (lit "secret") (list_byte_of_string "secret")
              (repeat x00 16) false (fun _ => x00) eq_refl eq_refl)
    as [_ [H _]].
  exact H.
Defined.

(** C1, as stated for every password string, fails: a password with a
    lone surrogate cannot be encoded; [password.encode()] raises
    UnicodeEncodeError and nothing is stored. *)
Lemma set_web_password_counterexample :
  set_web_password [55296%N] false (fun _ => x00)
    (mkConfig (mkFile None true) new_parser)
  = (Raise UnicodeEncodeError, mkConfig (mkFile None true) new_parser)
  /\ lookup (mkConfig (mkFile None true) new_parser)
       (lit "Preferences") (lit "WebUI\Password_PBKDF2") = None.
Proof. split; vm_compute; reflexivity. Qed.






(** ** White space *)

Lemma rstrip_app_space (a : str) (c : N) :
  isspace c = true -> rstrip (a ++ [c]) = rstrip a.
Proof.
  intros Hc. induction a as [|x a IH]; simpl.
  - rewrite Hc. reflexivity.
  - rewrite IH. reflexivity.
Qed.

Lemma rstrip_app_nonspace (a : str) (c : N) :
  isspace c = false -> rstrip (a ++ [c]) = a ++ [c].
Proof.
  intros Hc. induction a as [|x a IH]; simpl.
  - rewrite Hc. reflexivity.
  - rewrite IH. destruct (a ++ [c]) eqn:E; [|reflexivity].
    destruct a; discriminate.
Qed.

Lemma rstrip_length (s : str) : (List.length (rstrip s) <= List.length s)%nat.
Proof.
  induction s as [|c s IH]; simpl; [lia|].
  destruct (rstrip s); [destruct (isspace c)|]; simpl in *; lia.
Qed.

Lemma lstrip_length (s : str) : (List.length (lstrip s) <= List.length s)%nat.
Proof.
  induction s as [|c s IH]; simpl; [lia|].
  destruct (isspace c); simpl; lia.
Qed.

Lemma strip_fixed_tight (s : str) : strip s = s -> s <> [] -> tight s.
Proof.
  intros H Hne. unfold strip in H.
  assert (Hl : lstrip s = s).
  { destruct s as [|c r]; [congruence|]. simpl in *.
    destruct (isspace c); [|reflexivity].
    pose proof (rstrip_length (lstrip r)). pose proof (lstrip_length r).
    rewrite H in *. simpl in *. lia. }
  rewrite Hl in H. split.
  - destruct s as [|c r]; [congruence|]. exists c, r. split; [reflexivity|].
    simpl in Hl. destruct (isspace c); [|reflexivity].
    pose proof (lstrip_length r). rewrite Hl in *. simpl in *. lia.
  - destruct (exists_last Hne) as [a [d E]]. exists a, d. split; [exact E|].
    destruct (isspace d) eqn:Hd; [|reflexivity].
    rewrite E, rstrip_app_space in H by exact Hd.
    pose proof (rstrip_length a). rewrite H, length_app in *. simpl in *. lia.
Qed.

Lemma tight_strip (s : str) : tight s -> strip s = s /\ rstrip s = s.
Proof.
  intros [[c [r [E Hc]]] [a [d [E' Hd]]]].
  assert (Hr : rstrip s = s) by (rewrite E'; apply rstrip_app_nonspace, Hd).
  split; [|exact Hr]. unfold strip. rewrite E. simpl. rewrite Hc.
  rewrite <- E. exact Hr.
Qed.

Lemma tight_line (s : str) :
  tight s ->
  strip (s ++ [NL]) = s /\ first_nonspace (s ++ [NL]) = Some O.
Proof.
  intros Ht. destruct (tight_strip Ht) as [_ Hr].
  destruct Ht as [[c [r [E Hc]]] _].
  unfold strip. rewrite E. simpl. rewrite Hc. split; [|reflexivity].
  change (c :: r ++ [NL]) with ((c :: r) ++ [NL]).
  rewrite rstrip_app_space by reflexivity. rewrite <- E. exact Hr.
Qed.

Lemma tight_app (x m y : str) : tight x -> tight y -> tight (x ++ m ++ y).
Proof.
  intros [[c [r [E Hc]]] _] [_ [a [d [E' Hd]]]]. split.
  - exists c, (r ++ m ++ y). rewrite E. split; [reflexivity | exact Hc].
  - exists (x ++ m ++ a), d. rewrite E', <- !app_assoc. split; [reflexivity | exact Hd].
Qed.

Lemma tight_snoc (x : str) (d : N) : tight x -> isspace d = false -> tight (x ++ [d]).
Proof.
  intros [[c [r [E Hc]]] _] Hd. split.
  - exists c, (r ++ [d]). rewrite E. split; [reflexivity | exact Hc].
  - exists x, d. split; [reflexivity | exact Hd].
Qed.

Lemma stripped_tight (s : str) : stripped s = true -> s <> [] -> tight s.
Proof.
  unfold stripped. rewrite str_eqb_eq. apply strip_fixed_tight.
Qed.

(** The line of a continuation: a tab, then the stripped line. *)
Lemma continuation_line (l : str) :
  stripped l = true ->
  strip (TAB :: l ++ [NL]) = l
  /\ (l <> [] -> first_nonspace (TAB :: l ++ [NL]) = Some 1%nat).
Proof.
  intros Hs. destruct l as [|c r].
  - split; [reflexivity | congruence].
  - assert (Ht : tight (c :: r)) by (apply stripped_tight; [exact Hs | discriminate]).
    destruct (tight_line Ht) as [H1 H2]. split.
    + unfold strip in *. simpl (lstrip (TAB :: _)). exact H1.
    + intros _. simpl first_nonspace. simpl in H2.
      destruct (isspace c); [discriminate H2 || (simpl in H2; destruct (first_nonspace (r ++ [NL])); discriminate) | reflexivity].
Qed.

(** ** Lines *)

Lemma single_line_spec (s : str) :
  single_line s = true <-> no_nl s /\ no_cr s.
Proof.
  unfold single_line, no_nl, no_cr, is_linebreak.
  rewrite forallb_forall, !Forall_forall. split.
  - intros H. split; intros c Hc E; specialize (H c Hc); subst c;
      discriminate H.
  - intros [H1 H2] c Hc. specialize (H1 c Hc). specialize (H2 c Hc).
    apply N.eqb_neq in H1, H2. rewrite H1, H2. reflexivity.
Qed.

Lemma readlines_line (l rest : str) :
  no_nl l -> readlines (l ++ NL :: rest) = (l ++ [NL]) :: readlines rest.
Proof.
  induction 1 as [|c l Hc Hl IH]; simpl; [reflexivity|].
  apply N.eqb_neq in Hc. rewrite Hc, IH. reflexivity.
Qed.

Lemma readlines_text_of_lines (ls : list str) :
  Forall no_nl ls ->
  readlines (text_of_lines ls) = map (fun l => l ++ [NL]) ls.
Proof.
  unfold text_of_lines.
  induction 1 as [|l ls Hl Hls IH]; simpl; [reflexivity|].
  rewrite <- app_assoc. simpl. rewrite readlines_line by exact Hl.
  rewrite IH. reflexivity.
Qed.

Lemma universal_newlines_no_cr (s : str) : no_cr s -> universal_newlines s = s.
Proof.
  induction 1 as [|c s Hc Hs IH]; simpl; [reflexivity|].
  apply N.eqb_neq in Hc. rewrite Hc, IH. reflexivity.
Qed.

Lemma split_nl_nonempty (s : str) : split_nl s <> [].
Proof.
  induction s as [|c s IH]; simpl; [discriminate|].
  destruct (N.eqb c NL); [discriminate|].
  destruct (split_nl s); [congruence | discriminate].
Qed.

Lemma join_split_nl (s : str) : join_lines (split_nl s) = s.
Proof.
  induction s as [|c s IH]; simpl; [reflexivity|].
  destruct (N.eqb c NL) eqn:E.
  - apply N.eqb_eq in E. subst c.
    pose proof (split_nl_nonempty s) as Hn.
    destruct (split_nl s) as [|l ls]; [congruence|].
    change (join_lines ([] :: l :: ls)) with ([] ++ NL :: join_lines (l :: ls)).
    rewrite IH. reflexivity.
  - pose proof (split_nl_nonempty s) as Hn.
    destruct (split_nl s) as [|l ls]; [congruence|].
    destruct ls as [|l' ls]; simpl in *; rewrite <- IH; reflexivity.
Qed.

Lemma split_nl_no_nl (s : str) : Forall no_nl (split_nl s).
Proof.
  induction s as [|c s IH]; simpl; [repeat constructor|].
  destruct (N.eqb c NL) eqn:E.
  - constructor; [constructor | exact IH].
  - apply N.eqb_neq in E.
    destruct (split_nl s) as [|l ls]; [repeat constructor; exact E|].
    inversion IH; subst. constructor; [constructor; assumption | assumption].
Qed.

Lemma split_nl_nl (s : str) : split_nl (NL :: s) = [] :: split_nl s.
Proof. reflexivity. Qed.

Lemma split_nl_cons (c : N) (s : str) :
  c <> NL ->
  split_nl (c :: s) = match split_nl s with
                      | l :: ls => (c :: l) :: ls
                      | [] => [[c]]
                      end.
Proof. intros H. apply N.eqb_neq in H. simpl. rewrite H. reflexivity. Qed.

Lemma split_nl_app (l rest : str) :
  no_nl l ->
  split_nl (l ++ NL :: rest) = l :: split_nl rest.
Proof.
  induction 1 as [|c l Hc Hl IH].
  - apply split_nl_nl.
  - rewrite <- app_comm_cons, split_nl_cons, IH by exact Hc. reflexivity.
Qed.

Lemma split_nl_single (l : str) : no_nl l -> split_nl l = [l].
Proof.
  induction 1 as [|c l Hc Hl IH]; [reflexivity|].
  rewrite split_nl_cons, IH by exact Hc. reflexivity.
Qed.

Lemma split_join_lines (ls : list str) :
  ls <> [] -> Forall no_nl ls -> split_nl (join_lines ls) = ls.
Proof.
  intros Hne H. induction H as [|l ls Hl Hls IH]; [congruence|].
  destruct ls as [|l' ls].
  - apply split_nl_single, Hl.
  - change (join_lines (l :: l' :: ls)) with (l ++ NL :: join_lines (l' :: ls)).
    rewrite split_nl_app by exact Hl. rewrite IH by discriminate. reflexivity.
Qed.

Lemma replace_newline_app (a b : str) :
  replace_newline (a ++ b) = replace_newline a ++ replace_newline b.
Proof. unfold replace_newline. apply flat_map_app. Qed.

Lemma replace_newline_no_nl (l : str) : no_nl l -> replace_newline l = l.
Proof.
  unfold replace_newline.
  induction 1 as [|c l Hc Hl IH]; simpl; [reflexivity|].
  apply N.eqb_neq in Hc. rewrite Hc, IH. reflexivity.
Qed.

(** What [write] makes of the lines of a value: the first as it is,
    each other one on its own line after a tab. *)
Lemma replace_newline_join (l : str) (ls : list str) :
  Forall no_nl (l :: ls) ->
  replace_newline (join_lines (l :: ls)) ++ [NL]
  = text_of_lines (l :: map (cons TAB) ls).
Proof.
  revert l. induction ls as [|l' ls IH]; intros l H.
  - inversion H; subst. simpl. rewrite replace_newline_no_nl by assumption.
    unfold text_of_lines. simpl. rewrite app_nil_r. reflexivity.
  - inversion H as [|? ? Hl H']; subst.
    change (join_lines (l :: l' :: ls)) with (l ++ NL :: join_lines (l' :: ls)).
    rewrite replace_newline_app, replace_newline_no_nl by assumption.
    change (replace_newline (NL :: join_lines (l' :: ls)))
      with ([NL; TAB] ++ replace_newline (join_lines (l' :: ls))).
    rewrite <- !app_assoc. rewrite IH by exact H'.
    unfold text_of_lines. simpl. rewrite <- !app_assoc. reflexivity.
Qed.

(** ** The patterns of [_read] on the lines [write] produces *)

Lemma before_last_snoc (c : N) (s : str) : before_last c (s ++ [c]) = Some s.
Proof.
  induction s as [|x s IH]; simpl.
  - rewrite N.eqb_refl. reflexivity.
  - rewrite IH. reflexivity.
Qed.

Lemma dot_run_no_nl (s : str) : no_nl s -> dot_run s = s.
Proof.
  induction 1 as [|c s Hc Hs IH]; simpl; [reflexivity|].
  apply N.eqb_neq in Hc. rewrite Hc, IH. reflexivity.
Qed.

Lemma sectcre_match_header (name : str) :
  name <> [] -> no_nl name ->
  sectcre_match (LBRACKET :: name ++ [RBRACKET]) = Some name.
Proof.
  intros Hne Hnl. unfold sectcre_match. rewrite N.eqb_refl.
  rewrite dot_run_no_nl.
  - rewrite before_last_snoc. destruct name; [congruence | reflexivity].
  - apply Forall_app. split; [exact Hnl | repeat constructor; discriminate].
Qed.

Lemma split_delimiter_key (key rest : str) (d : N) :
  forallb (fun c => negb (is_delimiter c)) key = true ->
  is_delimiter d = true ->
  split_delimiter (key ++ d :: rest) = Some (key, rest).
Proof.
  intros Hk Hd. induction key as [|c key IH]; simpl in *.
  - rewrite Hd. reflexivity.
  - apply andb_true_iff in Hk. destruct Hk as [Hc Hk].
    apply negb_true_iff in Hc. rewrite Hc, IH by exact Hk. reflexivity.
Qed.

(** A turn of the loop on a line that is neither blank nor a comment. *)
Lemma read_line_content (st : read_state) (line value : str) :
  is_comment (strip line) = false ->
  strip line = value ->
  value <> [] ->
  read_line st line =
  let cur_indent_level :=
    match first_nonspace line with Some i => i | None => O end in
  let fresh :=
    match sectcre_match value with
    | Some name => read_header st cur_indent_level name
    | None =>
        match cursect st with
        | None => Raise MissingSectionHeaderError
        | Some cur => read_option st cur_indent_level cur value
        end
    end in
  match cursect st, truthy (optname st) with
  | Some cur, Some name =>
      if Nat.ltb (indent_level st) cur_indent_level
      then append_value st cur name value
      else fresh
  | _, _ => fresh
  end.
Proof.
  intros Hc Hs Hne. unfold read_line. rewrite Hc, Hs.
  destruct value; [congruence | reflexivity].
Qed.

(** A turn of the loop on a blank line. *)
Lemma read_line_blank (st : read_state) (line : str) :
  strip line = [] ->
  read_line st line =
  match cursect st, truthy (optname st) with
  | Some cur, Some name => append_value st cur name []
  | _, _ => Return st
  end.
Proof.
  intros Hs. unfold read_line. rewrite Hs. simpl. rewrite Hs. reflexivity.
Qed.

Lemma inside_items st0 cur items added name :
  cursect_items (inside st0 cur items added name) cur = Some items.
Proof.
  destruct cur as [|n]; simpl; [reflexivity | apply dict_get_set].
Qed.

Lemma inside_set st0 cur items items' added name :
  set_cursect_items (inside st0 cur items added name) cur items'
  = inside st0 cur items' added name.
Proof.
  destruct cur as [|n]; unfold inside; simpl; [reflexivity|].
  rewrite dict_set_twice. reflexivity.
Qed.

Lemma inside_append st0 cur items added key lines value :
  dict_get key items = Some lines ->
  append_value (inside st0 cur items added (Some key)) cur key value
  = Return (inside st0 cur (dict_set key (lines ++ [value]) items) added
              (Some key)).
Proof.
  intros H. unfold append_value. rewrite inside_items, H, inside_set.
  reflexivity.
Qed.

Lemma lstrip_stripped (l : str) : stripped l = true -> lstrip l = l.
Proof.
  intros Hs. destruct l as [|c r]; [reflexivity|].
  destruct (@stripped_tight (c :: r) Hs ltac:(discriminate)) as [[c' [r' [E Hc]]] _].
  injection E as <- <-. simpl. rewrite Hc. reflexivity.
Qed.

Lemma strip_stripped (l : str) : stripped l = true -> strip l = l.
Proof. unfold stripped. apply str_eqb_eq. Qed.

(** The line of an entry is tight. *)
Lemma entry_line_tight (key l0 : str) :
  key <> [] -> stripped key = true -> stripped l0 = true ->
  tight (key ++ [EQUALS] ++ l0).
Proof.
  intros Hne Hk Hl. pose proof (@stripped_tight key Hk Hne) as Tk.
  destruct l0 as [|c r].
  - rewrite app_nil_r. apply tight_snoc; [exact Tk | reflexivity].
  - apply tight_app; [exact Tk | apply stripped_tight; [exact Hl | discriminate]].
Qed.

(** [_read] on the first line of an entry, inside a section. *)
Lemma read_entry_line st0 cur items added name key l0 :
  key <> [] ->
  stripped key = true ->
  forallb (fun c => negb (is_delimiter c)) key = true ->
  is_comment key = false ->
  sectcre_match (key ++ [EQUALS] ++ l0) = None ->
  stripped l0 = true ->
  existsb (element_eqb (EOpt (sectname st0) key)) added = false ->
  read_line (inside st0 cur items added name) (key ++ [EQUALS] ++ l0 ++ [NL])
  = Return (inside st0 cur (dict_set key [l0] items)
              (EOpt (sectname st0) key :: added) (Some key)).
Proof.
  intros Hne Hk Hd Hc Hsec Hl Hfresh.
  pose proof (@entry_line_tight key l0 Hne Hk Hl) as Ht.
  destruct (@tight_line _ Ht) as [Hstrip Hfirst].
  replace (key ++ [EQUALS] ++ l0 ++ [NL])
    with ((key ++ [EQUALS] ++ l0) ++ [NL])
    by (rewrite <- !app_assoc; reflexivity).
  assert (Hcom : is_comment (strip ((key ++ [EQUALS] ++ l0) ++ [NL])) = false).
  { rewrite Hstrip. destruct key; [congruence | exact Hc]. }
  assert (Hnonempty : key ++ [EQUALS] ++ l0 <> [])
    by (destruct key; [congruence | discriminate]).
  rewrite (@read_line_content _ _ _ Hcom Hstrip Hnonempty). cbv zeta.
  rewrite Hfirst, Hsec.
  assert (Hopt : read_option (inside st0 cur items added name) 0 cur
                   (key ++ [EQUALS] ++ l0)
                 = Return (inside st0 cur (dict_set key [l0] items)
                             (EOpt (sectname st0) key :: added) (Some key))).
  { unfold read_option, optcre_match.
    change (key ++ [EQUALS] ++ l0) with (key ++ EQUALS :: l0).
    rewrite (@split_delimiter_key key l0 EQUALS Hd eq_refl).
    destruct (@tight_strip key (@stripped_tight key Hk Hne)) as [_ Hr].
    rewrite Hr, Hr. rewrite (@lstrip_stripped l0 Hl), (@strip_stripped l0 Hl).
    unfold optionxform. cbn [sectname inside elements_added].
    rewrite Hfresh. rewrite inside_items, inside_set.
    destruct key; [congruence | reflexivity]. }
  cbn [cursect inside indent_level optname].
  destruct (truthy name); [cbn [Nat.ltb Nat.leb]|]; exact Hopt.
Qed.

(** [_read] on a line of continuation, inside an entry. *)
Lemma read_continuation_line st0 cur items added key lines l :
  key <> [] ->
  dict_get key items = Some lines ->
  stripped l = true ->
  is_comment l = false ->
  read_line (inside st0 cur items added (Some key)) (TAB :: l ++ [NL])
  = Return (inside st0 cur (dict_set key (lines ++ [l]) items) added
              (Some key)).
Proof.
  intros Hne Hget Hl Hc.
  destruct (@continuation_line l Hl) as [Hstrip Hfirst].
  destruct l as [|c r].
  - rewrite (@read_line_blank _ _ Hstrip). cbn [cursect inside optname].
    destruct key; [congruence|]. cbn [truthy].
    apply inside_append. exact Hget.
  - assert (Hcom : is_comment (strip (TAB :: (c :: r) ++ [NL])) = false)
      by (rewrite Hstrip; exact Hc).
    rewrite (@read_line_content _ _ _ Hcom Hstrip ltac:(discriminate)). cbv zeta.
    rewrite (Hfirst ltac:(discriminate)).
    cbn [cursect inside optname indent_level].
    destruct key; [congruence|]. cbn [truthy Nat.ltb Nat.leb].
    apply inside_append. exact Hget.
Qed.

(** [_read] on the empty line that ends a section. *)
Lemma read_blank_line st0 cur items added key lines :
  key <> [] ->
  dict_get key items = Some lines ->
  read_line (inside st0 cur items added (Some key)) [NL]
  = Return (inside st0 cur (dict_set key (lines ++ [[]]) items) added
              (Some key)).
Proof.
  intros Hne Hget. rewrite (@read_line_blank _ [NL] eq_refl).
  cbn [cursect inside optname].
  destruct key; [congruence|]. cbn [truthy].
  apply inside_append. exact Hget.
Qed.

Lemma read_blank_line_none st0 cur items added :
  read_line (inside st0 cur items added None) [NL]
  = Return (inside st0 cur items added None).
Proof. rewrite (@read_line_blank _ [NL] eq_refl). reflexivity. Qed.

(** ** Reading back an entry, a section, a document *)

Lemma dict_set_same {V} (k : str) (v : V) (d : dict V) :
  dict_get k d = Some v -> dict_set k v d = d.
Proof.
  induction d as [|[k' v'] d IH]; simpl; [discriminate|].
  destruct (str_eqb k k') eqn:E.
  - intros H. injection H as ->. reflexivity.
  - intros H. rewrite IH by exact H. reflexivity.
Qed.

Lemma read_lines_app (st : read_state) (a b : list str) :
  read_lines st (a ++ b)
  = match read_lines st a with
    | Return st' => read_lines st' b
    | Raise ex => Raise ex
    end.
Proof.
  revert st; induction a as [|l a IH]; intros st; simpl; [reflexivity|].
  destruct (read_line st l); [apply IH | reflexivity].
Qed.

Lemma read_continuations st0 cur added key (rest : list str) :
  key <> [] ->
  Forall (fun l => stripped l = true /\ is_comment l = false) rest ->
  forall items lines,
    dict_get key items = Some lines ->
    read_lines (inside st0 cur items added (Some key))
      (with_nl (map (cons TAB) rest))
    = Return (inside st0 cur (dict_set key (lines ++ rest) items) added
                (Some key)).
Proof.
  intros Hne H. induction H as [|l rest [Hl Hc] Hrest IH]; intros items lines Hget.
  - simpl. rewrite app_nil_r, (dict_set_same _ _ Hget). reflexivity.
  - simpl. rewrite (@read_continuation_line st0 cur items added key lines l
                      Hne Hget Hl Hc).
    rewrite (IH _ (lines ++ [l])) by apply dict_get_set.
    rewrite dict_set_twice, <- app_assoc. reflexivity.
Qed.

(** The conditions on a key and a value, spelt out. *)
Lemma key_ok_spec (key value : str) :
  key_ok key value = true ->
  key <> [] /\ single_line key = true /\ stripped key = true
  /\ forallb (fun c => negb (is_delimiter c)) key = true
  /\ is_comment key = false
  /\ sectcre_match (key ++ [EQUALS] ++ first_line value) = None.
Proof.
  unfold key_ok. destruct key as [|c key]; [discriminate|].
  rewrite !andb_true_iff, negb_true_iff.
  intros [[[[H1 H2] H3] H4] H5].
  destruct (sectcre_match _); [discriminate|].
  repeat split; try assumption; discriminate.
Qed.

Lemma value_ok_spec (value : str) :
  value_ok value = true ->
  exists l0 rest,
    split_nl value = l0 :: rest
    /\ Forall (fun l => single_line l = true /\ stripped l = true) (l0 :: rest)
    /\ Forall (fun l => stripped l = true /\ is_comment l = false) rest
    /\ rstrip value = value.
Proof.
  unfold value_ok. rewrite !andb_true_iff, str_eqb_eq.
  intros [[H1 H2] H3].
  pose proof (split_nl_nonempty value) as Hne.
  destruct (split_nl value) as [|l0 rest]; [congruence|].
  exists l0, rest. split; [reflexivity|].
  rewrite forallb_forall in H1, H2.
  assert (Hall : Forall (fun l => single_line l = true /\ stripped l = true)
                   (l0 :: rest)).
  { apply Forall_forall. intros l Hl. specialize (H1 l Hl).
    unfold line_ok in H1. apply andb_true_iff in H1. exact H1. }
  split; [exact Hall|]. split; [|exact H3].
  apply Forall_forall. intros l Hl. split.
  - rewrite Forall_forall in Hall. apply Hall. right. exact Hl.
  - apply negb_true_iff. apply H2. exact Hl.
Qed.

(** [_read] on the lines of an entry that the section does not hold
    yet. *)
Lemma read_entry st0 cur items added name key value :
  key_ok key value = true ->
  value_ok value = true ->
  dict_get key items = None ->
  existsb (element_eqb (EOpt (sectname st0) key)) added = false ->
  read_lines (inside st0 cur items added name) (with_nl (entry_lines (key, value)))
  = Return (inside st0 cur (items ++ [(key, split_nl value)])
              (EOpt (sectname st0) key :: added) (Some key)).
Proof.
  intros Hk Hv Hnew Hfresh.
  destruct (key_ok_spec _ _ Hk) as (Hne & _ & Hs & Hd & Hc & Hsec).
  destruct (value_ok_spec _ Hv) as (l0 & rest & Hsplit & Hall & Hrest & _).
  unfold entry_lines, first_line in *. cbn [fst snd]. rewrite Hsplit in *.
  cbn [hd] in Hsec. inversion Hall as [|? ? [_ Hl0] _]; subst.
  unfold with_nl. cbn [map read_lines].
  replace ((key ++ [EQUALS] ++ l0) ++ [NL]) with (key ++ [EQUALS] ++ l0 ++ [NL])
    by (rewrite <- !app_assoc; reflexivity).
  rewrite (@read_entry_line st0 cur items added name key l0
             Hne Hs Hd Hc Hsec Hl0 Hfresh).
  fold (with_nl (map (cons TAB) rest)).
  rewrite (@read_continuations st0 cur _ key rest Hne Hrest _ [l0])
    by apply dict_get_set.
  rewrite dict_set_twice.
  rewrite dict_set_new by (apply dict_get_none; exact Hnew).
  reflexivity.
Qed.

(** *** The entries of a section *)

Lemma element_eqb_eq (a b : element) : element_eqb a b = true <-> a = b.
Proof.
  destruct a as [s|[s|] o], b as [s'|[s'|] o']; simpl;
    rewrite ?andb_true_iff, ?str_eqb_eq;
    split; intros H; try discriminate; try congruence.
  - destruct H; congruence.
  - injection H as -> ->. split; reflexivity.
Qed.

Lemma element_in (x : element) (added : list element) :
  existsb (element_eqb x) added = true <-> In x added.
Proof.
  rewrite existsb_exists. split.
  - intros (y & Hy & E). apply element_eqb_eq in E. subst. exact Hy.
  - intros H. exists x. split; [exact H | apply element_eqb_eq; reflexivity].
Qed.

Lemma element_not_in (x : element) (added : list element) :
  ~ In x added -> existsb (element_eqb x) added = false.
Proof.
  intros H. destruct (existsb _ _) eqn:E; [|reflexivity].
  apply element_in in E. contradiction.
Qed.

Lemma distinct_NoDup (l : list str) : distinct l = true <-> NoDup l.
Proof.
  induction l as [|k l IH]; simpl.
  - split; [constructor | reflexivity].
  - rewrite andb_true_iff, negb_true_iff, IH. split.
    + intros [H1 H2]. constructor; [|exact H2].
      intros Hin. assert (existsb (str_eqb k) l = true); [|congruence].
      apply existsb_exists. exists k. split; [exact Hin | apply str_eqb_refl].
    + intros H. inversion H as [|? ? Hn Hd]; subst. split; [|exact Hd].
      destruct (existsb _ _) eqn:E; [|reflexivity].
      apply existsb_exists in E. destruct E as (y & Hy & E).
      apply str_eqb_eq in E. subst. contradiction.
Qed.

Lemma parsed_keys (items : dict str) : dict_keys (parsed items) = dict_keys items.
Proof. unfold parsed, dict_keys. rewrite map_map. reflexivity. Qed.

Lemma closed_snoc (items : dict str) (k v : str) :
  closed (items ++ [(k, v)]) = parsed items ++ [(k, split_nl v ++ [[]])].
Proof.
  induction items as [|kv items IH]; [reflexivity|].
  change ((kv :: items) ++ [(k, v)]) with (kv :: (items ++ [(k, v)])).
  cbn [closed parsed map app]. rewrite IH.
  destruct (items ++ [(k, v)]) eqn:E; [|reflexivity].
  destruct items; discriminate.
Qed.

Lemma closed_keys (items : dict str) : dict_keys (closed items) = dict_keys items.
Proof.
  induction items as [|kv [|kv' items] IH]; [reflexivity|reflexivity|].
  change (closed (kv :: kv' :: items))
    with ((fst kv, split_nl (snd kv)) :: closed (kv' :: items)).
  unfold dict_keys in *. cbn [map fst]. rewrite IH. reflexivity.
Qed.

Lemma added_options_in (sn : option str) (x : element) :
  forall items added,
    In x (added_options sn items added)
    <-> In x added \/ exists k, In k (dict_keys items) /\ x = EOpt sn k.
Proof.
  unfold added_options, dict_keys.
  induction items as [|kv items IH]; intros added; cbn [fold_left map].
  - split; [auto | intros [H|(k & [] & _)]; exact H].
  - rewrite IH. cbn [In]. split.
    + intros [[H|H]|(k & Hk & E)].
      * right. exists (fst kv). auto.
      * left. exact H.
      * right. exists k. auto.
    + intros [H|(k & [Hk|Hk] & E)].
      * left. right. exact H.
      * left. left. subst. reflexivity.
      * right. exists k. auto.
Qed.

Lemma read_entries st0 cur :
  forall (items : dict str) (have : dict (list str)) added name,
    forallb (fun kv => key_ok (fst kv) (snd kv) && value_ok (snd kv)) items
    = true ->
    NoDup (dict_keys have ++ dict_keys items) ->
    (forall k, In (EOpt (sectname st0) k) added -> In k (dict_keys have)) ->
    read_lines (inside st0 cur have added name)
      (with_nl (flat_map entry_lines items))
    = Return (inside st0 cur (have ++ parsed items)
                (added_options (sectname st0) items added)
                (last_key items name)).
Proof.
  induction items as [|[k v] items IH]; intros have added name Hok Hnd Hadd.
  - simpl. rewrite app_nil_r. reflexivity.
  - cbn [forallb fst snd] in Hok. apply andb_true_iff in Hok.
    destruct Hok as [Hkv Hok]. apply andb_true_iff in Hkv.
    destruct Hkv as [Hk Hv].
    cbn [flat_map]. unfold with_nl. rewrite map_app.
    fold (with_nl (entry_lines (k, v))).
    fold (with_nl (flat_map entry_lines items)).
    rewrite read_lines_app.
    assert (Hnew : ~ In k (dict_keys have)).
    { intros Hin. unfold dict_keys in Hnd. cbn [map fst] in Hnd.
      apply NoDup_remove_2 in Hnd. apply Hnd. apply in_or_app. left. exact Hin. }
    rewrite (@read_entry st0 cur have added name k v Hk Hv).
    + rewrite IH.
      * unfold parsed. cbn [map fst snd]. rewrite <- app_assoc. reflexivity.
      * exact Hok.
      * unfold dict_keys in *. rewrite map_app. cbn [map fst].
        rewrite <- app_assoc. exact Hnd.
      * intros k' [E|Hin].
        -- injection E as ->. unfold dict_keys. rewrite map_app.
           apply in_or_app. right. left. reflexivity.
        -- unfold dict_keys. rewrite map_app. apply in_or_app. left.
           apply Hadd. exact Hin.
    + apply dict_get_none. exact Hnew.
    + apply element_not_in. intros Hin. apply Hnew, Hadd. exact Hin.
Qed.

Lemma items_ok_spec (items : dict str) :
  items_ok items = true ->
  NoDup (dict_keys items)
  /\ forallb (fun kv => key_ok (fst kv) (snd kv) && value_ok (snd kv)) items
     = true.
Proof.
  unfold items_ok. rewrite andb_true_iff, distinct_NoDup. auto.
Qed.

(** The entries of a section and the blank line after them. *)
Lemma read_block st0 cur (items : dict str) added :
  items_ok items = true ->
  (forall k, ~ In (EOpt (sectname st0) k) added) ->
  read_lines (inside st0 cur [] added None)
    (with_nl (flat_map entry_lines items ++ [[]]))
  = Return (inside st0 cur (closed items)
              (added_options (sectname st0) items added)
              (last_key items None)).
Proof.
  intros Hok Hadd. destruct (items_ok_spec _ Hok) as [Hnd Hall].
  unfold with_nl. rewrite map_app. rewrite read_lines_app.
  fold (with_nl (flat_map entry_lines items)).
  rewrite (@read_entries st0 cur items [] added None Hall).
  - cbn [app map read_lines].
    destruct items as [|kv items] using rev_ind.
    + cbn. apply f_equal. reflexivity.
    + clear IHitems. destruct kv as [k v].
      unfold last_key. rewrite fold_left_app. cbn [fold_left fst].
      assert (Hk : k <> []).
      { rewrite forallb_app in Hall. apply andb_true_iff in Hall.
        destruct Hall as [_ Hall]. cbn in Hall.
        rewrite andb_true_r in Hall. apply andb_true_iff in Hall.
        destruct Hall as [Hk _]. apply key_ok_spec in Hk. tauto. }
      assert (Hnew : ~ In k (dict_keys (parsed items))).
      { rewrite parsed_keys. unfold dict_keys in *. rewrite map_app in Hnd.
        cbn [map fst] in Hnd. apply NoDup_remove_2 in Hnd.
        rewrite app_nil_r in Hnd. exact Hnd. }
      assert (Hget : dict_get k (parsed (items ++ [(k, v)])) = Some (split_nl v)).
      { unfold parsed. rewrite map_app. cbn [map fst snd].
        apply dict_get_app. exact Hnew. }
      rewrite (@read_blank_line st0 cur _ _ k (split_nl v) Hk Hget).
      rewrite closed_snoc. unfold parsed at 1. rewrite map_app. cbn [map fst snd].
      fold (parsed items). rewrite dict_set_app by exact Hnew. reflexivity.
  - exact Hnd.
  - intros k Hin. exfalso. exact (Hadd k Hin).
Qed.

(** *** Section headers and whole documents *)

Lemma name_ok_spec (name : str) :
  name_ok name = true -> name <> [] /\ no_nl name /\ no_cr name.
Proof.
  unfold name_ok. destruct name as [|c name]; [discriminate|].
  intros H. apply single_line_spec in H. split; [discriminate | exact H].
Qed.

Lemma header_tight (name : str) : tight (LBRACKET :: name ++ [RBRACKET]).
Proof.
  split.
  - exists LBRACKET, (name ++ [RBRACKET]). split; reflexivity.
  - exists (LBRACKET :: name), RBRACKET. split; reflexivity.
Qed.

Lemma read_header_line (st : read_state) (name : str) :
  indent_level st = 0%nat -> e st = false ->
  name_ok name = true -> name <> DEFAULTSECT ->
  ~ In name (dict_keys (rs_sections st)) ->
  read_line st ((LBRACKET :: name ++ [RBRACKET]) ++ [NL])
  = Return (inside (mkRead (rs_sections st ++ [(name, [])]) (rs_defaults st)
                      [] None (Some name) None 0 false)
              (InSection name) [] (ESect name :: elements_added st) None).
Proof.
  intros Hi He Hn Hd Hnew.
  destruct (name_ok_spec _ Hn) as (Hne & Hnl & _).
  destruct (@tight_line _ (header_tight name)) as [Hs Hf].
  rewrite (@read_line_content st _ (LBRACKET :: name ++ [RBRACKET]));
    [| rewrite Hs; reflexivity | exact Hs | discriminate].
  cbv zeta. rewrite Hf, (@sectcre_match_header name Hne Hnl), Hi.
  assert (Hh : read_header st 0 name
               = Return (inside (mkRead (rs_sections st ++ [(name, [])])
                                   (rs_defaults st) [] None (Some name) None
                                   0 false)
                           (InSection name) []
                           (ESect name :: elements_added st) None)).
  { unfold read_header.
    rewrite (proj2 (dict_mem_false name (rs_sections st)) Hnew).
    destruct (str_eqb name DEFAULTSECT) eqn:E;
      [exfalso; apply str_eqb_eq in E; exact (Hd E)|].
    unfold inside, set_cursect_items.
    cbn [rs_sections rs_defaults sectname].
    rewrite He, (@dict_set_new _ name [] (rs_sections st) Hnew).
    apply f_equal. f_equal. symmetry.
    exact (@dict_set_app _ name [] [] (rs_sections st) [] Hnew). }
  destruct (cursect st); [|exact Hh].
  destruct (truthy (optname st)); exact Hh.
Qed.

Lemma inside_ready st0 name items added key :
  ~ In name (dict_keys (rs_sections st0)) ->
  (forall s k, In (EOpt (Some s) k) added ->
               In s (dict_keys (rs_sections st0 ++ [(name, items)]))
               \/ s = DEFAULTSECT) ->
  ready (inside (mkRead (rs_sections st0 ++ [(name, [])]) (rs_defaults st0)
                   [] None (Some name) None 0 false)
           (InSection name) items added key)
        (rs_sections st0 ++ [(name, items)]) (rs_defaults st0).
Proof.
  intros Hnew Hadd. unfold ready, inside, set_cursect_items.
  cbn [rs_sections rs_defaults sectname indent_level e elements_added].
  split; [exact (@dict_set_app _ name items [] (rs_sections st0) [] Hnew)|].
  split; [reflexivity|]. split; [reflexivity|]. split; [reflexivity|].
  exact Hadd.
Qed.

Lemma keys_app {V} (a b : dict V) : dict_keys (a ++ b) = dict_keys a ++ dict_keys b.
Proof. apply map_app. Qed.

(** [_read] on the lines of a section that the parser does not hold
    yet. *)
Lemma read_section (st : read_state) sections defaults name (items : dict str) :
  ready st sections defaults ->
  name_ok name = true -> name <> DEFAULTSECT ->
  ~ In name (dict_keys sections) ->
  items_ok items = true ->
  exists st',
    read_lines st (with_nl (section_lines name items)) = Return st'
    /\ ready st' (sections ++ [(name, closed items)]) defaults.
Proof.
  intros (HS & HD & Hi & He & Hadd) Hn Hd Hnew Hok. subst sections defaults.
  unfold section_lines, with_nl. cbn [map read_lines].
  rewrite (@read_header_line st name Hi He Hn Hd Hnew).
  fold (with_nl (flat_map entry_lines items ++ [[]])).
  rewrite read_block; [| exact Hok |].
  - eexists. split; [reflexivity|].
    apply (@inside_ready st name (closed items) _ _ Hnew).
    intros s k Hin. cbn [sectname] in Hin.
    apply added_options_in in Hin. rewrite keys_app.
    destruct Hin as [[Hin|Hin]|(k' & _ & Hin)].
    + discriminate.
    + destruct (Hadd s k Hin) as [H|H]; [left|right; exact H].
      apply in_or_app. left. exact H.
    + injection Hin as -> _. left. apply in_or_app. right. left. reflexivity.
  - cbn [sectname]. intros k [Hin|Hin]; [discriminate|].
    destruct (Hadd name k Hin) as [H|H]; [exact (Hnew H) | exact (Hd H)].
Qed.

Lemma read_sections :
  forall (secs : dict (dict str)) (st : read_state) sections defaults,
    ready st sections defaults ->
    NoDup (dict_keys sections ++ dict_keys secs) ->
    forallb section_ok secs = true ->
    exists st',
      read_lines st (with_nl (sections_lines secs)) = Return st'
      /\ ready st' (sections
                    ++ map (fun sec => (fst sec, closed (snd sec))) secs)
               defaults.
Proof.
  induction secs as [|[name items] secs IH]; intros st sections defaults Hr Hnd Hok.
  - exists st. split; [reflexivity|]. cbn [map]. rewrite app_nil_r. exact Hr.
  - cbn [forallb] in Hok. apply andb_true_iff in Hok. destruct Hok as [Hsec Hok].
    unfold section_ok in Hsec. cbn [fst snd] in Hsec.
    rewrite !andb_true_iff, negb_true_iff, str_eqb_neq in Hsec.
    destruct Hsec as [[Hn Hd] Hitems].
    assert (Hnew : ~ In name (dict_keys sections)).
    { intros Hin. unfold dict_keys in Hnd. cbn [map fst] in Hnd.
      apply NoDup_remove_2 in Hnd. apply Hnd, in_or_app. left. exact Hin. }
    destruct (@read_section st sections defaults name items Hr Hn Hd Hnew Hitems)
      as (st1 & H1 & Hr1).
    destruct (IH st1 _ _ Hr1) as (st2 & H2 & Hr2).
    + rewrite keys_app. unfold dict_keys in *. cbn [map fst] in *.
      rewrite <- app_assoc. exact Hnd.
    + exact Hok.
    + exists st2. split.
      * unfold sections_lines. cbn [flat_map fst snd]. unfold with_nl.
        rewrite map_app, read_lines_app.
        fold (with_nl (section_lines name items)). rewrite H1. exact H2.
      * cbn [map fst snd]. rewrite <- app_assoc in Hr2. exact Hr2.
Qed.

(** The default section, which a saved file starts with. *)
Lemma read_defaults (items : dict str) :
  items_ok items = true ->
  exists st',
    read_lines read_start (with_nl (section_lines DEFAULTSECT items)) = Return st'
    /\ ready st' [] (closed items).
Proof.
  intros Hok. unfold section_lines, with_nl. cbn [map read_lines].
  assert (Hh : read_line read_start ((LBRACKET :: DEFAULTSECT ++ [RBRACKET]) ++ [NL])
               = Return (inside (mkRead [] [] [] None (Some DEFAULTSECT) None
                                   0 false) InDefaults [] [] None))
    by (vm_compute; reflexivity).
  rewrite Hh. fold (with_nl (flat_map entry_lines items ++ [[]])).
  rewrite read_block; [| exact Hok | intros k []].
  eexists. split; [reflexivity|].
  unfold ready, inside, set_cursect_items.
  cbn [rs_sections rs_defaults sectname indent_level e elements_added].
  repeat split. intros s k Hin. apply added_options_in in Hin.
  destruct Hin as [[]|(k' & _ & Hin)]. injection Hin as -> _. right. reflexivity.
Qed.

(** *** The text of a saved file, line by line *)

Lemma text_of_lines_app (a b : list str) :
  text_of_lines (a ++ b) = text_of_lines a ++ text_of_lines b.
Proof. unfold text_of_lines. rewrite map_app, concat_app. reflexivity. Qed.

Lemma text_of_lines_flat_map {A} (f : A -> list str) (l : list A) :
  text_of_lines (flat_map f l) = concat (map (fun x => text_of_lines (f x)) l).
Proof.
  induction l as [|x l IH]; [reflexivity|].
  cbn [flat_map map concat]. rewrite text_of_lines_app, IH. reflexivity.
Qed.

Lemma entry_text_lines (kv : str * str) :
  entry_text kv = text_of_lines (entry_lines kv).
Proof.
  unfold entry_text, entry_lines.
  pose proof (split_nl_nonempty (snd kv)) as Hne.
  pose proof (split_nl_no_nl (snd kv)) as Hnl.
  pose proof (join_split_nl (snd kv)) as Hj.
  destruct (split_nl (snd kv)) as [|l0 rest]; [congruence|].
  rewrite <- Hj.
  change (fst kv ++ [EQUALS] ++ replace_newline (join_lines (l0 :: rest)) ++ [NL])
    with (fst kv ++ [EQUALS]
          ++ (replace_newline (join_lines (l0 :: rest)) ++ [NL])).
  rewrite (@replace_newline_join l0 rest Hnl).
  unfold text_of_lines. cbn [map concat]. rewrite <- !app_assoc. reflexivity.
Qed.

Lemma section_text_lines (name : str) (items : dict str) :
  section_text name items = text_of_lines (section_lines name items).
Proof.
  unfold section_text, section_lines.
  change ((LBRACKET :: name ++ [RBRACKET]) :: flat_map entry_lines items ++ [[]])
    with ([LBRACKET :: name ++ [RBRACKET]] ++ flat_map entry_lines items ++ [[]]).
  rewrite !text_of_lines_app, text_of_lines_flat_map.
  rewrite (map_ext _ _ entry_text_lines).
  unfold text_of_lines. cbn [map concat app].
  rewrite ?app_nil_r, <- ?app_assoc. reflexivity.
Qed.

Lemma document_text_lines (p : ConfigParser) :
  document_text p = text_of_lines (document_lines p).
Proof.
  unfold document_text, document_lines, sections_lines.
  rewrite text_of_lines_app, text_of_lines_flat_map.
  rewrite (map_ext _ _ (fun sec => section_text_lines (fst sec) (snd sec))).
  destruct (_defaults p); [reflexivity|].
  rewrite section_text_lines. reflexivity.
Qed.

Lemma single_line_app (a b : str) :
  single_line (a ++ b) = single_line a && single_line b.
Proof. apply forallb_app. Qed.

Lemma entry_lines_single (k v : str) :
  key_ok k v = true -> value_ok v = true ->
  Forall (fun l => single_line l = true) (entry_lines (k, v)).
Proof.
  intros Hk Hv.
  destruct (key_ok_spec _ _ Hk) as (_ & Hs & _).
  destruct (value_ok_spec _ Hv) as (l0 & rest & Hsplit & Hall & _).
  unfold entry_lines. cbn [fst snd]. rewrite Hsplit.
  inversion Hall as [|? ? [Hl0 _] Hrest]; subst. constructor.
  - rewrite !single_line_app, Hs, Hl0. reflexivity.
  - apply Forall_map. revert Hrest. apply Forall_impl.
    intros l [Hl _]. exact Hl.
Qed.

Lemma section_lines_single (name : str) (items : dict str) :
  name_ok name = true -> items_ok items = true ->
  Forall (fun l => single_line l = true) (section_lines name items).
Proof.
  intros Hn Hok. unfold section_lines. constructor.
  - change (LBRACKET :: name ++ [RBRACKET]) with ([LBRACKET] ++ name ++ [RBRACKET]).
    rewrite !single_line_app. unfold name_ok in Hn.
    destruct name; [discriminate|]. rewrite Hn. reflexivity.
  - apply Forall_app. split; [|constructor; [reflexivity|constructor]].
    apply Forall_flat_map. destruct (items_ok_spec _ Hok) as [_ Hall].
    rewrite forallb_forall in Hall. apply Forall_forall. intros [k v] Hin.
    specialize (Hall _ Hin). cbn [fst snd] in Hall.
    apply andb_true_iff in Hall. destruct Hall as [Hk Hv].
    exact (entry_lines_single _ _ Hk Hv).
Qed.

Lemma document_ok_spec (p : ConfigParser) :
  document_ok p = true ->
  NoDup (dict_keys (_sections p))
  /\ forallb section_ok (_sections p) = true
  /\ items_ok (_defaults p) = true.
Proof.
  unfold document_ok. rewrite !andb_true_iff, distinct_NoDup.
  intros [[H1 H2] H3]. auto.
Qed.

Lemma document_lines_single (p : ConfigParser) :
  document_ok p = true ->
  Forall (fun l => single_line l = true) (document_lines p).
Proof.
  intros Hok. destruct (document_ok_spec _ Hok) as (_ & Hsecs & Hdef).
  unfold document_lines. apply Forall_app. split.
  - destruct (_defaults p) eqn:E; [constructor|]. rewrite <- E in *.
    apply section_lines_single; [reflexivity | exact Hdef].
  - unfold sections_lines. apply Forall_flat_map.
    rewrite forallb_forall in Hsecs. apply Forall_forall. intros sec Hin.
    specialize (Hsecs _ Hin). unfold section_ok in Hsecs.
    rewrite !andb_true_iff in Hsecs. destruct Hsecs as [[Hn _] Hitems].
    apply section_lines_single; assumption.
Qed.

Lemma text_of_lines_no_cr (ls : list str) :
  Forall (fun l => single_line l = true) ls -> no_cr (text_of_lines ls).
Proof.
  induction 1 as [|l ls Hl _ IH]; [constructor|].
  unfold text_of_lines. cbn [map concat]. fold (text_of_lines ls).
  apply single_line_spec in Hl. destruct Hl as [_ Hl].
  unfold no_cr in *. rewrite <- app_assoc. apply Forall_app. split; [exact Hl|].
  constructor; [discriminate | exact IH].
Qed.

Lemma join_lines_snoc (ls : list str) (l : str) :
  ls <> [] -> join_lines (ls ++ [l]) = join_lines ls ++ NL :: l.
Proof.
  induction ls as [|a ls IH]; [congruence|]. intros _.
  destruct ls as [|b ls]; [reflexivity|].
  change (join_lines ((a :: b :: ls) ++ [l]))
    with (a ++ NL :: join_lines ((b :: ls) ++ [l])).
  rewrite IH by discriminate.
  change (join_lines (a :: b :: ls)) with (a ++ NL :: join_lines (b :: ls)).
  rewrite <- app_assoc. reflexivity.
Qed.

Lemma join_values_closed (items : dict str) :
  Forall (fun kv => rstrip (snd kv) = snd kv) items ->
  join_values (closed items) = items.
Proof.
  induction 1 as [|[k v] items Hv Hrest IH]; [reflexivity|].
  cbn [snd] in Hv. destruct items as [|kv items].
  - cbn [closed join_values map fst snd].
    rewrite (@join_lines_snoc (split_nl v) [] (split_nl_nonempty v)).
    rewrite join_split_nl, rstrip_app_space by reflexivity.
    rewrite Hv. reflexivity.
  - change (closed ((k, v) :: kv :: items))
      with ((k, split_nl v) :: closed (kv :: items)).
    unfold join_values in *. cbn [map fst snd]. rewrite IH.
    rewrite join_split_nl, Hv. reflexivity.
Qed.

Lemma items_ok_rstrip (items : dict str) :
  items_ok items = true ->
  Forall (fun kv => rstrip (snd kv) = snd kv) items.
Proof.
  intros Hok. destruct (items_ok_spec _ Hok) as [_ Hall].
  rewrite forallb_forall in Hall. apply Forall_forall. intros kv Hin.
  specialize (Hall _ Hin). apply andb_true_iff in Hall.
  destruct Hall as [_ Hv]. apply value_ok_spec in Hv.
  destruct Hv as (? & ? & _ & _ & _ & Hv). exact Hv.
Qed.

(** [read] gives back a document from its saved text. *)
Lemma read_document (p : ConfigParser) :
  document_ok p = true -> read (Some (document_text p)) = Return p.
Proof.
  intros Hok. pose proof (document_lines_single _ Hok) as Hsingle.
  destruct (document_ok_spec _ Hok) as (Hnd & Hsecs & Hdef).
  unfold read. rewrite document_text_lines.
  rewrite universal_newlines_no_cr by (apply text_of_lines_no_cr; exact Hsingle).
  rewrite readlines_text_of_lines.
  2:{ revert Hsingle. apply Forall_impl. intros l Hl.
      apply single_line_spec in Hl. tauto. }
  fold (with_nl (document_lines p)).
  assert (H0 : exists st0,
             read_lines read_start
               (with_nl match _defaults p with
                        | [] => []
                        | _ :: _ => section_lines DEFAULTSECT (_defaults p)
                        end) = Return st0
             /\ ready st0 [] (closed (_defaults p))).
  { destruct (_defaults p) eqn:E.
    - exists read_start. split; [reflexivity|].
      unfold ready. cbn. repeat split. intros s k [].
    - rewrite <- E in *. apply read_defaults. exact Hdef. }
  destruct H0 as (st0 & H0 & Hr0).
  destruct (@read_sections (_sections p) st0 [] _ Hr0 Hnd Hsecs)
    as (st1 & H1 & Hr1).
  unfold _read, document_lines, with_nl. rewrite map_app, read_lines_app.
  fold (with_nl (sections_lines (_sections p))).
  unfold with_nl in H0. rewrite H0, H1.
  destruct Hr1 as (HS & HD & _ & He & _). rewrite He, HS, HD.
  cbn [app]. rewrite map_map. cbn [fst snd].
  rewrite (join_values_closed (items_ok_rstrip _ Hdef)).
  destruct p as [secs defs]. cbn [_sections _defaults] in *.
  apply f_equal. apply (f_equal (fun s => mkParser s defs)).
  clear - Hsecs. induction secs as [|[n items] secs IH]; [reflexivity|].
  cbn [forallb] in Hsecs. apply andb_true_iff in Hsecs.
  destruct Hsecs as [Hsec Hsecs]. unfold section_ok in Hsec.
  rewrite !andb_true_iff in Hsec. destruct Hsec as [_ Hitems].
  cbn [map fst snd] in *.
  rewrite (join_values_closed (items_ok_rstrip _ Hitems)), IH by exact Hsecs.
  reflexivity.
Qed.

(** ** What [_read] makes of the lines of a file *)

(** *** White space, once more *)

Lemma rstrip_idem (s : str) : rstrip (rstrip s) = rstrip s.
Proof.
  induction s as [|c s IH]; [reflexivity|].
  cbn [rstrip]. destruct (rstrip s) as [|d r] eqn:E.
  - destruct (isspace c) eqn:Ec; [reflexivity|].
    cbn [rstrip]. rewrite Ec. reflexivity.
  - change (rstrip (c :: d :: r))
      with (match rstrip (d :: r) with
            | [] => if isspace c then [] else [c]
            | x => c :: x
            end).
    rewrite IH. reflexivity.
Qed.

Lemma lstrip_head (s : str) :
  lstrip s = [] \/ exists c r, lstrip s = c :: r /\ isspace c = false.
Proof.
  induction s as [|c s IH]; [left; reflexivity|].
  cbn [lstrip]. destruct (isspace c) eqn:E; [exact IH|].
  right. exists c, s. split; [reflexivity | exact E].
Qed.

Lemma rstrip_head (c : N) (r : str) :
  isspace c = false -> exists r', rstrip (c :: r) = c :: r'.
Proof.
  intros Hc. cbn [rstrip]. destruct (rstrip r) as [|d r'].
  - rewrite Hc. exists []. reflexivity.
  - exists (d :: r'). reflexivity.
Qed.

Lemma lstrip_nonspace (c : N) (r : str) :
  isspace c = false -> lstrip (c :: r) = c :: r.
Proof. intros Hc. cbn [lstrip]. rewrite Hc. reflexivity. Qed.

Lemma strip_head (s : str) :
  strip s = [] \/ exists c r, strip s = c :: r /\ isspace c = false.
Proof.
  unfold strip. destruct (lstrip_head s) as [E|(c & r & E & Hc)]; rewrite E.
  - left. reflexivity.
  - right. destruct (@rstrip_head c r Hc) as [r' Hr]. exists c, r'. auto.
Qed.

Lemma strip_idem (s : str) : strip (strip s) = strip s.
Proof.
  destruct (strip_head s) as [E|(c & r & E & Hc)].
  - rewrite E. reflexivity.
  - unfold strip at 1. rewrite E, (@lstrip_nonspace c r Hc), <- E.
    unfold strip. apply rstrip_idem.
Qed.

Lemma stripped_strip (s : str) : stripped (strip s) = true.
Proof. unfold stripped. apply str_eqb_eq, strip_idem. Qed.

Lemma rstrip_decomp (s : str) : exists ws, s = rstrip s ++ ws.
Proof.
  induction s as [|c s [ws IH]]; [exists []; reflexivity|].
  cbn [rstrip]. destruct (rstrip s) as [|d r].
  - destruct (isspace c).
    + exists (c :: s). reflexivity.
    + exists ws. cbn [app] in *. rewrite <- IH. reflexivity.
  - exists ws. cbn [app] in *. rewrite <- IH. reflexivity.
Qed.

Lemma lstrip_incl (P : N -> Prop) (s : str) :
  Forall P s -> Forall P (lstrip s).
Proof.
  induction 1 as [|c s Hc Hs IH]; [constructor|].
  cbn [lstrip]. destruct (isspace c); [exact IH | constructor; assumption].
Qed.

Lemma rstrip_incl (P : N -> Prop) (s : str) :
  Forall P s -> Forall P (rstrip s).
Proof.
  induction 1 as [|c s Hc Hs IH]; [constructor|].
  cbn [rstrip]. destruct (rstrip s) as [|d r].
  - destruct (isspace c); constructor; [exact Hc | constructor].
  - constructor; assumption.
Qed.

Lemma strip_incl (P : N -> Prop) (s : str) :
  Forall P s -> Forall P (strip s).
Proof. intros H. apply rstrip_incl, lstrip_incl, H. Qed.

Lemma lstrip_app_space (b : str) (c : N) :
  isspace c = true ->
  lstrip (b ++ [c]) = lstrip b ++ [c] \/ (lstrip (b ++ [c]) = [] /\ lstrip b = []).
Proof.
  intros Hc. induction b as [|x b IH].
  - right. cbn. rewrite Hc. auto.
  - cbn [app lstrip]. destruct (isspace x); [exact IH|]. left. reflexivity.
Qed.

Lemma strip_app_space (b : str) (c : N) :
  isspace c = true -> strip (b ++ [c]) = strip b.
Proof.
  intros Hc. unfold strip.
  destruct (@lstrip_app_space b c Hc) as [E|[E1 E2]].
  - rewrite E. apply rstrip_app_space, Hc.
  - rewrite E1, E2. reflexivity.
Qed.

(** *** The lines of a file *)

Lemma forallb_Forall {A} (f : A -> bool) (l : list A) :
  forallb f l = true <-> Forall (fun x => f x = true) l.
Proof. rewrite forallb_forall, Forall_forall. reflexivity. Qed.

Lemma single_line_strip (s : str) :
  single_line s = true -> single_line (strip s) = true.
Proof. unfold single_line. rewrite !forallb_Forall. apply strip_incl. Qed.

Lemma file_line_strip (l : str) :
  file_line l -> single_line (strip l) = true.
Proof.
  intros (b & Hb & [->| ->]).
  - apply single_line_strip, Hb.
  - rewrite strip_app_space by reflexivity. apply single_line_strip, Hb.
Qed.

Lemma readlines_file_lines (text : str) :
  no_cr text -> Forall file_line (readlines text).
Proof.
  induction 1 as [|c text Hc Ht IH]; [constructor|].
  cbn [readlines]. destruct (N.eqb c NL) eqn:E.
  - constructor; [|exact IH]. apply N.eqb_eq in E. subst.
    exists []. split; [reflexivity | right; reflexivity].
  - assert (Hs : single_line [c] = true).
    { unfold single_line, is_linebreak. cbn [forallb]. rewrite E.
      apply N.eqb_neq in Hc. rewrite Hc. reflexivity. }
    destruct (readlines text) as [|l ls].
    + constructor; [|constructor]. exists [c]. auto.
    + inversion IH as [|? ? (b & Hb & Hl) Hls]; subst. constructor; [|exact Hls].
      exists (c :: b). split.
      * change (c :: b) with ([c] ++ b). rewrite single_line_app, Hs, Hb.
        reflexivity.
      * destruct Hl as [->| ->]; [left | right]; reflexivity.
Qed.

Lemma universal_newlines_cr (text : str) : no_cr (universal_newlines text).
Proof.
  assert (H : forall n text, (List.length text <= n)%nat ->
                             no_cr (universal_newlines text)).
  { induction n as [|n IH]; intros [|c rest] Hlen; try constructor;
      cbn [List.length] in Hlen; try lia.
    cbn [universal_newlines]. destruct (N.eqb c CR) eqn:E.
    - constructor; [discriminate|]. destruct rest as [|c' rest'].
      + constructor.
      + destruct (N.eqb c' NL); apply IH; cbn [List.length] in *; lia.
    - constructor; [apply N.eqb_neq; exact E | apply IH; lia]. }
  exact (H (List.length text) text (Nat.le_refl _)).
Qed.

(** *** Headers and options *)

Lemma before_last_none (c : N) (s : str) :
  before_last c s = None <-> ~ In c s.
Proof.
  induction s as [|x s IH]; cbn [before_last In]; [tauto|].
  destruct (before_last c s) as [p|].
  - split; [discriminate|]. intros H. exfalso. apply H. right.
    destruct (in_dec N.eq_dec c s) as [Hin|Hn]; [exact Hin|].
    apply IH in Hn. discriminate.
  - destruct (N.eqb x c) eqn:E.
    + apply N.eqb_eq in E. split; [discriminate|]. intros H. exfalso. auto.
    + apply N.eqb_neq in E. split; [|reflexivity]. intros _ [H|H]; [auto|].
      apply IH in H; [exact H | reflexivity].
Qed.

Lemma before_last_incl (P : N -> Prop) (c : N) (s p : str) :
  before_last c s = Some p -> Forall P s -> Forall P p.
Proof.
  revert p; induction s as [|x s IH]; intros p; cbn [before_last]; [discriminate|].
  intros H Hs. inversion Hs; subst. destruct (before_last c s) as [q|].
  - injection H as <-. constructor; auto.
  - destruct (N.eqb x c); [injection H as <-; constructor | discriminate].
Qed.

Lemma dot_run_incl (P : N -> Prop) (s : str) : Forall P s -> Forall P (dot_run s).
Proof.
  induction 1 as [|c s Hc Hs IH]; [constructor|].
  cbn [dot_run]. destruct (N.eqb c NL); constructor; assumption.
Qed.

Lemma existsb_in (c : N) (s : str) : existsb (N.eqb c) s = true <-> In c s.
Proof.
  rewrite existsb_exists. split.
  - intros (x & Hx & E). apply N.eqb_eq in E. subst. exact Hx.
  - intros H. exists c. split; [exact H | apply N.eqb_refl].
Qed.

Lemma sectcre_match_none (s : str) :
  no_nl s -> (sectcre_match s = None <-> header_like s = false).
Proof.
  intros Hnl. destruct s as [|c [|h r]]; cbn [sectcre_match header_like].
  - tauto.
  - destruct (N.eqb c LBRACKET); cbn; tauto.
  - destruct (N.eqb c LBRACKET); [|tauto]. cbn [andb].
    inversion Hnl as [|? ? _ Hnl']; subst. rewrite (@dot_run_no_nl (h :: r) Hnl').
    cbn [before_last].
    destruct (before_last RBRACKET r) as [p|] eqn:E.
    + split; [discriminate|]. intros H. exfalso.
      assert (Hin : ~ In RBRACKET r).
      { intros Hin. apply existsb_in in Hin. congruence. }
      apply before_last_none in Hin. congruence.
    + apply before_last_none in E.
      assert (Hex : existsb (N.eqb RBRACKET) r = false).
      { destruct (existsb _ _) eqn:Ex; [|reflexivity].
        apply existsb_in in Ex. contradiction. }
      rewrite Hex. destruct (N.eqb h RBRACKET); tauto.
Qed.

Lemma sectcre_match_name (s name : str) :
  single_line s = true -> sectcre_match s = Some name -> name_ok name = true.
Proof.
  intros Hs. unfold sectcre_match. destruct s as [|c rest]; [discriminate|].
  destruct (N.eqb c LBRACKET); [|discriminate].
  destruct (before_last RBRACKET (dot_run rest)) as [[|h header]|] eqn:E;
    try discriminate.
  intros H. injection H as <-. unfold name_ok.
  unfold single_line in *. rewrite forallb_Forall in *.
  inversion Hs; subst.
  eapply before_last_incl; [exact E|]. apply dot_run_incl. assumption.
Qed.

Lemma split_delimiter_spec (s a b : str) :
  split_delimiter s = Some (a, b) ->
  exists d, s = a ++ d :: b /\ is_delimiter d = true
            /\ forallb (fun c => negb (is_delimiter c)) a = true.
Proof.
  revert a; induction s as [|c s IH]; intros a; cbn [split_delimiter];
    [discriminate|].
  destruct (is_delimiter c) eqn:E.
  - intros H. injection H as <- <-. exists c. auto.
  - destruct (split_delimiter s) as [[a' b']|]; [|discriminate].
    intros H. injection H as <- <-.
    destruct (IH a' eq_refl) as (d & -> & Hd & Ha).
    exists d. cbn [forallb app]. rewrite E, Ha. auto.
Qed.

(** *** The dictionaries [_read] builds *)

Lemma dict_get_in {V} (k : str) (v : V) (d : dict V) :
  dict_get k d = Some v -> In k (dict_keys d).
Proof.
  intros H. apply dict_mem_true. unfold dict_mem. rewrite H. reflexivity.
Qed.

Lemma NoDup_snoc {A} (l : list A) (a : A) :
  NoDup l -> ~ In a l -> NoDup (l ++ [a]).
Proof.
  induction 1 as [|x l Hx Hl IH]; intros Ha; cbn [app].
  - constructor; [intros [] | constructor].
  - constructor.
    + intros Hin. apply in_app_or in Hin. destruct Hin as [Hin|[Hin|[]]].
      * exact (Hx Hin).
      * apply Ha. left. symmetry. exact Hin.
    + apply IH. intros Hin. apply Ha. right. exact Hin.
Qed.

Lemma dict_set_NoDup {V} (k : str) (v : V) (d : dict V) :
  NoDup (dict_keys d) -> NoDup (dict_keys (dict_set k v d)).
Proof.
  intros Hnd. destruct (in_dec (list_eq_dec N.eq_dec) k (dict_keys d)) as [Hin|Hn].
  - rewrite (@dict_keys_set V k v d Hin). exact Hnd.
  - rewrite (@dict_set_new V k v d Hn). unfold dict_keys in *. rewrite map_app.
    cbn [map fst]. apply NoDup_snoc; assumption.
Qed.

Lemma dict_set_Forall {V} (P : str * V -> Prop) (k : str) (v : V) (d : dict V) :
  Forall P d -> P (k, v) -> Forall P (dict_set k v d).
Proof.
  intros Hd Hk. induction Hd as [|[k' v'] d H' Hd IH]; cbn [dict_set].
  - constructor; [exact Hk | constructor].
  - destruct (str_eqb k k') eqn:E.
    + apply str_eqb_eq in E. subst. constructor; assumption.
    + constructor; assumption.
Qed.

Lemma dict_get_Forall {V} (P : str * V -> Prop) (k : str) (v : V) (d : dict V) :
  Forall P d -> dict_get k d = Some v -> P (k, v).
Proof.
  intros Hd. induction Hd as [|[k' v'] d H' Hd IH]; cbn [dict_get];
    [discriminate|].
  destruct (str_eqb k k') eqn:E.
  - apply str_eqb_eq in E. subst. intros H. injection H as <-. exact H'.
  - exact IH.
Qed.

Lemma good_set_cursect (st : read_state) cur items items' :
  good (rs_sections st) (rs_defaults st) ->
  cursect_items st cur = Some items ->
  items_good items' ->
  good (rs_sections (set_cursect_items st cur items'))
       (rs_defaults (set_cursect_items st cur items')).
Proof.
  intros (Hnd & Hsecs & Hdef) Hcur Hitems. destruct cur as [|name].
  - cbn. split; [exact Hnd | split; [exact Hsecs | exact Hitems]].
  - cbn [set_cursect_items rs_sections rs_defaults cursect_items] in *.
    split; [|split].
    + apply dict_set_NoDup. exact Hnd.
    + apply dict_set_Forall; [exact Hsecs|].
      pose proof (@dict_get_Forall _ section_good name items _ Hsecs Hcur)
        as (Hn & Hd & _).
      split; [exact Hn | split; [exact Hd | exact Hitems]].
    + exact Hdef.
Qed.

Lemma lines_ok_append (key : str) (lines : list str) (value : str) :
  lines_ok (key, lines) ->
  line_ok value = true -> is_comment value = false ->
  lines_ok (key, lines ++ [value]).
Proof.
  intros (l0 & rest & Hl & Hk & Hall & Hc) Hv Hvc. cbn [fst snd] in *. subst.
  exists l0, (rest ++ [value]). cbn [fst snd].
  split; [reflexivity | split; [|split]].
  - exact Hk.
  - change (l0 :: rest ++ [value]) with ((l0 :: rest) ++ [value]).
    apply Forall_app. split; [exact Hall | constructor; [exact Hv | constructor]].
  - apply Forall_app. split; [exact Hc | constructor; [exact Hvc | constructor]].
Qed.

Lemma append_value_good (st st' : read_state) cur name value :
  good (rs_sections st) (rs_defaults st) ->
  line_ok value = true -> is_comment value = false ->
  append_value st cur name value = Return st' ->
  good (rs_sections st') (rs_defaults st') /\ e st' = e st.
Proof.
  intros Hg Hv Hvc. unfold append_value.
  destruct (cursect_items st cur) as [items|] eqn:Hcur; [|discriminate].
  destruct (dict_get name items) as [lines|] eqn:Hget; [|discriminate].
  intros H. injection H as <-. split.
  - apply (@good_set_cursect st cur items _ Hg Hcur).
    assert (Hitems : items_good items).
    { destruct Hg as (_ & Hsecs & Hdef). destruct cur as [|n].
      - cbn in Hcur. injection Hcur as <-. exact Hdef.
      - cbn in Hcur.
        apply (@dict_get_Forall _ section_good n items _ Hsecs Hcur). }
    destruct Hitems as [Hnd Hall]. split.
    + apply dict_set_NoDup. exact Hnd.
    + apply dict_set_Forall; [exact Hall|].
      apply lines_ok_append; [|exact Hv|exact Hvc].
      exact (@dict_get_Forall _ lines_ok name lines _ Hall Hget).
  - destruct cur; reflexivity.
Qed.

Lemma cursect_items_good (st : read_state) cur items :
  good (rs_sections st) (rs_defaults st) ->
  cursect_items st cur = Some items -> items_good items.
Proof.
  intros (_ & Hsecs & Hdef) Hcur. destruct cur as [|n].
  - cbn in Hcur. injection Hcur as <-. exact Hdef.
  - cbn in Hcur. apply (@dict_get_Forall _ section_good n items _ Hsecs Hcur).
Qed.

Lemma read_header_good (st st' : read_state) (indent : nat) (name : str) :
  good (rs_sections st) (rs_defaults st) ->
  name_ok name = true ->
  read_header st indent name = Return st' ->
  good (rs_sections st') (rs_defaults st') /\ e st' = e st.
Proof.
  intros Hg Hn. unfold read_header.
  destruct (dict_mem name (rs_sections st)) eqn:Hmem.
  - destruct (existsb _ _); [discriminate|].
    intros H. injection H as <-. split; [exact Hg | reflexivity].
  - destruct (str_eqb name DEFAULTSECT) eqn:Hd.
    + intros H. injection H as <-. split; [exact Hg | reflexivity].
    + intros H. injection H as <-. split; [|reflexivity].
      cbn [rs_sections rs_defaults]. destruct Hg as (Hnd & Hsecs & Hdef).
      split; [|split].
      * apply dict_set_NoDup. exact Hnd.
      * apply dict_set_Forall; [exact Hsecs|].
        split; [exact Hn | split].
        -- apply str_eqb_neq. exact Hd.
        -- split; constructor.
      * exact Hdef.
Qed.

(** *** One line of the file *)

Lemma rstrip_in (x : N) (s : str) : In x (rstrip s) -> In x s.
Proof.
  intros H. destruct (rstrip_decomp s) as [ws Hs]. rewrite Hs.
  apply in_or_app. left. exact H.
Qed.

Lemma lstrip_in (x : N) (s : str) : In x (lstrip s) -> In x s.
Proof.
  induction s as [|c s IH]; cbn [lstrip]; [auto|].
  destruct (isspace c); [|auto]. intros H. right. apply IH, H.
Qed.

Lemma stripped_rstrip (s : str) : stripped s = true -> rstrip s = s.
Proof.
  unfold stripped. rewrite str_eqb_eq. intros H.
  rewrite <- H at 1. unfold strip. rewrite rstrip_idem. exact H.
Qed.

Lemma header_like_spec (s : str) :
  header_like s = true <-> exists x r, s = LBRACKET :: x :: r /\ In RBRACKET r.
Proof.
  unfold header_like. split.
  - destruct s as [|c [|x r]]; try discriminate.
    rewrite andb_true_iff, N.eqb_eq, existsb_in. intros [-> H].
    exists x, r. auto.
  - intros (x & r & -> & H). rewrite N.eqb_refl. apply existsb_in. exact H.
Qed.

(** The line [key=value] of a saved entry is taken for a header only
    if the line the entry was read from is. *)
Lemma header_like_entry (a b : str) (d : N) :
  rstrip a <> [] ->
  header_like (a ++ d :: b) = false ->
  header_like (rstrip a ++ EQUALS :: strip (lstrip b)) = false.
Proof.
  intros Hne Hv. destruct (header_like (rstrip a ++ _)) eqn:E; [|reflexivity].
  exfalso. apply header_like_spec in E. destruct E as (x & r & E & Hin).
  assert (Hb : forall y, In y (strip (lstrip b)) -> In y b).
  { intros y Hy. apply lstrip_in. unfold strip in Hy.
    apply rstrip_in, lstrip_in in Hy. exact Hy. }
  destruct (rstrip_decomp a) as [ws Ha].
  assert (Hl : header_like (a ++ d :: b) = true); [|congruence].
  apply header_like_spec. rewrite Ha.
  destruct (rstrip a) as [|c [|h kt]]; [congruence| |].
  - cbn [app] in E. injection E as -> _ <-. destruct ws as [|w ws].
    + exists d, b. split; [reflexivity | apply Hb, Hin].
    + exists w, (ws ++ d :: b). split; [reflexivity|].
      apply in_or_app. right. right. apply Hb, Hin.
  - cbn [app] in E. injection E as -> -> <-.
    exists x, (kt ++ ws ++ d :: b). split.
    + cbn [app]. rewrite <- app_assoc. reflexivity.
    + apply in_app_or in Hin. apply in_or_app.
      destruct Hin as [Hin|[Hin|Hin]]; [left; exact Hin | discriminate |].
      right. apply in_or_app. right. right. apply Hb, Hin.
Qed.

Lemma single_line_no_nl (s : str) : single_line s = true -> no_nl s.
Proof. intros H. apply single_line_spec in H. tauto. Qed.

Lemma first_line_single (s : str) : single_line s = true -> first_line s = s.
Proof.
  intros H. unfold first_line.
  rewrite (@split_nl_single s (single_line_no_nl s H)). reflexivity.
Qed.

Lemma single_line_lstrip (s : str) :
  single_line s = true -> single_line (lstrip s) = true.
Proof. unfold single_line. rewrite !forallb_Forall. apply lstrip_incl. Qed.

Lemma single_line_rstrip (s : str) :
  single_line s = true -> single_line (rstrip s) = true.
Proof. unfold single_line. rewrite !forallb_Forall. apply rstrip_incl. Qed.

(** The key and the first line that [_read] takes from an option
    line. *)
Lemma option_line_ok (value a b : str) (c : N) (key' : str) :
  single_line value = true ->
  (exists x r, value = x :: r /\ isspace x = false) ->
  is_comment value = false ->
  sectcre_match value = None ->
  split_delimiter value = Some (a, b) ->
  rstrip a = c :: key' ->
  lines_ok (c :: key', [strip (lstrip b)]).
Proof.
  intros Hs (x & r & Hx & Hxs) Hc Hsec Hsplit Hkey.
  destruct (split_delimiter_spec _ Hsplit) as (d & Hval & Hd & Ha).
  assert (Hsa : single_line a = true /\ single_line b = true).
  { rewrite Hval in Hs. rewrite single_line_app in Hs.
    apply andb_true_iff in Hs. destruct Hs as [H1 H2]. split; [exact H1|].
    cbn [single_line forallb] in H2. apply andb_true_iff in H2. apply H2. }
  destruct Hsa as [Hsa Hsb].
  assert (Hl0 : single_line (strip (lstrip b)) = true)
    by (apply single_line_strip, single_line_lstrip, Hsb).
  assert (Hhead : exists r', c :: key' = x :: r' /\ a = x :: tl a).
  { destruct a as [|y a']; [discriminate|].
    rewrite Hx in Hval. cbn [app] in Hval. injection Hval as <- _.
    destruct (@rstrip_head x a' Hxs) as [r' Hr']. exists r'.
    split; [congruence | reflexivity]. }
  destruct Hhead as (r' & Hk & _). injection Hk as -> ->.
  exists (strip (lstrip b)), []. cbn [fst snd].
  split; [reflexivity|]. split; [|split; [|constructor]].
  - unfold key_ok. rewrite !andb_true_iff. repeat split.
    + rewrite <- Hkey. apply single_line_rstrip, Hsa.
    + unfold stripped. apply str_eqb_eq. unfold strip.
      rewrite (@lstrip_nonspace x r' Hxs), <- Hkey. apply rstrip_idem.
    + rewrite <- Hkey. rewrite forallb_Forall in *. apply rstrip_incl, Ha.
    + rewrite Hx in Hc. cbn [is_comment] in *. rewrite Hc. reflexivity.
    + rewrite (first_line_single _ Hl0).
      assert (Hn : sectcre_match ((x :: r') ++ [EQUALS] ++ strip (lstrip b)) = None);
        [|rewrite Hn; reflexivity].
      apply sectcre_match_none.
      * apply single_line_no_nl. rewrite !single_line_app, Hl0.
        rewrite <- Hkey, (single_line_rstrip _ Hsa). reflexivity.
      * rewrite <- Hkey. apply (@header_like_entry a b d); [congruence|].
        rewrite <- Hval. apply sectcre_match_none; [|exact Hsec].
        apply single_line_no_nl, Hs.
  - constructor; [|constructor]. unfold line_ok.
    rewrite Hl0, stripped_strip. reflexivity.
Qed.

Lemma read_option_invariant (st st' : read_state) (indent : nat) cur value :
  read_invariant st ->
  single_line value = true ->
  (exists x r, value = x :: r /\ isspace x = false) ->
  is_comment value = false ->
  sectcre_match value = None ->
  read_option st indent cur value = Return st' ->
  read_invariant st'.
Proof.
  intros Hinv Hs Hx Hc Hsec. unfold read_option, optcre_match.
  destruct (split_delimiter value) as [[a b]|] eqn:Hsplit.
  2:{ intros H. injection H as <-. intros He. discriminate He. }
  cbv zeta. unfold optionxform. rewrite rstrip_idem.
  destruct (existsb _ _); [discriminate|].
  destruct (cursect_items st cur) as [items|] eqn:Hcur; [|discriminate].
  intros H. injection H as <-. unfold read_invariant.
  cbn [e rs_sections rs_defaults].
  destruct (rstrip a) as [|c key'] eqn:Hkey; [discriminate|]. intros He.
  specialize (Hinv He).
  apply (@good_set_cursect st cur items _ Hinv Hcur).
  destruct (@cursect_items_good st cur items Hinv Hcur) as [Hnd Hall]. split.
  - apply dict_set_NoDup, Hnd.
  - apply dict_set_Forall; [exact Hall|].
    exact (@option_line_ok value a b c key' Hs Hx Hc Hsec Hsplit Hkey).
Qed.

Lemma read_line_comment (st : read_state) (line : str) :
  is_comment (strip line) = true -> read_line st line = Return st.
Proof. intros H. unfold read_line. rewrite H. reflexivity. Qed.

Lemma read_line_invariant (st st' : read_state) (line : str) :
  single_line (strip line) = true ->
  read_invariant st ->
  read_line st line = Return st' ->
  read_invariant st'.
Proof.
  intros Hs Hinv. destruct (is_comment (strip line)) eqn:Hc.
  { rewrite (@read_line_comment st line Hc). intros H. injection H as <-.
    exact Hinv. }
  destruct (strip line) as [|x r] eqn:Hv.
  { rewrite (@read_line_blank st line Hv).
    destruct (cursect st) as [cur|]; [|intros H; injection H as <-; exact Hinv].
    destruct (truthy (optname st)) as [name|];
      [|intros H; injection H as <-; exact Hinv].
    intros H He.
    assert (He0 : e st = false).
    { unfold append_value in H.
      destruct (cursect_items st cur); [|discriminate].
      destruct (dict_get name d); [|discriminate].
      injection H as <-. destruct cur; exact He. }
    destruct (@append_value_good st st' cur name [] (Hinv He0)
                eq_refl eq_refl H) as [Hg _].
    exact Hg. }
  assert (Hx : exists x' r', x :: r = x' :: r' /\ isspace x' = false).
  { destruct (strip_head line) as [E|(c & r' & E & Hc')]; [congruence|].
    exists c, r'. split; [congruence | exact Hc']. }
  rewrite (@read_line_content st line (x :: r) ltac:(rewrite Hv; exact Hc) Hv
             ltac:(discriminate)).
  cbv zeta.
  set (indent := match first_nonspace line with Some i => i | None => 0%nat end).
  assert (Hfresh :
            match sectcre_match (x :: r) with
            | Some name => read_header st indent name
            | None =>
                match cursect st with
                | None => Raise MissingSectionHeaderError
                | Some cur => read_option st indent cur (x :: r)
                end
            end = Return st' -> read_invariant st').
  { destruct (sectcre_match (x :: r)) as [name|] eqn:Hsec.
    - intros H He.
      assert (He0 : e st = false).
      { unfold read_header in H.
        destruct (dict_mem name (rs_sections st)).
        - destruct (existsb _ _); [discriminate|]. injection H as <-. exact He.
        - destruct (str_eqb name DEFAULTSECT); injection H as <-; exact He. }
      destruct (@read_header_good st st' indent name (Hinv He0)
                  (@sectcre_match_name (x :: r) name Hs Hsec) H) as [Hg _].
      exact Hg.
    - destruct (cursect st) as [cur|]; [|discriminate].
      apply (@read_option_invariant st st' indent cur (x :: r) Hinv Hs Hx Hc Hsec). }
  destruct (cursect st) as [cur|]; [|exact Hfresh].
  destruct (truthy (optname st)) as [name|]; [|exact Hfresh].
  destruct (Nat.ltb (indent_level st) indent); [|exact Hfresh].
  intros H He.
  assert (He0 : e st = false).
  { unfold append_value in H.
    destruct (cursect_items st cur); [|discriminate].
    destruct (dict_get name d); [|discriminate].
    injection H as <-. destruct cur; exact He. }
  assert (Hl : line_ok (x :: r) = true).
  { unfold line_ok. rewrite Hs, <- Hv, stripped_strip. reflexivity. }
  destruct (@append_value_good st st' cur name (x :: r) (Hinv He0) Hl Hc H)
    as [Hg _].
  exact Hg.
Qed.

Lemma read_lines_invariant (lines : list str) :
  Forall (fun l => single_line (strip l) = true) lines ->
  forall st st',
    read_invariant st -> read_lines st lines = Return st' -> read_invariant st'.
Proof.
  induction 1 as [|l lines Hl _ IH]; intros st st' Hinv; cbn [read_lines].
  - intros H. injection H as <-. exact Hinv.
  - destruct (read_line st l) as [st1|] eqn:H1; [|discriminate].
    apply IH. exact (@read_line_invariant st st1 l Hl Hinv H1).
Qed.

(** *** The values once joined *)

Lemma joined_lines (l0 : str) (rest : list str) :
  Forall (fun l => line_ok l = true) (l0 :: rest) ->
  Forall (fun l => is_comment l = false) rest ->
  exists rest',
    rstrip (join_lines (l0 :: rest)) = join_lines (l0 :: rest')
    /\ Forall (fun l => line_ok l = true) (l0 :: rest')
    /\ Forall (fun l => is_comment l = false) rest'.
Proof.
  induction rest as [|x rest IH] using rev_ind; intros Hall Hc.
  - exists []. split; [|split; assumption].
    cbn [join_lines]. apply stripped_rstrip.
    inversion Hall as [|? ? Hl _]; subst. unfold line_ok in Hl.
    apply andb_true_iff in Hl. apply Hl.
  - change (l0 :: rest ++ [x]) with ((l0 :: rest) ++ [x]) in *.
    apply Forall_app in Hall. destruct Hall as [Hall Hx].
    apply Forall_app in Hc. destruct Hc as [Hc Hxc].
    inversion Hx as [|? ? Hlx _]; subst. inversion Hxc as [|? ? Hcx _]; subst.
    rewrite (@join_lines_snoc (l0 :: rest) x ltac:(discriminate)).
    destruct x as [|c x'].
    + rewrite rstrip_app_space by reflexivity. exact (IH Hall Hc).
    + exists (rest ++ [c :: x']). split; [|split].
      * change (l0 :: rest ++ [c :: x']) with ((l0 :: rest) ++ [c :: x']).
        rewrite (@join_lines_snoc (l0 :: rest) (c :: x') ltac:(discriminate)).
        unfold line_ok in Hlx. apply andb_true_iff in Hlx.
        destruct Hlx as [_ Hsx].
        destruct (@stripped_tight (c :: x') Hsx ltac:(discriminate))
          as [_ (a' & d & Ha & Hd)].
        rewrite Ha.
        replace (join_lines (l0 :: rest) ++ NL :: a' ++ [d])
          with ((join_lines (l0 :: rest) ++ NL :: a') ++ [d])
          by (rewrite <- app_assoc; reflexivity).
        apply rstrip_app_nonspace, Hd.
      * change (l0 :: rest ++ [c :: x']) with ((l0 :: rest) ++ [c :: x']).
        apply Forall_app. split; assumption.
      * apply Forall_app. split; assumption.
Qed.

Lemma key_ok_first_line (key v w : str) :
  first_line v = first_line w -> key_ok key v = key_ok key w.
Proof. intros H. unfold key_ok. rewrite H. reflexivity. Qed.

Lemma lines_ok_joined (kv : str * list str) :
  lines_ok kv ->
  key_ok (fst kv) (rstrip (join_lines (snd kv))) = true
  /\ value_ok (rstrip (join_lines (snd kv))) = true.
Proof.
  intros (l0 & rest & Hl & Hk & Hall & Hc). rewrite Hl.
  destruct (joined_lines Hall Hc) as (rest' & Hj & Hall' & Hc').
  assert (Hnl : Forall no_nl (l0 :: rest')).
  { revert Hall'. apply Forall_impl. intros l H. unfold line_ok in H.
    apply andb_true_iff in H. apply single_line_no_nl, H. }
  assert (Hsplit : split_nl (rstrip (join_lines (l0 :: rest))) = l0 :: rest').
  { rewrite Hj. apply split_join_lines; [discriminate | exact Hnl]. }
  split.
  - rewrite (@key_ok_first_line (fst kv) _ l0); [exact Hk|].
    unfold first_line at 1. rewrite Hsplit. cbn [hd].
    inversion Hnl; subst. unfold first_line.
    rewrite split_nl_single by assumption. reflexivity.
  - unfold value_ok. rewrite Hsplit, rstrip_idem, str_eqb_refl.
    cbn [tl]. rewrite !andb_true_iff. split; [split|reflexivity].
    + apply forallb_Forall. exact Hall'.
    + apply forallb_Forall. revert Hc'. apply Forall_impl.
      intros l H. rewrite H. reflexivity.
Qed.

Lemma forallb_on_map {A B} (f : A -> B) (p : B -> bool) (l : list A) :
  forallb p (map f l) = forallb (fun x => p (f x)) l.
Proof.
  induction l as [|x l IH]; [reflexivity|]. cbn [map forallb]. rewrite IH.
  reflexivity.
Qed.

Lemma join_values_keys (items : dict (list str)) :
  dict_keys (join_values items) = dict_keys items.
Proof. unfold join_values, dict_keys. rewrite map_map. reflexivity. Qed.

Lemma items_good_joined (items : dict (list str)) :
  items_good items -> items_ok (join_values items) = true.
Proof.
  intros [Hnd Hall]. unfold items_ok.
  rewrite join_values_keys, (proj2 (distinct_NoDup _) Hnd). cbn [andb].
  unfold join_values. rewrite forallb_on_map. apply forallb_Forall.
  revert Hall. apply Forall_impl. intros kv Hkv. cbn [fst snd].
  destruct (lines_ok_joined Hkv) as [H1 H2]. rewrite H1, H2. reflexivity.
Qed.

Lemma good_joined (sections : dict (dict (list str))) defaults :
  good sections defaults ->
  document_ok
    (mkParser (map (fun sec => (fst sec, join_values (snd sec))) sections)
              (join_values defaults)) = true.
Proof.
  intros (Hnd & Hsecs & Hdef). unfold document_ok. cbn [_sections _defaults].
  rewrite (items_good_joined Hdef), andb_true_r.
  apply andb_true_iff. split.
  - apply distinct_NoDup. unfold dict_keys in *. rewrite map_map. exact Hnd.
  - rewrite forallb_on_map. apply forallb_Forall. revert Hsecs.
    apply Forall_impl. intros sec (Hn & Hd & Hitems). cbn [fst snd].
    rewrite Hn, (items_good_joined Hitems).
    apply str_eqb_neq in Hd. rewrite Hd. reflexivity.
Qed.

Lemma read_ok (f : option str) (p : ConfigParser) :
  read f = Return p -> document_ok p = true.
Proof.
  destruct f as [text|]; cbn [read].
  2:{ intros H. injection H as <-. reflexivity. }
  unfold _read.
  destruct (read_lines read_start (readlines (universal_newlines text)))
    as [st|] eqn:Hread; [|discriminate].
  destruct (e st) eqn:He; [discriminate|].
  intros H. injection H as <-. apply good_joined.
  assert (Hinv : read_invariant st).
  { apply (@read_lines_invariant (readlines (universal_newlines text)))
      with (st := read_start); [| |exact Hread].
    - pose proof (readlines_file_lines (universal_newlines_cr text)) as Hl.
      revert Hl. apply Forall_impl. intros l. apply file_line_strip.
    - intros _. split; [constructor | split; [constructor | split; constructor]]. }
  exact (Hinv He).
Qed.

(** ** Documents and files UTF-8 can encode *)

Lemma text_ok_iff (s : str) : forallb encodable s = true <-> text_ok s.
Proof. apply forallb_Forall. Qed.

Lemma text_ok_app (a b : str) : text_ok (a ++ b) <-> text_ok a /\ text_ok b.
Proof. apply Forall_app. Qed.

Lemma text_ok_cons (c : N) (s : str) :
  text_ok (c :: s) <-> encodable c = true /\ text_ok s.
Proof. apply Forall_cons_iff. Qed.

Lemma replace_newline_ok (v : str) : text_ok (replace_newline v) <-> text_ok v.
Proof.
  unfold replace_newline. induction v as [|c v IH]; [reflexivity|].
  cbn [flat_map]. rewrite text_ok_app, text_ok_cons, IH.
  destruct (N.eqb c NL) eqn:E.
  - apply N.eqb_eq in E. subst c.
    split; intros [_ H]; (split; [|exact H]);
      [reflexivity | repeat constructor].
  - rewrite text_ok_cons. split; intros [H1 H2]; (split; [|exact H2]).
    + apply H1.
    + split; [exact H1 | constructor].
Qed.

Lemma entry_text_ok (kv : str * str) :
  text_ok (entry_text kv) <-> text_ok (fst kv) /\ text_ok (snd kv).
Proof.
  unfold entry_text. rewrite !text_ok_app, replace_newline_ok.
  split.
  - intros (H1 & _ & H2 & _). auto.
  - intros (H1 & H2). repeat split; try assumption; repeat constructor.
Qed.

Lemma entries_text_ok (items : dict str) :
  text_ok (concat (map entry_text items)) <-> items_encodable items.
Proof.
  unfold items_encodable. induction items as [|kv items IH]; cbn [map concat].
  - split; constructor.
  - rewrite text_ok_app, Forall_cons_iff, IH, entry_text_ok. reflexivity.
Qed.

Lemma section_text_ok (name : str) (items : dict str) :
  text_ok (section_text name items)
  <-> text_ok name /\ items_encodable items.
Proof.
  unfold section_text. rewrite !text_ok_app, entries_text_ok. split.
  - intros (_ & H1 & _ & H2 & _). auto.
  - intros (H1 & H2). repeat split; try assumption; repeat constructor.
Qed.

Lemma document_encodable_spec (p : ConfigParser) :
  document_encodable p = true
  <-> sections_encodable (_sections p) /\ items_encodable (_defaults p).
Proof.
  unfold document_encodable, document_text.
  rewrite text_ok_iff, text_ok_app.
  assert (Hs : text_ok
                 (concat (map (fun sec => section_text (fst sec) (snd sec))
                            (_sections p)))
               <-> sections_encodable (_sections p)).
  { unfold sections_encodable.
    induction (_sections p) as [|sec secs IH]; cbn [map concat].
    - split; constructor.
    - rewrite text_ok_app, Forall_cons_iff, IH, section_text_ok. reflexivity. }
  rewrite Hs. destruct (_defaults p) as [|kv d] eqn:E.
  - split; [intros [_ H]; split; [exact H | constructor]
           | intros [H _]; split; [constructor | exact H]].
  - rewrite section_text_ok. split.
    + intros [[_ H1] H2]. auto.
    + intros [H1 H2]. split; [split; [repeat constructor | exact H2] | exact H1].
Qed.

(** [set] keeps a document encodable when its arguments are. *)
Lemma assigned_encodable (p : ConfigParser) (section option value : str) :
  document_encodable p = true ->
  text_ok section -> text_ok option -> text_ok value ->
  document_encodable (assigned p section option value) = true.
Proof.
  rewrite !document_encodable_spec. intros [Hs Hd] H1 H2 H3.
  unfold assigned. cbn [_sections _defaults]. split; [|exact Hd].
  unfold sections_encodable. apply dict_set_Forall; [exact Hs|].
  cbn [fst snd]. split; [exact H1|].
  unfold items_encodable. apply dict_set_Forall; [|cbn [fst snd]; auto].
  destruct (dict_get section (_sections p)) as [items|] eqn:E; [|constructor].
  exact (proj2 (@dict_get_Forall _ _ section items _ Hs E)).
Qed.

(** What [_read] stores comes from the lines of the file. *)
Lemma split_delimiter_incl (P : N -> Prop) (s a b : str) :
  split_delimiter s = Some (a, b) -> Forall P s -> Forall P a /\ Forall P b.
Proof.
  revert a; induction s as [|c s IH]; intros a; cbn [split_delimiter];
    [discriminate|].
  intros H Hs. inversion Hs as [|? ? Hc Hs']; subst.
  destruct (is_delimiter c).
  - injection H as <- <-. split; [constructor | exact Hs'].
  - destruct (split_delimiter s) as [[a' b']|]; [|discriminate].
    injection H as <- <-. destruct (IH a' eq_refl Hs') as [Ha Hb].
    split; [constructor; assumption | exact Hb].
Qed.

Lemma sectcre_match_incl (P : N -> Prop) (s name : str) :
  sectcre_match s = Some name -> Forall P s -> Forall P name.
Proof.
  unfold sectcre_match. destruct s as [|c rest]; [discriminate|].
  destruct (N.eqb c LBRACKET); [|discriminate].
  destruct (before_last RBRACKET (dot_run rest)) as [[|h header]|] eqn:E;
    try discriminate.
  intros H Hs. injection H as <-. inversion Hs; subst.
  eapply before_last_incl; [exact E|]. apply dot_run_incl. assumption.
Qed.

Lemma set_cursect_encodable (st : read_state) cur items :
  state_encodable st -> lines_encodable items ->
  (forall name, cur = InSection name -> text_ok name) ->
  state_encodable (set_cursect_items st cur items).
Proof.
  intros [Hs Hd] Hi Hn. destruct cur as [|name];
    cbn [set_cursect_items]; split; cbn [rs_sections rs_defaults];
    try assumption.
  apply dict_set_Forall; [exact Hs|]. cbn [fst snd]. split; [|exact Hi].
  apply (Hn name eq_refl).
Qed.

Lemma cursect_items_encodable (st : read_state) cur items :
  state_encodable st -> cursect_items st cur = Some items ->
  lines_encodable items /\ (forall name, cur = InSection name -> text_ok name).
Proof.
  intros [Hs Hd] H. destruct cur as [|name]; cbn [cursect_items] in H.
  - injection H as <-. split; [exact Hd | discriminate].
  - pose proof (@dict_get_Forall _ _ name items _ Hs H) as [H1 H2].
    split; [exact H2|]. intros n E. injection E as <-. exact H1.
Qed.

Lemma append_value_encodable (st st' : read_state) cur name value :
  state_encodable st -> text_ok value ->
  append_value st cur name value = Return st' -> state_encodable st'.
Proof.
  intros Hst Hv. unfold append_value.
  destruct (cursect_items st cur) as [items|] eqn:Hcur; [|discriminate].
  destruct (dict_get name items) as [lines|] eqn:Hget; [|discriminate].
  intros H. injection H as <-.
  destruct (@cursect_items_encodable st cur items Hst Hcur) as [Hi Hn].
  apply set_cursect_encodable; [exact Hst | | exact Hn].
  pose proof (@dict_get_Forall _ _ name lines _ Hi Hget) as [H1 H2].
  apply dict_set_Forall; [exact Hi|]. cbn [fst snd] in *. split; [exact H1|].
  apply Forall_app. split; [exact H2 | constructor; [exact Hv | constructor]].
Qed.

Lemma read_header_encodable (st st' : read_state) (indent : nat) (name : str) :
  state_encodable st -> text_ok name ->
  read_header st indent name = Return st' -> state_encodable st'.
Proof.
  intros [Hs Hd] Hn. unfold read_header.
  destruct (dict_mem name (rs_sections st)).
  - destruct (existsb _ _); [discriminate|]. intros H. injection H as <-.
    split; assumption.
  - destruct (str_eqb name DEFAULTSECT); intros H; injection H as <-;
      split; cbn [rs_sections rs_defaults]; try assumption.
    apply dict_set_Forall; [exact Hs|]. split; [exact Hn | constructor].
Qed.

Lemma read_option_encodable (st st' : read_state) (indent : nat) cur value :
  state_encodable st -> text_ok value ->
  read_option st indent cur value = Return st' -> state_encodable st'.
Proof.
  intros Hst Hv. unfold read_option, optcre_match.
  destruct (split_delimiter value) as [[a b]|] eqn:Hsplit.
  2:{ intros H. injection H as <-. exact Hst. }
  cbv zeta. unfold optionxform.
  destruct (existsb _ _); [discriminate|].
  destruct (cursect_items st cur) as [items|] eqn:Hcur; [|discriminate].
  intros H. injection H as <-.
  destruct (@cursect_items_encodable st cur items Hst Hcur) as [Hi Hn].
  destruct (@split_delimiter_incl _ value a b Hsplit Hv) as [Ha Hb].
  assert (Hst' : state_encodable
                   (set_cursect_items st cur
                      (dict_set (rstrip (rstrip a)) [strip (lstrip b)] items))).
  { apply set_cursect_encodable; [exact Hst | | exact Hn].
    apply dict_set_Forall; [exact Hi|]. cbn [fst snd]. split.
    - apply rstrip_incl, rstrip_incl, Ha.
    - constructor; [|constructor]. apply strip_incl, lstrip_incl, Hb. }
  exact Hst'.
Qed.

Lemma read_line_encodable (st st' : read_state) (line : str) :
  state_encodable st -> text_ok line ->
  read_line st line = Return st' -> state_encodable st'.
Proof.
  intros Hst Hl. destruct (is_comment (strip line)) eqn:Hc.
  { rewrite (@read_line_comment st line Hc). intros H. injection H as <-.
    exact Hst. }
  destruct (strip line) as [|x r] eqn:Hv.
  { rewrite (@read_line_blank st line Hv).
    destruct (cursect st) as [cur|]; [|intros H; injection H as <-; exact Hst].
    destruct (truthy (optname st)) as [name|];
      [|intros H; injection H as <-; exact Hst].
    apply append_value_encodable; [exact Hst | constructor]. }
  assert (Hval : text_ok (x :: r)).
  { rewrite <- Hv. apply strip_incl, Hl. }
  rewrite (@read_line_content st line (x :: r) ltac:(rewrite Hv; exact Hc) Hv
             ltac:(discriminate)).
  cbv zeta.
  set (indent := match first_nonspace line with Some i => i | None => 0%nat end).
  assert (Hfresh :
            match sectcre_match (x :: r) with
            | Some name => read_header st indent name
            | None =>
                match cursect st with
                | None => Raise MissingSectionHeaderError
                | Some cur => read_option st indent cur (x :: r)
                end
            end = Return st' -> state_encodable st').
  { destruct (sectcre_match (x :: r)) as [name|] eqn:Hsec.
    - apply read_header_encodable; [exact Hst|].
      exact (@sectcre_match_incl _ (x :: r) name Hsec Hval).
    - destruct (cursect st) as [cur|]; [|discriminate].
      apply read_option_encodable; assumption. }
  destruct (cursect st) as [cur|]; [|exact Hfresh].
  destruct (truthy (optname st)) as [name|]; [|exact Hfresh].
  destruct (Nat.ltb (indent_level st) indent); [|exact Hfresh].
  apply append_value_encodable; assumption.
Qed.

Lemma read_lines_encodable (lines : list str) :
  Forall text_ok lines ->
  forall st st',
    state_encodable st -> read_lines st lines = Return st' ->
    state_encodable st'.
Proof.
  induction 1 as [|l lines Hl _ IH]; intros st st' Hst; cbn [read_lines].
  - intros H. injection H as <-. exact Hst.
  - destruct (read_line st l) as [st1|] eqn:H1; [|discriminate].
    apply IH. exact (@read_line_encodable st st1 l Hst Hl H1).
Qed.

Lemma universal_newlines_incl (P : N -> Prop) (text : str) :
  P NL -> Forall P text -> Forall P (universal_newlines text).
Proof.
  intros HNL.
  assert (H : forall n text, (List.length text <= n)%nat ->
                             Forall P text -> Forall P (universal_newlines text)).
  { induction n as [|n IH]; intros [|c rest] Hlen Ht; try constructor;
      cbn [List.length] in Hlen; try lia.
    - inversion Ht as [|? ? Hc Hr]; subst. cbn [universal_newlines].
      destruct (N.eqb c CR).
      + constructor; [exact HNL|]. destruct rest as [|c' rest'];
          [constructor|].
        inversion Hr; subst.
        destruct (N.eqb c' NL); apply IH; cbn [List.length] in *;
          try lia; assumption.
      + constructor; [exact Hc | apply IH; [lia | exact Hr]]. }
  exact (H (List.length text) text (Nat.le_refl _)).
Qed.

Lemma readlines_incl (P : N -> Prop) (text : str) :
  Forall P text -> Forall (Forall P) (readlines text).
Proof.
  induction 1 as [|c text Hc Ht IH]; [constructor|].
  cbn [readlines]. destruct (N.eqb c NL).
  - constructor; [constructor; [exact Hc | constructor] | exact IH].
  - destruct (readlines text) as [|l ls].
    + constructor; [constructor; [exact Hc | constructor] | constructor].
    + inversion IH; subst. constructor; [constructor; assumption | assumption].
Qed.

Lemma join_lines_incl (P : N -> Prop) (ls : list str) :
  P NL -> Forall (Forall P) ls -> Forall P (join_lines ls).
Proof.
  intros HNL. induction 1 as [|l ls Hl Hls IH]; [constructor|].
  cbn [join_lines]. destruct ls as [|l' ls']; [exact Hl|].
  apply Forall_app. split; [exact Hl | constructor; [exact HNL | exact IH]].
Qed.

Lemma join_values_encodable (items : dict (list str)) :
  lines_encodable items -> items_encodable (join_values items).
Proof.
  unfold join_values, items_encodable. intros H. apply Forall_map.
  revert H. apply Forall_impl. intros [k ls] [H1 H2]. cbn [fst snd] in *.
  split; [exact H1|]. apply rstrip_incl, join_lines_incl; [reflexivity|].
  exact H2.
Qed.

(** The document read from a text that UTF-8 can encode can be
    encoded. *)
Lemma read_encodable (text : str) (p : ConfigParser) :
  forallb encodable text = true ->
  read (Some text) = Return p -> document_encodable p = true.
Proof.
  intros Ht. cbn [read]. unfold _read.
  destruct (read_lines read_start (readlines (universal_newlines text)))
    as [st|] eqn:Hread; [|discriminate].
  destruct (e st); [discriminate|]. intros H. injection H as <-.
  assert (Hst : state_encodable st).
  { apply (@read_lines_encodable (readlines (universal_newlines text)))
      with (st := read_start); [| |exact Hread].
    - apply readlines_incl, universal_newlines_incl; [reflexivity|].
      apply text_ok_iff, Ht.
    - split; constructor. }
  apply document_encodable_spec. cbn [_sections _defaults].
  destruct Hst as [Hs Hd]. split; [|apply join_values_encodable, Hd].
  unfold sections_encodable. apply Forall_map. revert Hs.
  apply Forall_impl. intros [n items] [H1 H2]. cbn [fst snd] in *.
  split; [exact H1 | apply join_values_encodable, H2].
Qed.

Lemma init_encodable (X : file_content) (self : QBittorrentConfig) :
  file_encodable X = true -> __init__ X = Return self ->
  document_encodable (config self) = true.
Proof.
  unfold file_encodable, __init__. intros Hx.
  destruct (content X) as [text|] eqn:E.
  - destruct (read (Some text)) as [p|] eqn:Hr; [|discriminate].
    intros H. injection H as <-. exact (@read_encodable text p Hx Hr).
  - cbn [read]. intros H. injection H as <-. reflexivity.
Qed.

(** ** Documents changed by [set] *)

Lemma dict_get_set_other {V} (k k' : str) (v : V) (d : dict V) :
  k' <> k -> dict_get k' (dict_set k v d) = dict_get k' d.
Proof.
  intros Hne. induction d as [|[k0 v0] d IH]; cbn [dict_set dict_get].
  - destruct (str_eqb k' k) eqn:E; [|reflexivity].
    apply str_eqb_eq in E. congruence.
  - destruct (str_eqb k k0) eqn:E; cbn [dict_get].
    + apply str_eqb_eq in E. subst k0.
      destruct (str_eqb k' k) eqn:E'; [|reflexivity].
      apply str_eqb_eq in E'. congruence.
    + destruct (str_eqb k' k0); [reflexivity | exact IH].
Qed.

(** What [set] does when it returns, in one assignment: the section's
    dictionary, or a new one, gets the key and takes (or keeps) its
    place among the sections. *)
Lemma set_lookup_other (self self' : QBittorrentConfig)
    (section option value section' option' : str) :
  section <> [] -> section <> DEFAULTSECT ->
  accepts_value value = true ->
  set section option value self = (Return tt, self') ->
  section' <> section \/ option' <> option ->
  lookup self' section' option' = lookup self section' option'.
Proof.
  intros Hne Hd Hv. rewrite (@set_returns self section option value Hne Hd Hv).
  intros H. injection H as <-. intros Hother. unfold lookup.
  cbn [config _sections].
  destruct (list_eq_dec N.eq_dec section' section) as [->|Hs].
  - destruct Hother as [Hs|Ho]; [congruence|].
    rewrite dict_get_set, (@dict_get_set_other _ option option' value _ Ho).
    destruct (dict_get section (_sections (config self))); reflexivity.
  - rewrite (@dict_get_set_other _ section section' _ _ Hs). reflexivity.
Qed.

Lemma items_ok_iff (items : dict str) :
  items_ok items = true
  <-> NoDup (dict_keys items)
      /\ Forall (fun kv => key_ok (fst kv) (snd kv) && value_ok (snd kv) = true)
           items.
Proof.
  unfold items_ok. rewrite andb_true_iff, distinct_NoDup, forallb_Forall.
  reflexivity.
Qed.

Lemma items_ok_set (items : dict str) (key value : str) :
  items_ok items = true ->
  key_ok key value = true -> value_ok value = true ->
  items_ok (dict_set key value items) = true.
Proof.
  rewrite !items_ok_iff. intros [Hnd Hall] Hk Hv. split.
  - apply dict_set_NoDup, Hnd.
  - apply dict_set_Forall; [exact Hall|]. cbn [fst snd]. rewrite Hk, Hv.
    reflexivity.
Qed.

Lemma document_ok_iff (p : ConfigParser) :
  document_ok p = true
  <-> NoDup (dict_keys (_sections p))
      /\ Forall (fun sec => section_ok sec = true) (_sections p)
      /\ items_ok (_defaults p) = true.
Proof.
  unfold document_ok. rewrite !andb_true_iff, distinct_NoDup.
  fold section_ok. change (forallb _ (_sections p) = true)
    with (forallb section_ok (_sections p) = true).
  rewrite forallb_Forall. tauto.
Qed.

Lemma section_ok_iff (sec : str * dict str) :
  section_ok sec = true
  <-> name_ok (fst sec) = true /\ fst sec <> DEFAULTSECT
      /\ items_ok (snd sec) = true.
Proof.
  unfold section_ok. rewrite !andb_true_iff, negb_true_iff, str_eqb_neq. tauto.
Qed.

(** [set] keeps a document one that a saved file gives back, when the
    entry is one. *)
Lemma set_document_ok (self : QBittorrentConfig) (section option value : str) :
  document_ok (config self) = true ->
  name_ok section = true -> section <> DEFAULTSECT ->
  key_ok option value = true -> value_ok value = true ->
  accepts_value value = true ->
  exists self',
    set section option value self = (Return tt, self')
    /\ file self' = file self
    /\ document_ok (config self') = true
    /\ lookup self' section option = Some value.
Proof.
  intros Hok Hn Hd Hk Hv Ha.
  assert (Hne : section <> []) by (destruct section; [discriminate|discriminate]).
  eexists. split; [apply (@set_returns self section option value Hne Hd Ha)|].
  split; [reflexivity|]. split.
  - apply document_ok_iff in Hok. destruct Hok as (Hnd & Hsecs & Hdef).
    apply document_ok_iff. cbn [config _sections _defaults].
    split; [apply dict_set_NoDup, Hnd|]. split; [|exact Hdef].
    apply dict_set_Forall; [exact Hsecs|].
    apply section_ok_iff. cbn [fst snd]. split; [exact Hn|]. split; [exact Hd|].
    apply items_ok_set; [|exact Hk|exact Hv].
    destruct (dict_get section (_sections (config self))) as [items|] eqn:E;
      [|reflexivity].
    pose proof (@dict_get_Forall _ (fun sec => section_ok sec = true)
                  section items _ Hsecs E) as Hsec.
    apply section_ok_iff in Hsec. apply Hsec.
  - unfold lookup. cbn [config _sections]. rewrite dict_get_set.
    apply dict_get_set.
Qed.

(** *** Values without white space *)

Lemma solid_single_line (s : str) : solid s = true -> single_line s = true.
Proof.
  unfold solid, single_line. rewrite !forallb_Forall. apply Forall_impl.
  intros c Hc. unfold is_linebreak.
  destruct (N.eqb c NL) eqn:E1; [apply N.eqb_eq in E1; subst; discriminate|].
  destruct (N.eqb c CR) eqn:E2; [apply N.eqb_eq in E2; subst; discriminate|].
  reflexivity.
Qed.

Lemma solid_rstrip (s : str) : solid s = true -> rstrip s = s.
Proof.
  induction s as [|c s IH]; [reflexivity|]. cbn [solid forallb].
  rewrite andb_true_iff, negb_true_iff. intros [Hc Hs].
  cbn [rstrip]. rewrite (IH Hs). destruct s; [rewrite Hc|]; reflexivity.
Qed.

Lemma solid_stripped (s : str) : solid s = true -> stripped s = true.
Proof.
  intros H. unfold stripped. apply str_eqb_eq. unfold strip.
  destruct s as [|c s]; [reflexivity|].
  pose proof H as H'. cbn [solid forallb] in H'.
  apply andb_true_iff in H'. destruct H' as [Hc _].
  apply negb_true_iff in Hc. cbn [lstrip]. rewrite Hc.
  apply solid_rstrip, H.
Qed.

Lemma solid_value_ok (s : str) : solid s = true -> value_ok s = true.
Proof.
  intros H. unfold value_ok.
  rewrite (@split_nl_single s (single_line_no_nl s (solid_single_line s H))).
  cbn [forallb tl]. unfold line_ok.
  rewrite (solid_single_line s H), (solid_stripped s H), (solid_rstrip s H).
  rewrite str_eqb_refl. reflexivity.
Qed.

Lemma solid_app (a b : str) : solid (a ++ b) = solid a && solid b.
Proof. apply forallb_app. Qed.

Lemma uint_digits_solid (d : Decimal.uint) : solid (uint_digits d) = true.
Proof. induction d; cbn [uint_digits solid forallb]; auto. Qed.

Lemma int_text_solid (z : Z) : solid (int_sign z ++ int_digits z) = true.
Proof.
  unfold int_sign, int_digits. destruct (Z.to_int z); cbn [app];
    [apply uint_digits_solid|].
  cbn [solid forallb]. apply uint_digits_solid.
Qed.

Lemma uint_digits_ok (d : Decimal.uint) : text_ok (uint_digits d).
Proof. induction d; cbn [uint_digits]; constructor; auto. Qed.

Lemma int_text_ok (z : Z) : text_ok (int_sign z ++ int_digits z).
Proof.
  unfold int_sign, int_digits. destruct (Z.to_int z); cbn [app];
    [|constructor; [reflexivity|]]; apply uint_digits_ok.
Qed.

Lemma decode_ok (b : bytes) : text_ok (decode b).
Proof.
  unfold decode, text_ok. apply Forall_map, Forall_forall. intros x _.
  destruct x; reflexivity.
Qed.

Lemma digest_value_ok (salt hash : bytes) :
  text_ok (lit "@ByteArray(" ++ decode (b64encode salt) ++ lit ":"
           ++ decode (b64encode hash) ++ lit ")").
Proof.
  rewrite !text_ok_app. repeat split; try apply decode_ok;
    apply text_ok_iff; reflexivity.
Qed.

(** A key that does not open a bracket is never taken for a header. *)
Lemma key_ok_plain (key value : str) (c : N) (r : str) :
  key = c :: r -> N.eqb c LBRACKET = false ->
  key_ok key value = key_ok key [].
Proof.
  intros -> Hc. unfold key_ok. cbn [app sectcre_match]. rewrite Hc.
  reflexivity.
Qed.

(** ** Saving and loading again *)

Lemma init_config (f : file_content) (self : QBittorrentConfig) :
  __init__ f = Return self ->
  file self = f /\ read (content f) = Return (config self).
Proof.
  unfold __init__. destruct (read (content f)) as [p|]; [|discriminate].
  intros H. injection H as <-. split; reflexivity.
Qed.

Lemma save_then_init (self : QBittorrentConfig) :
  writable (file self) = true ->
  document_encodable (config self) = true ->
  document_ok (config self) = true ->
  exists saved,
    save self = (Return tt, saved)
    /\ file saved = mkFile (Some (document_text (config self))) true
    /\ config saved = config self
    /\ __init__ (file saved) = Return saved.
Proof.
  intros Hw He Hok. eexists. split; [apply (@save_returns self Hw He)|].
  split; [reflexivity|]. split; [reflexivity|].
  cbn [file]. unfold __init__. cbn [content].
  rewrite (read_document _ Hok). reflexivity.
Qed.

Lemma bind_return {S A B} (m : M S A) (f : A -> M S B) (s s' : S) (a : A) :
  m s = (Return a, s') -> bind m f s = f a s'.
Proof. intros H. unfold bind. rewrite H. reflexivity. Qed.

Lemma bind_raise {S A B} (m : M S A) (f : A -> M S B) (s s' : S) (ex : exn) :
  m s = (Raise ex, s') -> bind m f s = (Raise ex, s').
Proof. intros H. unfold bind. rewrite H. reflexivity. Qed.

(** [set] with what it keeps: the file, the defaults, the other
    entries, and the shape of a document that loads again. *)
Lemma set_step (self : QBittorrentConfig) (section option value : str) :
  name_ok section = true -> section <> DEFAULTSECT ->
  key_ok option value = true -> value_ok value = true ->
  accepts_value value = true ->
  exists self',
    set section option value self = (Return tt, self')
    /\ file self' = file self
    /\ (document_ok (config self) = true -> document_ok (config self') = true)
    /\ lookup self' section option = Some value
    /\ (forall section' option',
           section' <> section \/ option' <> option ->
           lookup self' section' option' = lookup self section' option')
    /\ _defaults (config self') = _defaults (config self)
    /\ (document_encodable (config self) = true ->
        forallb encodable section = true ->
        forallb encodable option = true ->
        forallb encodable value = true ->
        document_encodable (config self') = true).
Proof.
  intros Hn Hd Hk Hv Ha.
  assert (Hne : section <> []) by (destruct section; discriminate).
  pose proof (@set_returns self section option value Hne Hd Ha) as Hset.
  eexists. split; [exact Hset|]. split; [reflexivity|].
  split; [|split; [|split; [|split]]].
  - intros Hok.
    destruct (@set_document_ok self section option value Hok Hn Hd Hk Hv Ha)
      as (self' & Hs & _ & Hok' & _).
    rewrite Hset in Hs. injection Hs as <-. exact Hok'.
  - unfold lookup. cbn [config _sections]. rewrite dict_get_set.
    apply dict_get_set.
  - intros s' o' Hother.
    exact (@set_lookup_other self _ section option value s' o' Hne Hd Ha
             Hset Hother).
  - reflexivity.
  - intros He H1 H2 H3. cbn [config].
    apply (@assigned_encodable (config self) section option value He);
      apply text_ok_iff; assumption.
Qed.

(** Setting a key to the value it has changes nothing. *)
Lemma set_same (self : QBittorrentConfig) (section option value : str) :
  section <> [] -> section <> DEFAULTSECT ->
  accepts_value value = true ->
  lookup self section option = Some value ->
  set section option value self = (Return tt, self).
Proof.
  intros Hne Hd Ha Hl.
  rewrite (@set_returns self section option value Hne Hd Ha).
  unfold lookup in Hl.
  destruct (dict_get section (_sections (config self))) as [items|] eqn:E;
    [|discriminate].
  rewrite (@dict_set_same _ option value items Hl).
  rewrite (@dict_set_same _ section items _ E).
  destruct self as [f [S D]]. reflexivity.
Qed.

(** X1: a document whose section names, keys and values are of the
    shape a saved file gives back ([document_ok]: distinct one-line
    names other than DEFAULT, distinct stripped keys without delimiter,
    values made of stripped lines) and hold no code point that UTF-8
    cannot encode is read back unchanged from the file [save] writes,
    when the path can be opened for writing: [save] returns, the file
    holds the text of the document, and a [QBittorrentConfig] created
    on that file holds the same document. *)
Theorem saved_document_reads_back (self : QBittorrentConfig) :
  writable (file self) = true ->
  document_encodable (config self) = true ->
  document_ok (config self) = true ->
  exists saved,
    save self = (Return tt, saved)
    /\ file saved = mkFile (Some (document_text (config self))) true
    /\ __init__ (file saved) = Return saved
    /\ config saved = config self.
Proof.
  intros Hw He Hok.
  destruct (@save_then_init self Hw He Hok) as (saved & H1 & H2 & H3 & H4).
  exists saved. auto.
Qed.

(** The theorem above at the document of the bootstrap. *)
Lemma saved_document_reads_back_witness :
  exists saved,
    save (mkConfig (mkFile None true) setup_document) = (Return tt, saved)
    /\ file saved = mkFile (Some (document_text setup_document)) true
    /\ __init__ (file saved) = Return saved
    /\ config saved = setup_document.
Proof.
  apply (@saved_document_reads_back
           (mkConfig (mkFile None true) setup_document));
    vm_compute; reflexivity.
Defined.

(** C3: load, save, load. If a [QBittorrentConfig] can be created on
    a file (whose text, decoded from the file, is text that UTF-8 can
    encode), then [save] returns and a [QBittorrentConfig] created on
    the file it wrote holds the same document, section for section and
    entry for entry, in the same order, when the path can be opened for
    writing. When it cannot, [save] raises OSError and leaves the file
    and the document as they were: the write failure. *)
Theorem load_save_load (X : file_content) (self : QBittorrentConfig) :
  __init__ X = Return self ->
  file_encodable X = true ->
  if writable X
  then exists saved,
         save self = (Return tt, saved)
         /\ __init__ (file saved) = Return saved
         /\ config saved = config self
  else save self = (Raise OSError, self).
Proof.
  intros Hinit He. destruct (@init_config X self Hinit) as [Hfile Hread].
  pose proof (@init_encodable X self He Hinit) as Henc.
  destruct (writable X) eqn:Hw; rewrite <- Hfile in Hw.
  - destruct (@save_then_init self Hw Henc (@read_ok _ _ Hread))
      as (saved & H1 & _ & H3 & H4).
    exists saved. auto.
  - rewrite save_run, Hw. reflexivity.
Qed.

(** The theorem above at a file with a comment, padded delimiters, a
    value over three lines and a default section. *)
Lemma load_save_load_witness :
  exists self saved,
    __init__ (mkFile (Some (unlines ["# settings"; "[Preferences]";
                                     "WebUI\Port = 8080"; "Note : one";
                                     "   two"; ""; "   three";
                                     "[DEFAULT]"; "x=1"]%string)) true)
    = Return self
    /\ save self = (Return tt, saved)
    /\ __init__ (file saved) = Return saved
    /\ config saved = config self.
Proof.
  eexists.
  assert (H : __init__ (mkFile (Some (unlines ["# settings"; "[Preferences]";
                                       "WebUI\Port = 8080"; "Note : one";
                                       "   two"; ""; "   three";
                                       "[DEFAULT]"; "x=1"]%string)) true)
              = Return _) by (vm_compute; reflexivity).
  destruct (@load_save_load _ _ H eq_refl) as (saved & H1 & H2 & H3).
  exists saved. split; [exact H|]. auto.
Defined.

Lemma items_ok_well_formed (items : dict str) :
  items_ok items = true -> entries_well_formed items.
Proof.
  intros Hok. apply items_ok_iff in Hok. destruct Hok as [Hnd Hall].
  split; [exact Hnd|]. intros key value Hin.
  rewrite Forall_forall in Hall. specialize (Hall _ Hin).
  cbn [fst snd] in Hall. apply andb_true_iff in Hall. destruct Hall as [Hk Hv].
  destruct (key_ok_spec _ _ Hk) as (Hne & _ & Hs & Hd & _).
  destruct (value_ok_spec _ Hv) as (_ & _ & _ & _ & _ & Hr).
  split; [exact Hne|]. split; [apply str_eqb_eq, Hs|]. split; [|exact Hr].
  intros c Hc. rewrite forallb_forall in Hd. apply negb_true_iff, Hd, Hc.
Qed.

(** X3: what a loaded document never holds. If a [QBittorrentConfig]
    can be created on a file, its sections have distinct names, none
    empty and none "DEFAULT", and in every section and in the defaults
    the keys are distinct, not empty, without white space around them
    and without "=" or ":", and no value ends with white space. *)
Theorem loaded_document_well_formed (X : file_content)
    (self : QBittorrentConfig) :
  __init__ X = Return self ->
  NoDup (dict_keys (_sections (config self)))
  /\ (forall name items,
         In (name, items) (_sections (config self)) ->
         name <> [] /\ name <> DEFAULTSECT /\ entries_well_formed items)
  /\ entries_well_formed (_defaults (config self)).
Proof.
  intros Hinit. destruct (@init_config X self Hinit) as [_ Hread].
  pose proof (@read_ok _ _ Hread) as Hok. apply document_ok_iff in Hok.
  destruct Hok as (Hnd & Hsecs & Hdef).
  split; [exact Hnd|]. split; [|apply items_ok_well_formed, Hdef].
  intros name items Hin. rewrite Forall_forall in Hsecs.
  specialize (Hsecs _ Hin). apply section_ok_iff in Hsecs.
  cbn [fst snd] in Hsecs. destruct Hsecs as (Hn & Hd & Hitems).
  split; [|split; [exact Hd | apply items_ok_well_formed, Hitems]].
  destruct name; [discriminate | discriminate].
Qed.

(** The theorem above at a file with padded keys and values. *)
Lemma loaded_document_well_formed_witness :
  exists self,
    __init__ (mkFile
                (Some (unlines ["[Preferences]"; "  WebUI\Port  =  8080  ";
                                "[BitTorrent]";
                                "Session\Interface : eth0"]%string))
                true)
    = Return self
    /\ NoDup (dict_keys (_sections (config self)))
    /\ (forall name items,
           In (name, items) (_sections (config self)) ->
           name <> [] /\ name <> DEFAULTSECT /\ entries_well_formed items)
    /\ entries_well_formed (_defaults (config self)).
Proof.
  eexists.
  assert (H : __init__ (mkFile
                          (Some (unlines ["[Preferences]";
                                          "  WebUI\Port  =  8080  ";
                                          "[BitTorrent]";
                                          "Session\Interface : eth0"]%string))
                          true)
              = Return _) by (vm_compute; reflexivity).
  split; [exact H|]. exact (@loaded_document_well_formed _ _ H).
Defined.

(** ** The setters, saved and loaded again *)

Lemma lookup_config (a b : QBittorrentConfig) (section option : str) :
  config a = config b -> lookup a section option = lookup b section option.
Proof. intros H. unfold lookup. rewrite H. reflexivity. Qed.

(** A setter followed by [if save: self.save()]. *)
Lemma then_save (m : M QBittorrentConfig unit) (save_ : bool)
    (self s1 : QBittorrentConfig) :
  m self = (Return tt, s1) ->
  (save_ = true -> writable (file s1) = true) ->
  (save_ = true -> document_encodable (config s1) = true) ->
  document_ok (config s1) = true ->
  exists s2,
    (m ;; if save_ then save else ret tt) self = (Return tt, s2)
    /\ config s2 = config s1
    /\ (save_ = true -> __init__ (file s2) = Return s2)
    /\ (save_ = false -> s2 = s1).
Proof.
  intros Hm Hw He Hok. rewrite (@bind_return _ _ _ _ _ _ _ _ Hm).
  destruct save_.
  - destruct (@save_then_init s1 (Hw eq_refl) (He eq_refl) Hok)
      as (s2 & H1 & _ & H3 & H4).
    exists s2. split; [exact H1|]. split; [exact H3|].
    split; [intros _; exact H4 | discriminate].
  - exists s1. split; [reflexivity|]. split; [reflexivity|].
    split; [discriminate | reflexivity].
Qed.

(** X4: what [set] stores is what the next load finds. On a document
    that a saved file gives back and that UTF-8 can encode, with a path
    that can be opened for writing, for a section name of one line
    other than DEFAULT, a key that the parser reads as a key and a
    value made of stripped lines that passes the interpolation check,
    all three without a code point that UTF-8 cannot encode: [set] then
    [save] return, a [QBittorrentConfig] created on the saved file holds
    the value at that section and key, every other section and key
    holds what it held before the call, and so do the defaults: the
    document is the one [set] made, and nothing else changed. *)
Theorem set_save_load (self : QBittorrentConfig) (section option value : str) :
  writable (file self) = true ->
  document_encodable (config self) = true ->
  document_ok (config self) = true ->
  name_ok section = true -> section <> DEFAULTSECT ->
  key_ok option value = true -> value_ok value = true ->
  accepts_value value = true ->
  forallb encodable section = true ->
  forallb encodable option = true ->
  forallb encodable value = true ->
  exists saved,
    (set section option value ;; save) self = (Return tt, saved)
    /\ __init__ (file saved) = Return saved
    /\ lookup saved section option = Some value
    /\ (forall section' option',
          section' <> section \/ option' <> option ->
          lookup saved section' option' = lookup self section' option')
    /\ _defaults (config saved) = _defaults (config self)
    /\ config saved = assigned (config self) section option value.
Proof.
  intros Hw He Hok Hn Hd Hk Hv Ha E1 E2 E3.
  assert (Hne : section <> []) by (destruct section; discriminate).
  destruct (@set_step self section option value Hn Hd Hk Hv Ha)
    as (s1 & Hset & Hfile & Hok1 & Hl & Hframe & Hdef & Henc).
  assert (Hw1 : writable (file s1) = true) by (rewrite Hfile; exact Hw).
  destruct (@then_save _ true self s1 Hset (fun _ => Hw1)
              (fun _ => Henc He E1 E2 E3) (Hok1 Hok))
    as (s2 & H1 & H2 & H3 & _).
  exists s2. split; [exact H1|]. split; [exact (H3 eq_refl)|].
  split; [rewrite (@lookup_config _ _ _ _ H2); exact Hl|].
  split; [intros s' o' Hother; rewrite (@lookup_config _ _ _ _ H2);
          apply Hframe, Hother|].
  split; [rewrite H2; exact Hdef|].
  rewrite H2. rewrite (@set_returns self section option value Hne Hd Ha) in Hset.
  injection Hset as <-. reflexivity.
Qed.

(** The theorem above for a value of two lines set in the document of
    the bootstrap. *)
Lemma set_save_load_witness :
  exists saved,
    (set (lit "Preferences") (lit "General\Note") [104; 105; 10; 104; 111]%N
     ;; save) (mkConfig (mkFile None true) setup_document) = (Return tt, saved)
    /\ __init__ (file saved) = Return saved
    /\ lookup saved (lit "Preferences") (lit "General\Note")
       = Some [104; 105; 10; 104; 111]%N
    /\ (forall section' option',
          section' <> lit "Preferences" \/ option' <> lit "General\Note" ->
          lookup saved section' option'
          = lookup (mkConfig (mkFile None true) setup_document)
              section' option')
    /\ _defaults (config saved) = []
    /\ config saved
       = assigned setup_document (lit "Preferences") (lit "General\Note")
           [104; 105; 10; 104; 111]%N.
Proof.
  apply (@set_save_load (mkConfig (mkFile None true) setup_document)
           (lit "Preferences") (lit "General\Note")
           [104; 105; 10; 104; 111]%N);
    first [discriminate | vm_compute; reflexivity].
Defined.

(** C4 (as amended): keys that differ in case only are two keys. On a
    document that a saved file gives back and that UTF-8 can encode,
    with a path that can be opened for writing, in any section whose
    name is one line, not empty, other than DEFAULT and can be encoded,
    for two values made of stripped lines that pass the interpolation
    check and can be encoded: setting "Port" and "port" and saving
    returns and leaves two entries, the file holds the text of the
    document, and a [QBittorrentConfig] created on the saved file holds
    each key with its own value. *)
Theorem case_sensitive_keys_reload (self : QBittorrentConfig)
    (section v1 v2 : str) :
  writable (file self) = true ->
  document_encodable (config self) = true ->
  document_ok (config self) = true ->
  name_ok section = true -> section <> DEFAULTSECT ->
  forallb encodable section = true ->
  value_ok v1 = true -> accepts_value v1 = true ->
  forallb encodable v1 = true ->
  value_ok v2 = true -> accepts_value v2 = true ->
  forallb encodable v2 = true ->
  exists saved,
    (set section (lit "Port") v1 ;; set section (lit "port") v2 ;; save) self
    = (Return tt, saved)
    /\ file saved = mkFile (Some (document_text (config saved))) true
    /\ __init__ (file saved) = Return saved
    /\ lookup saved section (lit "Port") = Some v1
    /\ lookup saved section (lit "port") = Some v2.
Proof.
  intros Hw He Hok Hn Hd Es Hv1 Ha1 E1 Hv2 Ha2 E2.
  assert (Hk1 : key_ok (lit "Port") v1 = true)
    by (rewrite (@key_ok_plain (lit "Port") v1 80%N (lit "ort") eq_refl eq_refl);
        reflexivity).
  assert (Hk2 : key_ok (lit "port") v2 = true)
    by (rewrite (@key_ok_plain (lit "port") v2 112%N (lit "ort") eq_refl eq_refl);
        reflexivity).
  destruct (@set_step self section (lit "Port") v1 Hn Hd Hk1 Hv1 Ha1)
    as (s1 & Hset1 & Hf1 & Hok1 & Hl1 & _ & _ & Henc1).
  destruct (@set_step s1 section (lit "port") v2 Hn Hd Hk2 Hv2 Ha2)
    as (s2 & Hset2 & Hf2 & Hok2 & Hl2 & Hframe2 & _ & Henc2).
  assert (Hw2 : writable (file s2) = true) by (rewrite Hf2, Hf1; exact Hw).
  pose proof (Henc2 (Henc1 He Es eq_refl E1) Es eq_refl E2) as He2.
  destruct (@save_then_init s2 Hw2 He2 (Hok2 (Hok1 Hok)))
    as (s3 & H1 & Hf3 & H2 & H3).
  exists s3. split; [|split; [|split; [exact H3|split]]].
  - rewrite (@bind_return _ _ _ _ _ _ _ _ Hset1).
    rewrite (@bind_return _ _ _ _ _ _ _ _ Hset2). exact H1.
  - rewrite Hf3, H2. reflexivity.
  - rewrite (@lookup_config _ _ _ _ H2), Hframe2; [exact Hl1|].
    right. discriminate.
  - rewrite (@lookup_config _ _ _ _ H2). exact Hl2.
Qed.

(** The theorem above in the section "Preferences" of the document of
    the bootstrap. *)
Lemma case_sensitive_keys_reload_witness :
  exists saved,
    (set (lit "Preferences") (lit "Port") (lit "1") ;;
     set (lit "Preferences") (lit "port") (lit "2") ;; save)
      (mkConfig (mkFile None true) setup_document)
    = (Return tt, saved)
    /\ file saved = mkFile (Some (document_text (config saved))) true
    /\ __init__ (file saved) = Return saved
    /\ lookup saved (lit "Preferences") (lit "Port") = Some (lit "1")
    /\ lookup saved (lit "Preferences") (lit "port") = Some (lit "2").
Proof.
  apply (@case_sensitive_keys_reload
           (mkConfig (mkFile None true) setup_document)
           (lit "Preferences") (lit "1") (lit "2"));
    first [discriminate | vm_compute; reflexivity].
Defined.

(** C4, as stated for every section, fails: in the section "DEFAULT"
    [set] raises ValueError and nothing is stored; in the section with
    the empty name the two keys go to the defaults, the section stays
    empty, and the saved file does not load; in a section whose name
    holds a newline the saved file does not load either. *)
Lemma case_sensitive_keys_counterexample :
  (set DEFAULTSECT (lit "Port") (lit "1") ;;
   set DEFAULTSECT (lit "port") (lit "2") ;; save)
    (mkConfig (mkFile None true) new_parser)
  = (Raise ValueError, mkConfig (mkFile None true) new_parser)
  /\ (exists saved,
        (set [] (lit "Port") (lit "1") ;; set [] (lit "port") (lit "2") ;;
         save) (mkConfig (mkFile None true) new_parser)
        = (Return tt, saved)
        /\ lookup saved [] (lit "Port") = None
        /\ lookup saved [] (lit "port") = None
        /\ __init__ (file saved) = Raise ParsingError)
  /\ (exists saved,
        (set [97; 10; 98]%N (lit "Port") (lit "1") ;;
         set [97; 10; 98]%N (lit "port") (lit "2") ;; save)
          (mkConfig (mkFile None true) new_parser)
        = (Return tt, saved)
        /\ __init__ (file saved) = Raise MissingSectionHeaderError).
Proof.
  split; [vm_compute; reflexivity|].
  split; eexists; (split; [vm_compute; reflexivity|]).
  - split; [vm_compute; reflexivity|].
    split; vm_compute; reflexivity.
  - vm_compute; reflexivity.
Qed.

(** X6: the port set by [set_web_port(port)], which saves, is the port
    the next load finds. For a [QBittorrentConfig] created on a file
    whose text UTF-8 can encode and whose path can be opened for
    writing, and an integer of at most 4300 decimal digits: the call
    returns, a [QBittorrentConfig] created on the saved file holds at
    "Preferences", "WebUI\Port" a decimal string that denotes [port],
    and every other entry of the sections and every entry of the
    defaults is as it was loaded. *)
Theorem set_web_port_reload (X : file_content) (self : QBittorrentConfig)
    (port : Z) :
  __init__ X = Return self ->
  writable X = true ->
  file_encodable X = true ->
  (List.length (int_digits port) <= int_max_str_digits)%nat ->
  exists saved,
    set_web_port port true self = (Return tt, saved)
    /\ __init__ (file saved) = Return saved
    /\ lookup saved (lit "Preferences") (lit "WebUI\Port")
       = Some (int_sign port ++ int_digits port)
    /\ decimal_value (int_sign port ++ int_digits port) = Some port
    /\ (forall section' option',
          section' <> lit "Preferences" \/ option' <> lit "WebUI\Port" ->
          lookup saved section' option' = lookup self section' option')
    /\ _defaults (config saved) = _defaults (config self).
Proof.
  intros Hinit Hw Hx Hp. destruct (@init_config X self Hinit) as [Hfile Hread].
  pose proof (@read_ok _ _ Hread) as Hok.
  pose proof (@init_encodable X self Hx Hinit) as He.
  assert (Hk : key_ok (lit "WebUI\Port") (int_sign port ++ int_digits port)
               = true)
    by (rewrite (@key_ok_plain (lit "WebUI\Port")
                   (int_sign port ++ int_digits port) 87%N
                   (lit "ebUI\Port") eq_refl eq_refl); reflexivity).
  destruct (@set_step self (lit "Preferences") (lit "WebUI\Port")
              (int_sign port ++ int_digits port) eq_refl ltac:(discriminate)
              Hk (@solid_value_ok _ (int_text_solid port))
              (int_text_accepted port))
    as (s1 & Hset & Hf1 & Hok1 & Hl & Hframe & Hdef & Henc).
  assert (Hw1 : writable (file s1) = true) by (rewrite Hf1, Hfile; exact Hw).
  pose proof (Henc He eq_refl eq_refl
                (proj2 (text_ok_iff _) (int_text_ok port))) as He1.
  destruct (@then_save _ true self s1 Hset (fun _ => Hw1) (fun _ => He1)
              (Hok1 Hok))
    as (s2 & H1 & H2 & H3 & _).
  exists s2. split.
  { unfold set_web_port. rewrite (@str_of_int_returns port Hp). exact H1. }
  split; [exact (H3 eq_refl)|].
  split; [rewrite (@lookup_config _ _ _ _ H2); exact Hl|].
  split; [apply decimal_value_int_text|].
  split; [intros s' o' Hother; rewrite (@lookup_config _ _ _ _ H2);
          apply Hframe, Hother|].
  rewrite H2. exact Hdef.
Qed.

(** The theorem above for the port 8080 on the file of the bootstrap. *)
Lemma set_web_port_reload_witness :
  exists self saved,
    __init__ (mkFile (Some setup_text) true) = Return self
    /\ set_web_port 8080 true self = (Return tt, saved)
    /\ __init__ (file saved) = Return saved
    /\ lookup saved (lit "Preferences") (lit "WebUI\Port")
       = Some (lit "8080")
    /\ decimal_value (lit "8080") = Some 8080%Z
    /\ (forall section' option',
          section' <> lit "Preferences" \/ option' <> lit "WebUI\Port" ->
          lookup saved section' option' = lookup self section' option')
    /\ _defaults (config saved) = _defaults (config self).
Proof.
  exists (mkConfig (mkFile (Some setup_text) true) setup_document).
  assert (H : __init__ (mkFile (Some setup_text) true)
              = Return (mkConfig (mkFile (Some setup_text) true)
                          setup_document))
    by (vm_compute; reflexivity).
  assert (Hp : (List.length (int_digits 8080) <= int_max_str_digits)%nat)
    by (apply Nat.leb_le; vm_compute; reflexivity).
  destruct (@set_web_port_reload (mkFile (Some setup_text) true) _ 8080%Z
              H eq_refl eq_refl Hp) as (saved & Hs).
  exists saved. split; [exact H | exact Hs].
Defined.

(** ** What [set] refuses *)

Lemma before_set_rejects (value : str) :
  accepts_value value = false ->
  exists c r, value = c :: r /\ before_set (c :: r) = Raise ValueError.
Proof.
  unfold accepts_value. destruct value as [|c r]; [discriminate|].
  intros H. exists c, r. split; [reflexivity|].
  unfold before_set in *. cbv zeta in *.
  destruct (char_in PERCENT _); [reflexivity | discriminate].
Qed.

(** X7: a refused value leaves its trace. When the value does not pass
    the interpolation check of the parser (a stray "%") and the section
    name is not "DEFAULT", [set] raises ValueError; the section the
    value was to go to has been added by then, so a section that did
    not exist is left in the document, empty, at the end, and a section
    that existed is left as it was. Nothing else changes. *)
Theorem set_rejected_value (self : QBittorrentConfig)
    (section option value : str) :
  section <> DEFAULTSECT ->
  accepts_value value = false ->
  set section option value self
  = (Raise ValueError,
     mkConfig (file self)
       (mkParser
          (if dict_mem section (_sections (config self))
           then _sections (config self)
           else _sections (config self) ++ [(section, [])])
          (_defaults (config self)))).
Proof.
  intros Hd Hv. destruct (before_set_rejects _ Hv) as (c & r & -> & Hb).
  destruct self as [f [S D]].
  unfold set, bind, on_config, has_section, add_section, parser_set, ret;
    cbn [config file _sections _defaults].
  destruct (str_eqb section DEFAULTSECT) eqn:E;
    [exfalso; apply str_eqb_eq in E; exact (Hd E)|].
  destruct (dict_mem section S) eqn:Hm;
    cbn [negb config file _sections _defaults].
  - rewrite Hb. reflexivity.
  - rewrite Hm. cbn [config file _sections _defaults]. rewrite Hb.
    rewrite (@dict_set_new _ section [] S (proj1 (dict_mem_false section S) Hm)).
    reflexivity.
Qed.

(** The theorem above for the user name "100%" on the empty document. *)
Lemma set_rejected_value_witness :
  set (lit "Preferences") (lit "WebUI\Username") (lit "100%")
    (mkConfig (mkFile None true) new_parser)
  = (Raise ValueError,
     mkConfig (mkFile None true) (mkParser [(lit "Preferences", [])] [])).
Proof.
  apply (@set_rejected_value (mkConfig (mkFile None true) new_parser) (lit "Preferences")
           (lit "WebUI\Username") (lit "100%"));
    [discriminate | reflexivity].
Defined.

(** X8: the section "DEFAULT" cannot be set through [set]. As long as
    no section of the document is named "DEFAULT" (none is after a load,
    and [add_section] never adds one), [set("DEFAULT", key, value)]
    raises ValueError for every key and value and leaves the object as
    it was. *)
Theorem set_default_section_raises (self : QBittorrentConfig)
    (option value : str) :
  ~ In DEFAULTSECT (dict_keys (_sections (config self))) ->
  set DEFAULTSECT option value self = (Raise ValueError, self).
Proof.
  intros Hn. destruct self as [f [S D]].
  unfold set, bind, on_config, has_section, add_section, ret;
    cbn [config file _sections _defaults] in *.
  rewrite (proj2 (dict_mem_false DEFAULTSECT S) Hn).
  cbn [negb config file _sections _defaults].
  rewrite str_eqb_refl. reflexivity.
Qed.

(** The theorem above on the document of the bootstrap. *)
Lemma set_default_section_raises_witness :
  set DEFAULTSECT (lit "k") (lit "v") (mkConfig (mkFile None true) setup_document)
  = (Raise ValueError, mkConfig (mkFile None true) setup_document).
Proof.
  apply (@set_default_section_raises (mkConfig (mkFile None true) setup_document)
           (lit "k") (lit "v")).
  vm_compute. intuition discriminate.
Defined.

(** ** The bootstrap on any document *)

Lemma pair_neq (a a' b b' : str) : (a, b) <> (a', b') -> a <> a' \/ b <> b'.
Proof.
  intros H. destruct (list_eq_dec N.eq_dec a a') as [->|Ha]; [|left; exact Ha].
  right. intros ->. apply H. reflexivity.
Qed.

Ltac other_key := first [left; discriminate | right; discriminate].

Lemma setup_run (self : QBittorrentConfig) :
  exists self',
    setup self = (Return tt, self')
    /\ file self' = file self
    /\ (forall section option value,
           In (section, option, value) setup_entries ->
           lookup self' section option = Some value)
    /\ (forall section option,
           ~ In (section, option) (map fst setup_entries) ->
           lookup self' section option = lookup self section option)
    /\ (document_ok (config self) = true -> document_ok (config self') = true)
    /\ _defaults (config self') = _defaults (config self)
    /\ (document_encodable (config self) = true ->
        document_encodable (config self') = true).
Proof.
  destruct (@set_step self (lit "LegalNotice") (lit "Accepted") (lit "true")
              eq_refl ltac:(discriminate) eq_refl eq_refl eq_refl)
    as (s1 & Hs1 & Hf1 & Hok1 & Hl1 & Hfr1 & Hd1 & He1).
  destruct (@set_step s1 (lit "Meta") (lit "MigrationVersion") (lit "3")
              eq_refl ltac:(discriminate) eq_refl eq_refl eq_refl)
    as (s2 & Hs2 & Hf2 & Hok2 & Hl2 & Hfr2 & Hd2 & He2).
  destruct (@set_step s2 (lit "Preferences") (lit "WebUI\Address") (lit "*")
              eq_refl ltac:(discriminate) eq_refl eq_refl eq_refl)
    as (s3 & Hs3 & Hf3 & Hok3 & Hl3 & Hfr3 & Hd3 & He3).
  destruct (@set_step s3 (lit "BitTorrent")
              (lit "Session\AddExtensionToIncompleteFiles") (lit "true")
              eq_refl ltac:(discriminate) eq_refl eq_refl eq_refl)
    as (s4 & Hs4 & Hf4 & Hok4 & Hl4 & Hfr4 & Hd4 & He4).
  destruct (@set_step s4 (lit "BitTorrent") (lit "Session\DefaultSavePath")
              (lit "/srv") eq_refl ltac:(discriminate) eq_refl eq_refl eq_refl)
    as (s5 & Hs5 & Hf5 & Hok5 & Hl5 & Hfr5 & Hd5 & He5).
  exists s5. split; [|split; [|split; [|split; [|split; [|split]]]]].
  - unfold setup.
    rewrite (@bind_return _ _ _ _ _ _ _ _ Hs1), (@bind_return _ _ _ _ _ _ _ _ Hs2),
      (@bind_return _ _ _ _ _ _ _ _ Hs3), (@bind_return _ _ _ _ _ _ _ _ Hs4).
    exact Hs5.
  - congruence.
  - intros section option value Hin. cbn [setup_entries In] in Hin.
    destruct Hin as [H|[H|[H|[H|[H|[]]]]]]; injection H as <- <- <-.
    + rewrite Hfr5, Hfr4, Hfr3, Hfr2 by other_key. exact Hl1.
    + rewrite Hfr5, Hfr4, Hfr3 by other_key. exact Hl2.
    + rewrite Hfr5, Hfr4 by other_key. exact Hl3.
    + rewrite Hfr5 by other_key. exact Hl4.
    + exact Hl5.
  - intros section option Hn. cbn [setup_entries map fst In] in Hn.
    rewrite Hfr5, Hfr4, Hfr3, Hfr2, Hfr1;
      [reflexivity|apply pair_neq; intros E; apply Hn; rewrite E; tauto..].
  - intros Hok. exact (Hok5 (Hok4 (Hok3 (Hok2 (Hok1 Hok))))).
  - congruence.
  - intros He.
    exact (He5 (He4 (He3 (He2 (He1 He eq_refl eq_refl eq_refl)
                             eq_refl eq_refl eq_refl)
                        eq_refl eq_refl eq_refl)
                   eq_refl eq_refl eq_refl)
             eq_refl eq_refl eq_refl).
Qed.

(** X9: the bootstrap on a document that already holds entries. On
    every document [setup] returns; afterwards each of its five keys
    holds its fixed value, every other section and key holds what it
    held before, the file is untouched, and a document that a saved file
    gives back stays one. *)
Theorem setup_on_any_document (self : QBittorrentConfig) :
  exists self',
    setup self = (Return tt, self')
    /\ file self' = file self
    /\ (forall section option value,
           In (section, option, value) setup_entries ->
           lookup self' section option = Some value)
    /\ (forall section option,
           ~ In (section, option) (map fst setup_entries) ->
           lookup self' section option = lookup self section option)
    /\ (document_ok (config self) = true -> document_ok (config self') = true).
Proof.
  destruct (setup_run self) as (s5 & H1 & H2 & H3 & H4 & H5 & _).
  exists s5. auto.
Qed.

(** X10: the bootstrap run twice is the bootstrap run once: on every
    document, [setup()] after [setup()] returns and changes nothing. *)
Theorem setup_idempotent (self : QBittorrentConfig) :
  (setup ;; setup) self = setup self.
Proof.
  destruct (setup_run self) as (s5 & Hs & _ & Hl & _).
  rewrite (@bind_return _ _ _ _ _ _ _ _ Hs), Hs.
  assert (Hsame : forall section option value,
             In (section, option, value) setup_entries ->
             set section option value s5 = (Return tt, s5)).
  { intros section option value Hin. pose proof (Hl _ _ _ Hin) as Hlook.
    cbn [setup_entries In] in Hin.
    destruct Hin as [H|[H|[H|[H|[H|[]]]]]]; injection H as <- <- <-;
      (apply set_same; [discriminate | discriminate | reflexivity | exact Hlook]). }
  unfold setup.
  rewrite (@bind_return _ _ _ _ _ _ _ _
             (Hsame _ _ _ (or_introl eq_refl))).
  rewrite (@bind_return _ _ _ _ _ _ _ _
             (Hsame _ _ _ (or_intror (or_introl eq_refl)))).
  rewrite (@bind_return _ _ _ _ _ _ _ _
             (Hsame _ _ _ (or_intror (or_intror (or_introl eq_refl))))).
  rewrite (@bind_return _ _ _ _ _ _ _ _
             (Hsame _ _ _
                (or_intror (or_intror (or_intror (or_introl eq_refl)))))).
  apply Hsame. cbn [setup_entries In]. tauto.
Qed.

(** ** Files that do not load, line endings *)

Lemma universal_newlines_app (l rest : str) :
  no_cr l ->
  universal_newlines (l ++ NL :: rest) = l ++ NL :: universal_newlines rest.
Proof.
  induction 1 as [|c l Hc Hl IH]; [reflexivity|].
  cbn [app universal_newlines].
  destruct (N.eqb c CR) eqn:E; [apply N.eqb_eq in E; contradiction|].
  rewrite IH. reflexivity.
Qed.

(** X11: an entry before any section header. When the first line of
    the file is neither blank, nor a comment, nor a section header, no
    [QBittorrentConfig] can be created on the file: the constructor
    raises MissingSectionHeaderError, whatever follows the line. *)
Theorem option_before_header_raises (l rest : str) (w : bool) :
  single_line l = true ->
  strip l <> [] ->
  is_comment (strip l) = false ->
  sectcre_match (strip l) = None ->
  __init__ (mkFile (Some (l ++ NL :: rest)) w)
  = Raise MissingSectionHeaderError.
Proof.
  intros Hs Hne Hc Hsec. apply single_line_spec in Hs. destruct Hs as [Hnl Hcr].
  unfold __init__, read, _read. cbn [content].
  rewrite (@universal_newlines_app l rest Hcr).
  rewrite (@readlines_line l (universal_newlines rest) Hnl).
  cbn [read_lines].
  assert (Hstrip : strip (l ++ [NL]) = strip l)
    by (apply strip_app_space; reflexivity).
  rewrite (@read_line_content read_start (l ++ [NL]) (strip l)
             ltac:(rewrite Hstrip; exact Hc) Hstrip Hne).
  cbv zeta. rewrite Hsec. reflexivity.
Qed.

(** The theorem above for a file that starts with an entry. *)
Lemma option_before_header_raises_witness :
  __init__ (mkFile (Some (lit "WebUI\Port=8080" ++ NL :: lit "[Preferences]"))
              true)
  = Raise MissingSectionHeaderError.
Proof.
  apply (@option_before_header_raises (lit "WebUI\Port=8080")
           (lit "[Preferences]") true);
    first [discriminate | reflexivity].
Defined.

Lemma universal_newlines_crlf (text : str) :
  no_cr text -> universal_newlines (crlf text) = text.
Proof.
  induction 1 as [|c text Hc Ht IH]; [reflexivity|].
  cbn [crlf flat_map]. fold (crlf text).
  destruct (N.eqb c NL) eqn:E.
  - apply N.eqb_eq in E. subst c. cbn [app universal_newlines N.eqb].
    change (N.eqb CR CR) with true. change (N.eqb NL NL) with true.
    cbv iota. rewrite IH. reflexivity.
  - cbn [app universal_newlines].
    destruct (N.eqb c CR) eqn:E'; [apply N.eqb_eq in E'; contradiction|].
    rewrite IH. reflexivity.
Qed.

(** X12: line ends do not matter. A file written with "\r\n" line ends
    loads as the file with "\n" line ends does: the same document, or
    the same exception. *)
Theorem crlf_file_loads_alike (text : str) :
  no_cr text -> read (Some (crlf text)) = read (Some text).
Proof.
  intros H. unfold read.
  rewrite (universal_newlines_crlf H), (universal_newlines_no_cr H).
  reflexivity.
Qed.

(** The theorem above for the file of the bootstrap. *)
Lemma crlf_file_loads_alike_witness :
  read (Some (crlf setup_text)) = read (Some setup_text).
Proof.
  apply (@crlf_file_loads_alike setup_text).
  unfold no_cr. apply Forall_forall. intros c Hc.
  assert (Hall : forallb (fun c => negb (N.eqb c CR)) setup_text = true)
    by (vm_compute; reflexivity).
  rewrite forallb_forall in Hall. specialize (Hall c Hc).
  apply negb_true_iff, N.eqb_neq in Hall. exact Hall.
Defined.

(** ** The setters as the hooks call them *)

Lemma b64_char_solid (b : byte) : b64_char b -> isspace (Byte.to_N b) = false.
Proof.
  intros [H| ->]; [|reflexivity].
  assert (Hall : forallb (fun b => negb (isspace (Byte.to_N b))) b64_table = true)
    by (vm_compute; reflexivity).
  rewrite forallb_forall in Hall. apply negb_true_iff, Hall, H.
Qed.

Lemma b64encode_solid (s : bytes) : solid (decode (b64encode s)) = true.
Proof.
  unfold solid, decode. rewrite forallb_on_map. apply forallb_Forall.
  pose proof (@b64encode_alphabet_le (List.length s) s (le_n _)) as H.
  revert H. apply Forall_impl. intros b Hb.
  rewrite (b64_char_solid Hb). reflexivity.
Qed.

Lemma digest_value_solid (salt hash : bytes) :
  solid (lit "@ByteArray(" ++ decode (b64encode salt) ++ lit ":"
         ++ decode (b64encode hash) ++ lit ")") = true.
Proof. rewrite !solid_app, !b64encode_solid. reflexivity. Qed.

(** A setter of one key, with its [if save: self.save()]. *)
Lemma setter_run (self : QBittorrentConfig) (section option value : str)
    (save_ : bool) :
  document_ok (config self) = true ->
  document_encodable (config self) = true ->
  (save_ = true -> writable (file self) = true) ->
  name_ok section = true -> section <> DEFAULTSECT ->
  key_ok option value = true -> value_ok value = true ->
  accepts_value value = true ->
  forallb encodable section = true ->
  forallb encodable option = true ->
  forallb encodable value = true ->
  exists s',
    (set section option value ;; if save_ then save else ret tt) self
    = (Return tt, s')
    /\ document_ok (config s') = true
    /\ document_encodable (config s') = true
    /\ (writable (file self) = true -> writable (file s') = true)
    /\ lookup s' section option = Some value
    /\ (forall section' option',
           section' <> section \/ option' <> option ->
           lookup s' section' option' = lookup self section' option')
    /\ _defaults (config s') = _defaults (config self)
    /\ (save_ = true -> __init__ (file s') = Return s')
    /\ (save_ = false -> file s' = file self).
Proof.
  intros Hok He Hw Hn Hd Hk Hv Ha E1 E2 E3.
  destruct (@set_step self section option value Hn Hd Hk Hv Ha)
    as (s1 & Hset & Hf & Hok1 & Hl & Hframe & Hdef & Henc).
  pose proof (Henc He E1 E2 E3) as He1.
  assert (Hw1 : save_ = true -> writable (file s1) = true)
    by (intros Hs; rewrite Hf; exact (Hw Hs)).
  destruct (@then_save _ save_ self s1 Hset Hw1 (fun _ => He1) (Hok1 Hok))
    as (s2 & H1 & H2 & H3 & H4).
  exists s2. split; [exact H1|]. split; [rewrite H2; exact (Hok1 Hok)|].
  split; [rewrite H2; exact He1|].
  split.
  { intros Hwr. destruct save_.
    - pose proof (H3 eq_refl) as Hi. rewrite (@bind_return _ _ _ _ _ _ _ _ Hset) in H1.
      rewrite (@save_returns s1 (Hw1 eq_refl) He1) in H1.
      injection H1 as <-. reflexivity.
    - rewrite (H4 eq_refl), Hf. exact Hwr. }
  split; [rewrite (@lookup_config _ _ _ _ H2); exact Hl|].
  split; [intros s' o' Hother; rewrite (@lookup_config _ _ _ _ H2);
          apply Hframe, Hother|].
  split; [rewrite H2; exact Hdef|].
  split; [exact H3|].
  intros Hs. rewrite (H4 Hs). exact Hf.
Qed.

Lemma set_web_port_run (self : QBittorrentConfig) (port : Z) (save_ : bool) :
  document_ok (config self) = true ->
  document_encodable (config self) = true ->
  (save_ = true -> writable (file self) = true) ->
  (List.length (int_digits port) <= int_max_str_digits)%nat ->
  exists s',
    set_web_port port save_ self = (Return tt, s')
    /\ document_ok (config s') = true
    /\ document_encodable (config s') = true
    /\ (writable (file self) = true -> writable (file s') = true)
    /\ lookup s' (lit "Preferences") (lit "WebUI\Port")
       = Some (int_sign port ++ int_digits port)
    /\ (forall section' option',
           section' <> lit "Preferences" \/ option' <> lit "WebUI\Port" ->
           lookup s' section' option' = lookup self section' option')
    /\ _defaults (config s') = _defaults (config self)
    /\ (save_ = true -> __init__ (file s') = Return s')
    /\ (save_ = false -> file s' = file self).
Proof.
  intros Hok He Hw Hp. unfold set_web_port.
  rewrite (@str_of_int_returns port Hp).
  apply setter_run;
    [exact Hok | exact He | exact Hw | reflexivity | discriminate | |
     | apply int_text_accepted | reflexivity | reflexivity
     | apply text_ok_iff, int_text_ok].
  - rewrite (@key_ok_plain (lit "WebUI\Port")
               (int_sign port ++ int_digits port) 87%N
               (lit "ebUI\Port") eq_refl eq_refl). reflexivity.
  - apply solid_value_ok, int_text_solid.
Qed.

Lemma set_web_username_run (self : QBittorrentConfig) (username : str)
    (save_ : bool) :
  document_ok (config self) = true ->
  document_encodable (config self) = true ->
  (save_ = true -> writable (file self) = true) ->
  value_ok username = true -> accepts_value username = true ->
  forallb encodable username = true ->
  exists s',
    set_web_username username save_ self = (Return tt, s')
    /\ document_ok (config s') = true
    /\ document_encodable (config s') = true
    /\ (writable (file self) = true -> writable (file s') = true)
    /\ lookup s' (lit "Preferences") (lit "WebUI\Username") = Some username
    /\ (forall section' option',
           section' <> lit "Preferences" \/ option' <> lit "WebUI\Username" ->
           lookup s' section' option' = lookup self section' option')
    /\ _defaults (config s') = _defaults (config self)
    /\ (save_ = true -> __init__ (file s') = Return s')
    /\ (save_ = false -> file s' = file self).
Proof.
  intros Hok He Hw Hv Ha Eu. apply setter_run;
    [exact Hok | exact He | exact Hw | reflexivity | discriminate |
     | exact Hv | exact Ha | reflexivity | reflexivity | exact Eu].
  rewrite (@key_ok_plain (lit "WebUI\Username") username 87%N
             (lit "ebUI\Username") eq_refl eq_refl). reflexivity.
Qed.

Lemma set_web_password_save_run (self : QBittorrentConfig) (password : str)
    (pw : bytes) (save_ : bool) (entropy : nat -> byte) :
  document_ok (config self) = true ->
  document_encodable (config self) = true ->
  (save_ = true -> writable (file self) = true) ->
  encode password = Return pw ->
  exists s',
    set_web_password password save_ entropy self = (Return tt, s')
    /\ document_ok (config s') = true
    /\ document_encodable (config s') = true
    /\ (writable (file self) = true -> writable (file s') = true)
    /\ lookup s' (lit "Preferences") (lit "WebUI\Password_PBKDF2")
       = Some (lit "@ByteArray("
               ++ decode (b64encode (token_bytes 16 entropy)) ++ lit ":"
               ++ decode (b64encode
                    (pbkdf2_hmac_sha512 pw (token_bytes 16 entropy) 100000))
               ++ lit ")")
    /\ (forall section' option',
           section' <> lit "Preferences"
           \/ option' <> lit "WebUI\Password_PBKDF2" ->
           lookup s' section' option' = lookup self section' option')
    /\ _defaults (config s') = _defaults (config self)
    /\ (save_ = true -> __init__ (file s') = Return s')
    /\ (save_ = false -> file s' = file self).
Proof.
  intros Hok He Hw Henc. unfold set_web_password. cbv zeta. rewrite Henc.
  generalize (pbkdf2_hmac_sha512 pw (token_bytes 16 entropy) 100000).
  intros hash. apply setter_run;
    [exact Hok | exact He | exact Hw | reflexivity | discriminate | |
     apply solid_value_ok, digest_value_solid | apply digest_value_accepted
     | reflexivity | reflexivity | apply text_ok_iff, digest_value_ok].
  rewrite (@key_ok_plain (lit "WebUI\Password_PBKDF2") _ 87%N
             (lit "ebUI\Password_PBKDF2") eq_refl eq_refl). reflexivity.
Qed.

Lemma set_bittorrent_interface_run (self : QBittorrentConfig)
    (interface : str) (save_ : bool) :
  document_ok (config self) = true ->
  document_encodable (config self) = true ->
  (save_ = true -> writable (file self) = true) ->
  value_ok interface = true -> accepts_value interface = true ->
  forallb encodable interface = true ->
  exists s',
    set_bittorrent_interface interface save_ self = (Return tt, s')
    /\ document_ok (config s') = true
    /\ document_encodable (config s') = true
    /\ (writable (file self) = true -> writable (file s') = true)
    /\ lookup s' (lit "BitTorrent") (lit "Session\Interface") = Some interface
    /\ lookup s' (lit "BitTorrent") (lit "Session\InterfaceName")
       = Some interface
    /\ (forall section' option',
           ~ In (section', option')
               [(lit "BitTorrent", lit "Session\Interface");
                (lit "BitTorrent", lit "Session\InterfaceName")] ->
           lookup s' section' option' = lookup self section' option')
    /\ _defaults (config s') = _defaults (config self)
    /\ (save_ = true -> __init__ (file s') = Return s')
    /\ (save_ = false -> file s' = file self).
Proof.
  intros Hok He Hw Hv Ha Ei.
  assert (Hk1 : key_ok (lit "Session\Interface") interface = true)
    by (rewrite (@key_ok_plain (lit "Session\Interface") interface 83%N
                   (lit "ession\Interface") eq_refl eq_refl); reflexivity).
  assert (Hk2 : key_ok (lit "Session\InterfaceName") interface = true)
    by (rewrite (@key_ok_plain (lit "Session\InterfaceName") interface 83%N
                   (lit "ession\InterfaceName") eq_refl eq_refl); reflexivity).
  destruct (@set_step self (lit "BitTorrent") (lit "Session\Interface")
              interface eq_refl ltac:(discriminate) Hk1 Hv Ha)
    as (s1 & Hset1 & Hf1 & Hok1 & Hl1 & Hframe1 & Hdef1 & Henc1).
  assert (Hw1 : save_ = true -> writable (file s1) = true)
    by (intros Hs; rewrite Hf1; exact (Hw Hs)).
  destruct (@setter_run s1 (lit "BitTorrent") (lit "Session\InterfaceName")
              interface save_ (Hok1 Hok) (Henc1 He eq_refl eq_refl Ei) Hw1
              eq_refl ltac:(discriminate) Hk2 Hv Ha eq_refl eq_refl Ei)
    as (s2 & Hrun & Hok2 & He2 & Hw2 & Hl2 & Hframe2 & Hdef2 & Hsave & Hfile).
  exists s2.
  split; [|split; [exact Hok2|split; [exact He2|split; [|split;
    [|split; [exact Hl2|split; [|split]]]]]]].
  - unfold set_bittorrent_interface.
    rewrite (@bind_return _ _ _ _ _ _ _ _ Hset1). exact Hrun.
  - intros Hwr. apply Hw2. rewrite Hf1. exact Hwr.
  - rewrite Hframe2 by other_key. exact Hl1.
  - intros s' o' Hn. cbn [In] in Hn.
    rewrite Hframe2, Hframe1;
      [reflexivity|apply pair_neq; intros E; apply Hn; rewrite E; tauto..].
  - rewrite Hdef2. exact Hdef1.
  - split; [exact Hsave|]. intros Hs. rewrite (Hfile Hs). exact Hf1.
Qed.

(** A document just loaded, with what the theorems below need of it. *)
Lemma init_ready (X : file_content) (self : QBittorrentConfig) :
  __init__ X = Return self ->
  writable X = true -> file_encodable X = true ->
  document_ok (config self) = true
  /\ document_encodable (config self) = true
  /\ writable (file self) = true.
Proof.
  intros Hinit Hw Hx. destruct (@init_config X self Hinit) as [Hfile Hread].
  split; [exact (@read_ok _ _ Hread)|].
  split; [exact (@init_encodable X self Hx Hinit)|].
  rewrite Hfile. exact Hw.
Qed.

(** X13: [set_bittorrent_interface(interface)], which saves, stores the
    name under both of its keys, and both are what the next load finds.
    On a [QBittorrentConfig] created on a file whose text UTF-8 can
    encode and whose path can be opened for writing, for an interface
    name made of stripped lines that passes the interpolation check and
    that UTF-8 can encode: the call returns, a [QBittorrentConfig]
    created on the saved file holds the name at "Session\Interface" and
    at "Session\InterfaceName" of "BitTorrent", and every other entry
    of the sections and every entry of the defaults is as it was
    loaded. *)
Theorem set_bittorrent_interface_reload (X : file_content)
    (self : QBittorrentConfig) (interface : str) :
  __init__ X = Return self ->
  writable X = true -> file_encodable X = true ->
  value_ok interface = true -> accepts_value interface = true ->
  forallb encodable interface = true ->
  exists saved,
    set_bittorrent_interface interface true self = (Return tt, saved)
    /\ __init__ (file saved) = Return saved
    /\ lookup saved (lit "BitTorrent") (lit "Session\Interface")
       = Some interface
    /\ lookup saved (lit "BitTorrent") (lit "Session\InterfaceName")
       = Some interface
    /\ (forall section' option',
          ~ In (section', option')
              [(lit "BitTorrent", lit "Session\Interface");
               (lit "BitTorrent", lit "Session\InterfaceName")] ->
          lookup saved section' option' = lookup self section' option')
    /\ _defaults (config saved) = _defaults (config self).
Proof.
  intros Hinit Hw Hx Hv Ha Ei.
  destruct (@init_ready X self Hinit Hw Hx) as (Hok & He & Hwr).
  destruct (@set_bittorrent_interface_run self interface true Hok He
              (fun _ => Hwr) Hv Ha Ei)
    as (s' & H1 & _ & _ & _ & H3 & H4 & H5 & H6 & H7 & _).
  exists s'. split; [exact H1|]. split; [exact (H7 eq_refl)|]. auto.
Qed.

(** The theorem above for "eth0" on a missing file, in a directory that
    can be written. *)
Lemma set_bittorrent_interface_reload_witness :
  exists saved,
    set_bittorrent_interface (lit "eth0") true
      (mkConfig (mkFile None true) new_parser)
    = (Return tt, saved)
    /\ __init__ (file saved) = Return saved
    /\ lookup saved (lit "BitTorrent") (lit "Session\Interface")
       = Some (lit "eth0")
    /\ lookup saved (lit "BitTorrent") (lit "Session\InterfaceName")
       = Some (lit "eth0")
    /\ (forall section' option',
          ~ In (section', option')
              [(lit "BitTorrent", lit "Session\Interface");
               (lit "BitTorrent", lit "Session\InterfaceName")] ->
          lookup saved section' option'
          = lookup (mkConfig (mkFile None true) new_parser) section' option')
    /\ _defaults (config saved) = [].
Proof.
  apply (@set_bittorrent_interface_reload (mkFile None true)
           (mkConfig (mkFile None true) new_parser) (lit "eth0"));
    reflexivity.
Defined.

(** X14: the stored password digest is what the next load finds. On a
    [QBittorrentConfig] created on a file whose text UTF-8 can encode
    and whose path can be opened for writing, for every password that
    UTF-8 can encode and every salt drawn: [set_web_password(password)],
    which saves, returns, and a [QBittorrentConfig] created on the saved
    file holds at "Preferences", "WebUI\Password_PBKDF2" the very string
    "@ByteArray(salt:digest)" that was stored, every other entry of the
    sections and every entry of the defaults being as it was loaded. *)
Theorem set_web_password_reload (X : file_content) (self : QBittorrentConfig)
    (password : str) (pw : bytes) (entropy : nat -> byte) :
  __init__ X = Return self ->
  writable X = true -> file_encodable X = true ->
  encode password = Return pw ->
  exists saved,
    set_web_password password true entropy self = (Return tt, saved)
    /\ __init__ (file saved) = Return saved
    /\ lookup saved (lit "Preferences") (lit "WebUI\Password_PBKDF2")
       = Some (lit "@ByteArray("
               ++ decode (b64encode (token_bytes 16 entropy)) ++ lit ":"
               ++ decode (b64encode
                    (pbkdf2_hmac_sha512 pw (token_bytes 16 entropy) 100000))
               ++ lit ")")
    /\ (forall section' option',
          section' <> lit "Preferences"
          \/ option' <> lit "WebUI\Password_PBKDF2" ->
          lookup saved section' option' = lookup self section' option')
    /\ _defaults (config saved) = _defaults (config self).
Proof.
  intros Hinit Hw Hx Henc.
  destruct (@init_ready X self Hinit Hw Hx) as (Hok & He & Hwr).
  destruct (@set_web_password_save_run self password pw true entropy
              Hok He (fun _ => Hwr) Henc)
    as (s' & H1 & _ & _ & _ & H3 & H4 & H5 & H6 & _).
  exists s'. split; [exact H1|]. split; [exact (H6 eq_refl)|]. auto.
Qed.

(** The theorem above for the password "secret" and the all-zero salt,
    on a missing file, in a directory that can be written. *)
Lemma set_web_password_reload_witness :
  exists saved,
    set_web_password (lit "secret") true (fun _ => x00)
      (mkConfig (mkFile None true) new_parser) = (Return tt, saved)
    /\ __init__ (file saved) = Return saved
    /\ _defaults (config saved) = [].
Proof.
  destruct (@set_web_password_reload (mkFile None true)
              (mkConfig (mkFile None true) new_parser)
              (lit "secret") (list_byte_of_string "secret") (fun _ => x00)
              eq_refl eq_refl eq_refl eq_refl)
    as (saved & H1 & H2 & _ & _ & H5).
  exists saved. split; [exact H1|]. split; [exact H2 | exact H5].
Defined.

Ltac not_in := cbn [In]; intros Hnot_in; intuition discriminate.

(** X15: the two calls of the config-changed hook. On a
    [QBittorrentConfig] created on a file whose text UTF-8 can encode
    and whose path can be opened for writing, [set_web_port(port)] then
    [set_bittorrent_interface(interface)], each saving, return for
    every integer of at most 4300 decimal digits and every interface
    name made of stripped lines that passes the interpolation check and
    that UTF-8 can encode; a [QBittorrentConfig] created on the file
    they leave holds the port and, twice, the interface name, and every
    other entry of the sections and every entry of the defaults is as
    it was before the hook. *)
Theorem config_changed_calls (X : file_content) (self : QBittorrentConfig)
    (port : Z) (interface : str) :
  __init__ X = Return self ->
  writable X = true -> file_encodable X = true ->
  (List.length (int_digits port) <= int_max_str_digits)%nat ->
  value_ok interface = true -> accepts_value interface = true ->
  forallb encodable interface = true ->
  exists saved,
    (set_web_port port true ;; set_bittorrent_interface interface true) self
    = (Return tt, saved)
    /\ __init__ (file saved) = Return saved
    /\ lookup saved (lit "Preferences") (lit "WebUI\Port")
       = Some (int_sign port ++ int_digits port)
    /\ lookup saved (lit "BitTorrent") (lit "Session\Interface")
       = Some interface
    /\ lookup saved (lit "BitTorrent") (lit "Session\InterfaceName")
       = Some interface
    /\ (forall section' option',
          ~ In (section', option')
              [(lit "Preferences", lit "WebUI\Port");
               (lit "BitTorrent", lit "Session\Interface");
               (lit "BitTorrent", lit "Session\InterfaceName")] ->
          lookup saved section' option' = lookup self section' option')
    /\ _defaults (config saved) = _defaults (config self).
Proof.
  intros Hinit Hw Hx Hp Hv Ha Ei.
  destruct (@init_ready X self Hinit Hw Hx) as (Hok & He & Hwr).
  destruct (@set_web_port_run self port true Hok He (fun _ => Hwr) Hp)
    as (s1 & Hp1 & Hok1 & He1 & Hw1 & Hl1 & Hframe1 & Hdef1 & _).
  destruct (@set_bittorrent_interface_run s1 interface true Hok1 He1
              (fun _ => Hw1 Hwr) Hv Ha Ei)
    as (s2 & Hi & _ & _ & _ & Hl2 & Hl3 & Hframe2 & Hdef2 & Hsave & _).
  exists s2. split; [rewrite (@bind_return _ _ _ _ _ _ _ _ Hp1); exact Hi|].
  split; [exact (Hsave eq_refl)|].
  split; [rewrite Hframe2 by not_in; exact Hl1|].
  split; [exact Hl2|]. split; [exact Hl3|].
  split; [|rewrite Hdef2; exact Hdef1].
  intros s' o' Hn. cbn [In] in Hn. rewrite Hframe2, Hframe1.
  - reflexivity.
  - apply pair_neq. intros E. apply Hn. rewrite E. tauto.
  - cbn [In]. tauto.
Qed.

(** The theorem above for the port 8080 and "eth0" on the file of the
    bootstrap. *)
Lemma config_changed_calls_witness :
  exists saved,
    (set_web_port 8080 true ;; set_bittorrent_interface (lit "eth0") true)
      (mkConfig (mkFile (Some setup_text) true) setup_document)
    = (Return tt, saved)
    /\ __init__ (file saved) = Return saved
    /\ _defaults (config saved) = [].
Proof.
  assert (H : __init__ (mkFile (Some setup_text) true)
              = Return (mkConfig (mkFile (Some setup_text) true)
                          setup_document))
    by (vm_compute; reflexivity).
  assert (Hp : (List.length (int_digits 8080) <= int_max_str_digits)%nat)
    by (apply Nat.leb_le; vm_compute; reflexivity).
  destruct (@config_changed_calls (mkFile (Some setup_text) true) _ 8080%Z
              (lit "eth0") H eq_refl eq_refl Hp eq_refl eq_refl eq_refl)
    as (saved & H1 & H2 & _ & _ & _ & _ & H7).
  exists saved. split; [exact H1|]. split; [exact H2 | exact H7].
Defined.

(** X16: the calls of the install hook on the configuration. On a
    [QBittorrentConfig] created on a file whose text UTF-8 can encode
    and whose path can be opened for writing (the hook has just touched
    it), [setup()], then the port, the user name, the password and the
    interface with [save=False], then [save()], return for every
    integer of at most 4300 decimal digits, every password that UTF-8
    can encode and every user and interface name made of stripped lines
    that passes the interpolation check and that UTF-8 can encode. A
    [QBittorrentConfig] created on the saved file holds the five
    entries of the bootstrap, the port, the user name, the password
    digest and, twice, the interface name; every other entry of the
    sections and every entry of the defaults is as it was in the file
    before. *)
Theorem install_calls (X : file_content) (self : QBittorrentConfig)
    (port : Z) (user password interface : str) (pw : bytes)
    (entropy : nat -> byte) :
  __init__ X = Return self ->
  writable X = true -> file_encodable X = true ->
  (List.length (int_digits port) <= int_max_str_digits)%nat ->
  value_ok user = true -> accepts_value user = true ->
  forallb encodable user = true ->
  encode password = Return pw ->
  value_ok interface = true -> accepts_value interface = true ->
  forallb encodable interface = true ->
  exists saved,
    (setup ;;
     set_web_port port false ;;
     set_web_username user false ;;
     set_web_password password false entropy ;;
     set_bittorrent_interface interface false ;;
     save) self = (Return tt, saved)
    /\ __init__ (file saved) = Return saved
    /\ (forall section option value,
           In (section, option, value) setup_entries ->
           lookup saved section option = Some value)
    /\ lookup saved (lit "Preferences") (lit "WebUI\Port")
       = Some (int_sign port ++ int_digits port)
    /\ lookup saved (lit "Preferences") (lit "WebUI\Username") = Some user
    /\ lookup saved (lit "Preferences") (lit "WebUI\Password_PBKDF2")
       = Some (lit "@ByteArray("
               ++ decode (b64encode (token_bytes 16 entropy)) ++ lit ":"
               ++ decode (b64encode
                    (pbkdf2_hmac_sha512 pw (token_bytes 16 entropy) 100000))
               ++ lit ")")
    /\ lookup saved (lit "BitTorrent") (lit "Session\Interface")
       = Some interface
    /\ lookup saved (lit "BitTorrent") (lit "Session\InterfaceName")
       = Some interface
    /\ (forall section' option',
          ~ In (section', option')
              (map fst setup_entries
               ++ [(lit "Preferences", lit "WebUI\Port");
                   (lit "Preferences", lit "WebUI\Username");
                   (lit "Preferences", lit "WebUI\Password_PBKDF2");
                   (lit "BitTorrent", lit "Session\Interface");
                   (lit "BitTorrent", lit "Session\InterfaceName")]) ->
          lookup saved section' option' = lookup self section' option')
    /\ _defaults (config saved) = _defaults (config self).
Proof.
  intros Hinit Hw Hx Hp Hvu Hau Eu Henc Hvi Hai Ei.
  destruct (@init_ready X self Hinit Hw Hx) as (Hok & He & Hwr).
  destruct (setup_run self)
    as (s1 & H1 & Hf1 & Hl1 & Hfr1 & Hok1 & Hd1 & He1).
  specialize (Hok1 Hok). specialize (He1 He).
  destruct (@set_web_port_run s1 port false Hok1 He1
              ltac:(discriminate) Hp)
    as (s2 & H2 & Hok2 & He2 & _ & Hl2 & Hfr2 & Hd2 & _ & Hf2).
  destruct (@set_web_username_run s2 user false Hok2 He2
              ltac:(discriminate) Hvu Hau Eu)
    as (s3 & H3 & Hok3 & He3 & _ & Hl3 & Hfr3 & Hd3 & _ & Hf3).
  destruct (@set_web_password_save_run s3 password pw false entropy Hok3 He3
              ltac:(discriminate) Henc)
    as (s4 & H4 & Hok4 & He4 & _ & Hl4 & Hfr4 & Hd4 & _ & Hf4).
  destruct (@set_bittorrent_interface_run s4 interface false Hok4 He4
              ltac:(discriminate) Hvi Hai Ei)
    as (s5 & H5 & Hok5 & He5 & _ & Hl5 & Hl5' & Hfr5 & Hd5 & _ & Hf5).
  assert (Hw5 : writable (file s5) = true).
  { rewrite (Hf5 eq_refl), (Hf4 eq_refl), (Hf3 eq_refl), (Hf2 eq_refl), Hf1.
    exact Hwr. }
  destruct (@save_then_init s5 Hw5 He5 Hok5) as (s6 & H6 & _ & Hc6 & Hi6).
  exists s6. split.
  { rewrite (@bind_return _ _ _ _ _ _ _ _ H1), (@bind_return _ _ _ _ _ _ _ _ H2),
      (@bind_return _ _ _ _ _ _ _ _ H3), (@bind_return _ _ _ _ _ _ _ _ H4),
      (@bind_return _ _ _ _ _ _ _ _ H5).
    exact H6. }
  split; [exact Hi6|].
  assert (Hl : forall s o, lookup s6 s o = lookup s5 s o)
    by (intros s o; apply lookup_config, Hc6).
  split.
  { intros section option value Hin. pose proof (Hl1 _ _ _ Hin) as Hlook.
    cbn [setup_entries In] in Hin. rewrite Hl.
    destruct Hin as [H|[H|[H|[H|[H|[]]]]]]; injection H as <- <- <-;
      (rewrite Hfr5 by not_in; rewrite Hfr4, Hfr3, Hfr2 by other_key;
       exact Hlook). }
  split.
  { rewrite Hl, Hfr5 by not_in. rewrite Hfr4, Hfr3 by other_key. exact Hl2. }
  split.
  { rewrite Hl, Hfr5 by not_in. rewrite Hfr4 by other_key. exact Hl3. }
  split.
  { rewrite Hl, Hfr5 by not_in. exact Hl4. }
  split; [rewrite Hl; exact Hl5|]. split; [rewrite Hl; exact Hl5'|].
  split; [|rewrite Hc6, Hd5, Hd4, Hd3, Hd2; exact Hd1].
  intros s' o' Hn. rewrite Hl. cbn [setup_entries map fst app In] in Hn.
  rewrite Hfr5, Hfr4, Hfr3, Hfr2, Hfr1.
  - reflexivity.
  - cbn [setup_entries map fst In]. tauto.
  - apply pair_neq. intros E. apply Hn. rewrite E. tauto.
  - apply pair_neq. intros E. apply Hn. rewrite E. tauto.
  - apply pair_neq. intros E. apply Hn. rewrite E. tauto.
  - cbn [In]. tauto.
Qed.

(** The theorem above on an empty file, for the port 8080, the user
    "admin", the password "secret" with the all-zero salt, and "eth0". *)
Lemma install_calls_witness :
  exists saved,
    (setup ;;
     set_web_port 8080 false ;;
     set_web_username (lit "admin") false ;;
     set_web_password (lit "secret") false (fun _ => x00) ;;
     set_bittorrent_interface (lit "eth0") false ;;
     save) (mkConfig (mkFile (Some []) true) new_parser) = (Return tt, saved)
    /\ __init__ (file saved) = Return saved
    /\ _defaults (config saved) = [].
Proof.
  assert (Hp : (List.length (int_digits 8080) <= int_max_str_digits)%nat)
    by (apply Nat.leb_le; vm_compute; reflexivity).
  destruct (@install_calls (mkFile (Some []) true)
              (mkConfig (mkFile (Some []) true) new_parser) 8080%Z
              (lit "admin") (lit "secret") (lit "eth0")
              (list_byte_of_string "secret") (fun _ => x00)
              eq_refl eq_refl eq_refl Hp eq_refl eq_refl eq_refl eq_refl
              eq_refl eq_refl eq_refl)
    as (saved & H1 & H2 & _ & _ & _ & _ & _ & _ & _ & H10).
  exists saved. split; [exact H1|]. split; [exact H2 | exact H10].
Defined.

(** ** Saved files with a line too many *)

Lemma set_cursect_items_keys (st : read_state) cur items items' :
  cursect_items st cur = Some items ->
  dict_keys (rs_sections (set_cursect_items st cur items'))
  = dict_keys (rs_sections st).
Proof.
  destruct cur as [|name]; cbn; [reflexivity|]. intros H.
  apply dict_keys_set. exact (dict_get_in _ _ H).
Qed.

Lemma append_value_tracked (st st' : read_state) cur name value :
  cursect st = Some cur -> tracked st ->
  append_value st cur name value = Return st' -> tracked st'.
Proof.
  intros Hcur [_ Hadd]. unfold append_value.
  destruct (cursect_items st cur) as [items|] eqn:Hitems; [|discriminate].
  destruct (dict_get name items); [|discriminate].
  intros H. injection H as <-. split.
  - destruct cur; cbn [set_cursect_items cursect]; congruence.
  - intros n. rewrite (@set_cursect_items_keys st cur items _ Hitems).
    destruct cur; cbn [set_cursect_items elements_added]; apply Hadd.
Qed.

Lemma read_line_tracked (st st' : read_state) (line : str) :
  tracked st -> read_line st line = Return st' -> tracked st'.
Proof.
  intros Ht. destruct (is_comment (strip line)) eqn:Hc.
  { rewrite (@read_line_comment st line Hc). intros H. injection H as <-.
    exact Ht. }
  destruct (strip line) as [|x r] eqn:Hv.
  { rewrite (@read_line_blank st line Hv).
    destruct (cursect st) as [cur|] eqn:Hcur;
      [|intros H; injection H as <-; exact Ht].
    destruct (truthy (optname st)) as [name|];
      [|intros H; injection H as <-; exact Ht].
    apply (@append_value_tracked st st' cur name [] Hcur Ht). }
  rewrite (@read_line_content st line (x :: r) ltac:(rewrite Hv; exact Hc) Hv
             ltac:(discriminate)).
  cbv zeta.
  set (indent := match first_nonspace line with Some i => i | None => 0%nat end).
  assert (Hfresh :
            match sectcre_match (x :: r) with
            | Some name => read_header st indent name
            | None =>
                match cursect st with
                | None => Raise MissingSectionHeaderError
                | Some cur => read_option st indent cur (x :: r)
                end
            end = Return st' -> tracked st').
  { destruct Ht as [Hnone Hadd].
    destruct (sectcre_match (x :: r)) as [name|].
    - unfold read_header.
      destruct (dict_mem name (rs_sections st)) eqn:Hmem.
      + destruct (existsb _ _); [discriminate|].
        intros H. injection H as <-. split; [discriminate|].
        cbn [rs_sections elements_added]. intros n Hn. right. apply Hadd, Hn.
      + destruct (str_eqb name DEFAULTSECT).
        * intros H. injection H as <-. split; [discriminate|]. exact Hadd.
        * intros H. injection H as <-. split; [discriminate|].
          cbn [rs_sections elements_added]. intros n Hn.
          rewrite (@dict_set_new _ name [] (rs_sections st)
                     (proj1 (dict_mem_false name (rs_sections st)) Hmem)) in Hn.
          rewrite keys_app in Hn. apply in_app_or in Hn.
          destruct Hn as [Hn|[<-|[]]]; [right; apply Hadd, Hn | left; reflexivity].
    - destruct (cursect st) as [cur|] eqn:Hcur; [|discriminate].
      unfold read_option. destruct (optcre_match (x :: r)) as [[name optval]|].
      + cbv zeta. destruct (existsb _ _); [discriminate|].
        destruct (cursect_items st cur) as [items|] eqn:Hitems; [|discriminate].
        intros H. injection H as <-. split; [cbn [cursect]; congruence|].
        cbn [rs_sections elements_added]. intros n.
        rewrite (@set_cursect_items_keys st cur items _ Hitems).
        intros Hn. right. apply Hadd, Hn.
      + intros H. injection H as <-. split; [cbn [cursect]; congruence|].
        exact Hadd. }
  destruct (cursect st) as [cur|] eqn:Hcur; [|exact Hfresh].
  destruct (truthy (optname st)) as [name|]; [|exact Hfresh].
  destruct (Nat.ltb (indent_level st) indent); [|exact Hfresh].
  apply (@append_value_tracked st st' cur name (x :: r) Hcur Ht).
Qed.

Lemma read_lines_tracked (lines : list str) :
  forall st st',
    tracked st -> read_lines st lines = Return st' -> tracked st'.
Proof.
  induction lines as [|l lines IH]; intros st st' Ht; cbn [read_lines].
  - intros H. injection H as <-. exact Ht.
  - destruct (read_line st l) as [st1|] eqn:H1; [|discriminate].
    apply IH. exact (@read_line_tracked st st1 l Ht H1).
Qed.

(** The state of [_read] at the end of a saved file. *)
Lemma read_saved (p : ConfigParser) :
  document_ok p = true ->
  exists st,
    read_lines read_start (with_nl (document_lines p)) = Return st
    /\ ready st (map (fun sec => (fst sec, closed (snd sec))) (_sections p))
         (closed (_defaults p))
    /\ tracked st.
Proof.
  intros Hok. destruct (document_ok_spec _ Hok) as (Hnd & Hsecs & Hdef).
  assert (H0 : exists st0,
             read_lines read_start
               (with_nl match _defaults p with
                        | [] => []
                        | _ :: _ => section_lines DEFAULTSECT (_defaults p)
                        end) = Return st0
             /\ ready st0 [] (closed (_defaults p))).
  { destruct (_defaults p) eqn:E.
    - exists read_start. split; [reflexivity|].
      unfold ready. cbn. repeat split. intros s k [].
    - rewrite <- E in *. apply read_defaults. exact Hdef. }
  destruct H0 as (st0 & H0 & Hr0).
  destruct (@read_sections (_sections p) st0 [] _ Hr0 Hnd Hsecs)
    as (st1 & H1 & Hr1).
  assert (Hread : read_lines read_start (with_nl (document_lines p)) = Return st1).
  { unfold document_lines, with_nl. rewrite map_app, read_lines_app.
    fold (with_nl (sections_lines (_sections p))).
    unfold with_nl in H0. rewrite H0. exact H1. }
  exists st1. split; [exact Hread|]. split; [exact Hr1|].
  apply (@read_lines_tracked (with_nl (document_lines p)) read_start st1);
    [|exact Hread].
  split; [intros _; split; reflexivity | intros n []].
Qed.

Lemma saved_text_lines (p : ConfigParser) (more : list str) :
  document_ok p = true ->
  Forall (fun l => single_line l = true) more ->
  readlines (universal_newlines (document_text p ++ text_of_lines more))
  = with_nl (document_lines p) ++ with_nl more.
Proof.
  intros Hok Hmore. rewrite document_text_lines, <- text_of_lines_app.
  assert (Hall : Forall (fun l => single_line l = true)
                   (document_lines p ++ more))
    by (apply Forall_app; split; [apply document_lines_single, Hok | exact Hmore]).
  rewrite universal_newlines_no_cr by (apply text_of_lines_no_cr; exact Hall).
  rewrite readlines_text_of_lines.
  - unfold with_nl. apply map_app.
  - revert Hall. apply Forall_impl. intros l Hl. apply single_line_no_nl, Hl.
Qed.

(** X17: a line that is no entry makes the whole file unreadable. Take
    the text [save] writes for a document of the shape a saved file
    gives back ([document_ok]) that holds at least one section or
    default, and add one line at its end that is not blank, has no
    white space at either end, starts with no comment sign, holds no
    "=" and no ":" and is no section header. No [QBittorrentConfig] can
    be created on that file: the constructor raises ParsingError. *)
Theorem stray_line_raises (p : ConfigParser) (l : str) (w : bool) :
  document_ok p = true ->
  _sections p <> [] \/ _defaults p <> [] ->
  single_line l = true -> stripped l = true -> l <> [] ->
  is_comment l = false ->
  sectcre_match l = None ->
  split_delimiter l = None ->
  __init__ (mkFile (Some (document_text p ++ l ++ [NL])) w)
  = Raise ParsingError.
Proof.
  intros Hok Hsome Hs Hstr Hne Hc Hsec Hsplit.
  destruct (read_saved p Hok) as (st & Hread & Hready & Htracked).
  unfold __init__, read, _read. cbn [content].
  replace (l ++ [NL]) with (text_of_lines [l])
    by (unfold text_of_lines; cbn [map concat]; apply app_nil_r).
  rewrite (@saved_text_lines p [l] Hok (Forall_cons _ Hs (Forall_nil _))).
  rewrite read_lines_app, Hread. cbn [with_nl map read_lines].
  destruct Hready as (HS & HD & Hi & He & _).
  destruct (cursect st) as [cur|] eqn:Hcur.
  2:{ exfalso. destruct Htracked as [Hnone _].
      destruct (Hnone Hcur) as [H1 H2]. rewrite HS in H1. rewrite HD in H2.
      destruct Hsome as [H|H]; apply H.
      - destruct (_sections p); [reflexivity | discriminate].
      - destruct (_defaults p) as [|kv [|kv' d]]; [reflexivity | discriminate..]. }
  destruct (@tight_line l (@stripped_tight l Hstr Hne)) as [Hstrip Hfirst].
  rewrite (@read_line_content st (l ++ [NL]) l
             ltac:(rewrite Hstrip; exact Hc) Hstrip Hne).
  cbv zeta. rewrite Hfirst, Hsec, Hcur, Hi.
  assert (Hopt : read_option st 0 cur l
                 = Return (mkRead (rs_sections st) (rs_defaults st)
                             (elements_added st) (cursect st) (sectname st)
                             (optname st) 0 true)).
  { unfold read_option, optcre_match. rewrite Hsplit. reflexivity. }
  destruct (truthy (optname st)); cbn [Nat.ltb Nat.leb]; rewrite Hopt;
    reflexivity.
Qed.

(** The theorem above for the file of the bootstrap with the line
    "oops". *)
Lemma stray_line_raises_witness :
  __init__ (mkFile (Some (document_text setup_document ++ lit "oops" ++ [NL]))
              true)
  = Raise ParsingError.
Proof.
  apply (@stray_line_raises setup_document (lit "oops") true);
    first [discriminate | reflexivity | left; discriminate].
Defined.

(** X18: a section header twice. Take the text [save] writes for a
    document of the shape a saved file gives back ([document_ok]) and
    add, at its end, the header of one of its sections, followed by
    anything. No [QBittorrentConfig] can be created on that file: the
    constructor raises DuplicateSectionError. *)
Theorem repeated_header_raises (p : ConfigParser) (name rest : str)
    (w : bool) :
  document_ok p = true ->
  In name (dict_keys (_sections p)) ->
  __init__ (mkFile (Some (document_text p ++ [LBRACKET] ++ name
                          ++ [RBRACKET; NL] ++ rest)) w)
  = Raise DuplicateSectionError.
Proof.
  intros Hok Hin.
  destruct (read_saved p Hok) as (st & Hread & Hready & Htracked).
  destruct (document_ok_spec _ Hok) as (_ & Hsecs & _).
  assert (Hn : name_ok name = true).
  { unfold dict_keys in Hin. apply in_map_iff in Hin.
    destruct Hin as (sec & <- & Hsec). rewrite forallb_forall in Hsecs.
    specialize (Hsecs _ Hsec). unfold section_ok in Hsecs.
    rewrite !andb_true_iff in Hsecs. apply Hsecs. }
  destruct (name_ok_spec _ Hn) as (Hne & Hnl & Hcr).
  pose proof (document_lines_single _ Hok) as Hsingle.
  unfold __init__, read, _read. cbn [content]. rewrite document_text_lines.
  replace (text_of_lines (document_lines p) ++ [LBRACKET] ++ name
           ++ [RBRACKET; NL] ++ rest)
    with ((text_of_lines (document_lines p) ++ LBRACKET :: name ++ [RBRACKET])
          ++ NL :: rest)
    by (rewrite <- !app_assoc; cbn [app]; rewrite <- !app_assoc; reflexivity).
  assert (Hh : single_line (LBRACKET :: name ++ [RBRACKET]) = true).
  { change (LBRACKET :: name ++ [RBRACKET])
      with ([LBRACKET] ++ name ++ [RBRACKET]).
    rewrite !single_line_app. destruct name; [congruence|]. cbn [name_ok] in Hn.
    rewrite Hn. reflexivity. }
  rewrite universal_newlines_app.
  2:{ unfold no_cr. apply Forall_app. split.
      - apply text_of_lines_no_cr, Hsingle.
      - apply single_line_spec in Hh. apply Hh. }
  rewrite <- app_assoc.
  assert (Hlines : forall ls tail,
             Forall no_nl ls ->
             readlines (text_of_lines ls ++ tail) = with_nl ls ++ readlines tail).
  { induction 1 as [|x ls Hx Hls IH]; [reflexivity|].
    unfold text_of_lines. cbn [map concat]. fold (text_of_lines ls).
    rewrite <- !app_assoc. cbn [app].
    rewrite (@readlines_line x _ Hx), IH. reflexivity. }
  rewrite Hlines.
  2:{ revert Hsingle. apply Forall_impl. intros x Hx.
      apply single_line_no_nl, Hx. }
  rewrite (@readlines_line (LBRACKET :: name ++ [RBRACKET]) _
             (single_line_no_nl _ Hh)).
  rewrite read_lines_app, Hread. cbn [read_lines].
  destruct (@tight_line _ (header_tight name)) as [Hstrip Hfirst].
  rewrite (@read_line_content st _ (LBRACKET :: name ++ [RBRACKET])
             ltac:(rewrite Hstrip; reflexivity) Hstrip ltac:(discriminate)).
  cbv zeta. rewrite Hfirst, (@sectcre_match_header name Hne Hnl).
  destruct Hready as (HS & _ & Hi & _). rewrite Hi.
  assert (Hkeys : In name (dict_keys (rs_sections st))).
  { rewrite HS. unfold dict_keys in *. rewrite map_map. exact Hin. }
  assert (Hhead : read_header st 0 name = Raise DuplicateSectionError).
  { unfold read_header.
    rewrite (proj2 (dict_mem_true name (rs_sections st)) Hkeys).
    destruct Htracked as [_ Hadd].
    rewrite (proj2 (element_in (ESect name) (elements_added st))
               (Hadd name Hkeys)).
    reflexivity. }
  destruct (cursect st); [|rewrite Hhead; reflexivity].
  destruct (truthy (optname st)); cbn [Nat.ltb Nat.leb]; rewrite Hhead;
    reflexivity.
Qed.

(** The theorem above for the file of the bootstrap with "[Meta]" once
    more. *)
Lemma repeated_header_raises_witness :
  __init__ (mkFile (Some (document_text setup_document ++ [LBRACKET]
                          ++ lit "Meta" ++ [RBRACKET; NL] ++ lit "x=1"))
              true)
  = Raise DuplicateSectionError.
Proof.
  apply (@repeated_header_raises setup_document (lit "Meta") (lit "x=1")
           true).
  - reflexivity.
  - cbn. tauto.
Defined.

(** ** Passwords that cannot be encoded, comments *)

(** [set_web_password] step by step, for a password that encodes to
    [pw]. *)
Lemma set_web_password_steps (self : QBittorrentConfig) (password : str)
    (pw : bytes) (save_ : bool) (entropy : nat -> byte) :
  encode password = Return pw ->
  exists value,
    text_ok value
    /\ set_web_password password save_ entropy self
       = (if save_
          then save
                 (mkConfig (file self)
                    (assigned (config self) (lit "Preferences")
                       (lit "WebUI\Password_PBKDF2") value))
          else (Return tt,
                mkConfig (file self)
                  (assigned (config self) (lit "Preferences")
                     (lit "WebUI\Password_PBKDF2") value))).
Proof.
  intros Henc. unfold set_web_password. cbv zeta. rewrite Henc.
  generalize (pbkdf2_hmac_sha512 pw (token_bytes 16 entropy) 100000).
  intros hash. eexists. split; [apply digest_value_ok|].
  unfold bind.
  rewrite (@set_returns self (lit "Preferences")
             (lit "WebUI\Password_PBKDF2") _);
    [|discriminate|discriminate|apply digest_value_accepted].
  destruct save_; reflexivity.
Qed.

(** X19: which calls of [set_web_password] return. When the password
    holds a code point that UTF-8 cannot encode (a surrogate, or, in
    this model of strings, a number that is no code point),
    [password.encode()] raises UnicodeEncodeError before anything is
    set: the document and the file are as they were. Otherwise the
    digest is stored; without [save] the call returns; with [save] it
    raises OSError when the path cannot be opened for writing, raises
    UnicodeEncodeError when the document, with the digest in it, holds
    a string that cannot be encoded, and returns in every other case.
    Storing the digest keeps a document encodable. *)
Theorem set_web_password_encodes (self : QBittorrentConfig) (password : str)
    (save_ : bool) (entropy : nat -> byte) :
  let run := set_web_password password save_ entropy self in
  if forallb encodable password
  then fst run
       = (if save_ && negb (writable (file self)) then Raise OSError
          else if save_ && negb (document_encodable (config (snd run)))
               then Raise UnicodeEncodeError
               else Return tt)
       /\ (document_encodable (config self) = true ->
           document_encodable (config (snd run)) = true)
  else run = (Raise UnicodeEncodeError, self).
Proof.
  cbv zeta. pose proof (encode_encodable password) as H.
  destruct (forallb encodable password).
  - destruct H as [pw Henc].
    destruct (@set_web_password_steps self password pw save_ entropy Henc)
      as (value & Hv & ->).
    split.
    + destruct save_; cbn [andb]; [|reflexivity].
      rewrite save_run. cbn [file config].
      destruct (writable (file self)); cbn [negb fst snd config];
        [|reflexivity].
      destruct (document_encodable _); reflexivity.
    + intros He.
      assert (Hs : document_encodable
                     (assigned (config self) (lit "Preferences")
                        (lit "WebUI\Password_PBKDF2") value) = true).
      { apply assigned_encodable; [exact He | | | exact Hv];
          apply text_ok_iff; reflexivity. }
      destruct save_; [rewrite save_config|]; exact Hs.
  - unfold set_web_password. cbv zeta. rewrite H. reflexivity.
Qed.

(** X20: comment lines are not read. A line whose first character
    after the white space is "#" or ";" changes nothing to what [_read]
    makes of a file, wherever it stands: with or without the line, the
    same document or the same exception. (So a comment of the file is
    not in the document, and not in the file once [save] has written
    it.) *)
Theorem comment_lines_ignored (before after : list str) (line : str) :
  is_comment (strip line) = true ->
  _read (before ++ line :: after) = _read (before ++ after).
Proof.
  intros Hc. unfold _read. rewrite !read_lines_app.
  destruct (read_lines read_start before) as [st|]; [|reflexivity].
  cbn [read_lines]. rewrite (@read_line_comment st line Hc). reflexivity.
Qed.

(** The theorem above for a comment under a section header. *)
Lemma comment_lines_ignored_witness :
  _read ([lit "[Preferences]" ++ [NL]]
         ++ (lit "  ; the port" ++ [NL]) :: [lit "WebUI\Port=8080" ++ [NL]])
  = _read ([lit "[Preferences]" ++ [NL]] ++ [lit "WebUI\Port=8080" ++ [NL]]).
Proof.
  apply (@comment_lines_ignored [lit "[Preferences]" ++ [NL]]
           [lit "WebUI\Port=8080" ++ [NL]] (lit "  ; the port" ++ [NL])).
  reflexivity.
Defined.

(** ** White space around a value *)

Lemma lstrip_rstrip (s : str) : lstrip (rstrip s) = rstrip (lstrip s).
Proof.
  induction s as [|c s IH]; [reflexivity|].
  cbn [lstrip]. destruct (isspace c) eqn:Hc.
  - cbn [rstrip]. destruct (rstrip s) as [|x r].
    + rewrite Hc. exact IH.
    + cbn [lstrip]. rewrite Hc. exact IH.
  - destruct (@rstrip_head c s Hc) as [r' ->]. apply lstrip_nonspace, Hc.
Qed.

Lemma lstrip_idem (s : str) : lstrip (lstrip s) = lstrip s.
Proof.
  destruct (lstrip_head s) as [E|(c & r & E & Hc)]; rewrite E;
    [reflexivity | apply lstrip_nonspace, Hc].
Qed.

Lemma strip_lstrip_rstrip (s : str) : strip (lstrip (rstrip s)) = strip s.
Proof.
  unfold strip. rewrite lstrip_idem, lstrip_rstrip. apply rstrip_idem.
Qed.

Lemma rstrip_app (a b : str) :
  rstrip (a ++ b) = match rstrip b with
                    | [] => rstrip a
                    | _ :: _ => a ++ rstrip b
                    end.
Proof.
  induction a as [|x a IH]; cbn [app].
  - destruct (rstrip b); reflexivity.
  - cbn [rstrip]. rewrite IH. destruct (rstrip b) as [|y ys]; [reflexivity|].
    destruct a; reflexivity.
Qed.

Lemma rstrip_after_delimiter (key v : str) :
  rstrip (key ++ [EQUALS] ++ v) = key ++ [EQUALS] ++ rstrip v.
Proof.
  replace (key ++ [EQUALS] ++ v) with ((key ++ [EQUALS]) ++ v)
    by (rewrite <- app_assoc; reflexivity).
  rewrite rstrip_app. destruct (rstrip v) as [|y ys].
  - rewrite rstrip_app_nonspace by reflexivity. reflexivity.
  - rewrite <- app_assoc. reflexivity.
Qed.

(** [_read] does not see the white space around the value of an entry
    line. *)
Lemma read_line_padded (st : read_state) (key v : str) :
  key_ok key (strip v) = true -> single_line v = true ->
  read_line st ((key ++ [EQUALS] ++ v) ++ [NL])
  = read_line st ((key ++ [EQUALS] ++ strip v) ++ [NL]).
Proof.
  intros Hk Hv.
  destruct (key_ok_spec _ _ Hk) as (Hne & _ & Hs & Hd & Hc & Hsec).
  rewrite (first_line_single _ (single_line_strip _ Hv)) in Hsec.
  destruct (@stripped_tight key Hs Hne) as [(c & r & Hkey & Hcs) _].
  assert (Hstrip : forall x, strip ((key ++ [EQUALS] ++ x) ++ [NL])
                             = key ++ [EQUALS] ++ rstrip x).
  { intros x. rewrite strip_app_space by reflexivity. unfold strip.
    rewrite Hkey at 1. cbn [app]. rewrite (@lstrip_nonspace c _ Hcs).
    change (c :: r ++ EQUALS :: x) with ((c :: r) ++ [EQUALS] ++ x).
    rewrite <- Hkey. apply rstrip_after_delimiter. }
  assert (Hfirst : forall x, first_nonspace ((key ++ [EQUALS] ++ x) ++ [NL])
                             = Some 0%nat).
  { intros x. rewrite Hkey. cbn [app first_nonspace]. rewrite Hcs. reflexivity. }
  assert (Hcomment : forall x, is_comment (key ++ [EQUALS] ++ x) = false).
  { intros x. rewrite Hkey in *. exact Hc. }
  assert (Hnil : forall x, key ++ [EQUALS] ++ x <> []).
  { intros x. rewrite Hkey. discriminate. }
  assert (Hsect : sectcre_match (key ++ [EQUALS] ++ rstrip v) = None).
  { apply sectcre_match_none.
    - apply single_line_no_nl. rewrite !single_line_app.
      destruct (key_ok_spec _ _ Hk) as (_ & Hsk & _). rewrite Hsk.
      rewrite (single_line_rstrip _ Hv). reflexivity.
    - destruct (header_like (key ++ [EQUALS] ++ rstrip v)) eqn:E; [|reflexivity].
      exfalso. apply header_like_spec in E. destruct E as (x & t & E & Hin).
      assert (Hl : header_like (key ++ [EQUALS] ++ strip v) = true).
      { apply header_like_spec. rewrite Hkey in *. cbn [app] in *.
        injection E as -> E.
        assert (Hv' : forall y, In y (rstrip v) -> isspace y = false ->
                                In y (strip v)).
        { intros y Hy Hys. unfold strip. rewrite <- lstrip_rstrip.
          clear - Hy Hys. induction (rstrip v) as [|z zs IH]; [destruct Hy|].
          cbn [lstrip]. destruct Hy as [->|Hy].
          - rewrite Hys. left. reflexivity.
          - destruct (isspace z); [apply IH, Hy | right; exact Hy]. }
        destruct r as [|h r'].
        - cbn [app] in E. injection E as <- <-.
          exists EQUALS, (strip v). split; [reflexivity|].
          apply Hv'; [exact Hin | reflexivity].
        - cbn [app] in E. injection E as <- <-.
          exists h, (r' ++ EQUALS :: strip v). split; [reflexivity|].
          apply in_app_or in Hin. apply in_or_app.
          destruct Hin as [Hin|[Hin|Hin]]; [left; exact Hin | discriminate |].
          right. right. apply Hv'; [exact Hin | reflexivity]. }
      apply sectcre_match_none in Hsec; [congruence|].
      apply single_line_no_nl. rewrite !single_line_app.
      destruct (key_ok_spec _ _ Hk) as (_ & Hsk & _). rewrite Hsk.
      rewrite (single_line_strip _ Hv). reflexivity. }
  assert (Hrs : rstrip (strip v) = strip v) by (unfold strip; apply rstrip_idem).
  rewrite (@read_line_content st _ (key ++ [EQUALS] ++ rstrip v)
             ltac:(rewrite Hstrip; apply Hcomment) (Hstrip v) (Hnil _)).
  rewrite (@read_line_content st _ (key ++ [EQUALS] ++ strip v)
             ltac:(rewrite Hstrip, Hrs; apply Hcomment)
             ltac:(rewrite Hstrip, Hrs; reflexivity) (Hnil _)).
  cbv zeta. rewrite !Hfirst, Hsect, Hsec.
  assert (Hopt : forall cur,
             read_option st 0 cur (key ++ [EQUALS] ++ rstrip v)
             = read_option st 0 cur (key ++ [EQUALS] ++ strip v)).
  { intros cur. unfold read_option, optcre_match.
    change (key ++ [EQUALS] ++ rstrip v) with (key ++ EQUALS :: rstrip v).
    change (key ++ [EQUALS] ++ strip v) with (key ++ EQUALS :: strip v).
    rewrite !(@split_delimiter_key key _ EQUALS Hd eq_refl).
    cbv zeta. rewrite strip_lstrip_rstrip.
    replace (strip (lstrip (strip v))) with (strip v); [reflexivity|].
    unfold strip at 2. rewrite lstrip_idem. fold (strip (strip v)).
    symmetry. apply strip_idem. }
  destruct (cursect st) as [cur|]; [|reflexivity].
  rewrite Hopt. destruct (truthy (optname st)); reflexivity.
Qed.

Lemma dict_set_split {V} (k : str) (d : dict V) :
  exists pre post, forall v : V, dict_set k v d = pre ++ (k, v) :: post.
Proof.
  induction d as [|[k' v'] d (pre & post & IH)].
  - exists [], []. reflexivity.
  - cbn [dict_set]. destruct (str_eqb k k') eqn:E.
    + apply str_eqb_eq in E. subst k'. exists [], d. reflexivity.
    + exists ((k', v') :: pre), post. intros v. rewrite IH. reflexivity.
Qed.

(** The lines of the file of a document in which a key was assigned:
    all the same but the line of the key. *)
Lemma assigned_lines (p : ConfigParser) (section option : str) :
  exists before after,
    forall value,
      single_line value = true ->
      document_lines (assigned p section option value)
      = before ++ [option ++ [EQUALS] ++ value] ++ after.
Proof.
  destruct (dict_set_split section (_sections p)) as (preS & postS & HS).
  destruct (dict_set_split option
              match dict_get section (_sections p) with
              | Some items => items
              | None => []
              end) as (i1 & i2 & Hi).
  exists (match _defaults p with
          | [] => []
          | _ :: _ => section_lines DEFAULTSECT (_defaults p)
          end ++ sections_lines preS
          ++ (LBRACKET :: section ++ [RBRACKET]) :: flat_map entry_lines i1),
    (flat_map entry_lines i2 ++ [[]] ++ sections_lines postS).
  intros value Hv. unfold assigned, document_lines. cbn [_sections _defaults].
  rewrite HS, Hi. unfold sections_lines. rewrite flat_map_app.
  cbn [flat_map fst snd]. unfold section_lines. rewrite flat_map_app.
  cbn [flat_map].
  assert (He : entry_lines (option, value) = [option ++ [EQUALS] ++ value]).
  { unfold entry_lines. cbn [fst snd].
    rewrite (@split_nl_single value (single_line_no_nl _ Hv)). reflexivity. }
  rewrite He. repeat (progress (rewrite <- ?app_assoc; cbn [app])).
  reflexivity.
Qed.

Lemma document_ok_assigned (p : ConfigParser) (section option value : str) :
  document_ok p = true ->
  name_ok section = true -> section <> DEFAULTSECT ->
  key_ok option value = true -> value_ok value = true ->
  document_ok (assigned p section option value) = true.
Proof.
  intros Hok Hn Hd Hk Hv. apply document_ok_iff in Hok.
  destruct Hok as (Hnd & Hsecs & Hdef).
  apply document_ok_iff. unfold assigned. cbn [_sections _defaults].
  split; [apply dict_set_NoDup, Hnd|]. split; [|exact Hdef].
  apply dict_set_Forall; [exact Hsecs|].
  apply section_ok_iff. cbn [fst snd]. split; [exact Hn|]. split; [exact Hd|].
  apply items_ok_set; [|exact Hk|exact Hv].
  destruct (dict_get section (_sections p)) as [items|] eqn:E; [|reflexivity].
  pose proof (@dict_get_Forall _ (fun sec => section_ok sec = true)
                section items _ Hsecs E) as Hsec.
  apply section_ok_iff in Hsec. apply Hsec.
Qed.

Lemma value_ok_strip (v : str) : single_line v = true -> value_ok (strip v) = true.
Proof.
  intros Hv. unfold value_ok.
  rewrite (@split_nl_single (strip v)
             (single_line_no_nl _ (single_line_strip _ Hv))).
  cbn [forallb tl]. unfold line_ok.
  rewrite (single_line_strip _ Hv), stripped_strip.
  unfold strip at 1. rewrite rstrip_idem. fold (strip v).
  rewrite str_eqb_refl. reflexivity.
Qed.

(** X21: white space around a value does not survive a reload. On a
    document that a saved file gives back and that UTF-8 can encode,
    with a path that can be opened for writing, for a one-line value
    that passes the interpolation check, set under a key that the
    parser reads as a key in a section whose name is one line other
    than DEFAULT, name, key and value without a code point that UTF-8
    cannot encode: [set] then [save] return and the object holds the
    value as given, but a [QBittorrentConfig] created on the saved file
    holds the value without the white space at its ends, every other
    entry, and the defaults, being the same. *)
Theorem padded_value_stripped_on_reload (self : QBittorrentConfig)
    (section option value : str) :
  writable (file self) = true ->
  document_encodable (config self) = true ->
  document_ok (config self) = true ->
  name_ok section = true -> section <> DEFAULTSECT ->
  single_line value = true ->
  key_ok option (strip value) = true ->
  accepts_value value = true ->
  forallb encodable section = true ->
  forallb encodable option = true ->
  forallb encodable value = true ->
  exists saved,
    (set section option value ;; save) self = (Return tt, saved)
    /\ config saved = assigned (config self) section option value
    /\ __init__ (file saved)
       = Return (mkConfig (file saved)
                   (assigned (config self) section option (strip value))).
Proof.
  intros Hw He Hok Hn Hd Hv Hk Ha E1 E2 E3.
  assert (Hne : section <> []) by (destruct section; discriminate).
  pose proof (@set_returns self section option value Hne Hd Ha) as Hset.
  fold (assigned (config self) section option value) in Hset.
  assert (He1 : document_encodable
                  (assigned (config self) section option value) = true)
    by (apply assigned_encodable; [exact He|..]; apply text_ok_iff;
        assumption).
  eexists. split.
  { rewrite (@bind_return _ _ _ _ _ _ _ _ Hset).
    apply (@save_returns
             (mkConfig (file self)
                (assigned (config self) section option value)) Hw He1). }
  split; [reflexivity|]. cbn [file config].
  pose proof (@document_ok_assigned (config self) section option (strip value)
                Hok Hn Hd Hk (value_ok_strip _ Hv)) as Hok'.
  destruct (assigned_lines (config self) section option)
    as (before & after & Hlines).
  pose proof (Hlines value Hv) as Hl.
  pose proof (Hlines (strip value) (single_line_strip _ Hv)) as Hl'.
  pose proof (document_lines_single _ Hok') as Hsingle. rewrite Hl' in Hsingle.
  apply Forall_app in Hsingle. destruct Hsingle as [Hbefore Hafter].
  apply Forall_app in Hafter. destruct Hafter as [Hline Hafter].
  assert (Hsingle : Forall (fun l => single_line l = true)
                      (before ++ [option ++ [EQUALS] ++ value] ++ after)).
  { apply Forall_app. split; [exact Hbefore|]. apply Forall_app.
    split; [|exact Hafter]. constructor; [|constructor].
    inversion Hline as [|? ? Hx _]; subst. rewrite !single_line_app in *.
    apply andb_true_iff in Hx. destruct Hx as [Hx1 _].
    rewrite Hx1, Hv. reflexivity. }
  assert (Hread : read (Some (document_text
                                (assigned (config self) section option value)))
                  = read (Some (document_text
                                  (assigned (config self) section option
                                     (strip value))))).
  { unfold read. rewrite !document_text_lines, Hl, Hl'.
    rewrite !universal_newlines_no_cr
      by (apply text_of_lines_no_cr; rewrite <- ?Hl'; try exact Hsingle;
          apply document_lines_single, Hok').
    rewrite !readlines_text_of_lines.
    2:{ rewrite <- Hl'. generalize (document_lines_single _ Hok').
        apply Forall_impl. intros l. apply single_line_no_nl. }
    2:{ revert Hsingle. apply Forall_impl. intros l. apply single_line_no_nl. }
    unfold _read. rewrite !map_app, !read_lines_app.
    destruct (read_lines read_start (map (fun l => l ++ [NL]) before))
      as [st|]; [|reflexivity].
    cbn [map]. rewrite !read_lines_app. cbn [read_lines].
    rewrite (@read_line_padded st option value Hk Hv).
    reflexivity. }
  unfold __init__. cbn [content].
  rewrite Hread, (read_document _ Hok'). reflexivity.
Qed.

(** The theorem above for the user name " admin " on the document of
    the bootstrap. *)
Lemma padded_value_stripped_on_reload_witness :
  exists saved,
    (set (lit "Preferences") (lit "WebUI\Username") (lit " admin ") ;; save)
      (mkConfig (mkFile None true) setup_document) = (Return tt, saved)
    /\ config saved
       = assigned setup_document (lit "Preferences") (lit "WebUI\Username")
           (lit " admin ")
    /\ __init__ (file saved)
       = Return (mkConfig (file saved)
                   (assigned setup_document (lit "Preferences")
                      (lit "WebUI\Username") (strip (lit " admin ")))).
Proof.
  apply (@padded_value_stripped_on_reload
           (mkConfig (mkFile None true) setup_document)
           (lit "Preferences") (lit "WebUI\Username") (lit " admin "));
    first [discriminate | vm_compute; reflexivity].
Defined.
